(** * Mortgage calculator bot: the conversation state machine and the
      amortization engine of [bot.py], embedded and verified.

    The embedding follows the Python source function by function.

    - Python [float] is IEEE 754 binary64: Rocq's primitive [float], whose
      operations are specified by [SpecFloat].
    - Python [int] is [Z].
    - A Python exception is a value of [exn]; code that can raise returns an
      [outcome].
    - The process-wide dict [sessions] is a [gmap] from chat ids to session
      records, threaded through the handlers as explicit state.
    - The handlers are modelled twice: on a new message of a private chat
      ([Bot.process_update]), and on every update [main] lets through to
      them, a new or an edited message of any user of any chat
      ([Bot.dispatch]); [ApplicationFacts.dispatch_private_chats] relates
      the two.
    - The C library's [pow], which Python's [**] calls on floats, is a
      parameter ([Libm]); a reference implementation (the correctly rounded
      power) is supplied to run the model on concrete inputs. *)

From Stdlib Require Import ZArith Lia Floats Ascii String List DecimalString.
From Stdlib Require DecimalN.
From stdpp Require Import gmap strings list.

#[local] Open Scope Z_scope.
#[local] Set Warnings "-inexact-float".

(** ** The Python runtime fragment the bot relies on *)

Module Py.

(** Exceptions the modelled code can raise. *)
Inductive exn : Set :=
| ValueError
| TypeError
| ZeroDivisionError
| OverflowError
| AttributeError.

(** The result of evaluating an expression or running a function body. *)
Inductive outcome (A : Type) : Type :=
| Return (a : A)
| Raise (e : exn).
Arguments Return {A} a.
Arguments Raise {A} e.

Definition bind {A B : Type} (m : outcome A) (k : A -> outcome B) : outcome B :=
  match m with
  | Return a => k a
  | Raise e => Raise e
  end.

Definition returns {A : Type} (m : outcome A) : bool :=
  match m with Return _ => true | Raise _ => false end.

Definition raises {A : Type} (e : exn) (m : outcome A) : bool :=
  match m, e with
  | Raise ValueError, ValueError
  | Raise TypeError, TypeError
  | Raise ZeroDivisionError, ZeroDivisionError
  | Raise OverflowError, OverflowError
  | Raise AttributeError, AttributeError => true
  | _, _ => false
  end.

(** *** int and float *)

(** The binary64 value nearest to an integer (ties to even); an infinity
    when the integer is out of range. *)
Definition Z2F (z : Z) : float := SF2Prim (binary_normalize prec emax z 0 false).

(** [float(n)] and the implicit conversion of an [int] operand in mixed
    arithmetic: correctly rounded, [OverflowError] when out of range. *)
Definition float_of_int (z : Z) : outcome float :=
  let f := Z2F z in
  if is_infinity f then Raise OverflowError else Return f.

(** The integer a finite float truncates to (towards zero). *)
Definition SF_trunc (x : spec_float) : option Z :=
  match x with
  | S754_zero _ => Some 0
  | S754_finite s m e =>
      let a := if 0 <=? e then Z.shiftl (Zpos m) e else Z.shiftr (Zpos m) (- e) in
      Some (if s then - a else a)
  | S754_infinity _ | S754_nan => None
  end.

(** [int(x)] on a float. *)
Definition int_of_float (x : float) : outcome Z :=
  match Prim2SF x with
  | S754_nan => Raise ValueError
  | S754_infinity _ => Raise OverflowError
  | sf => match SF_trunc sf with Some z => Return z | None => Raise ValueError end
  end.

(** The integer value of a float, when it has one. *)
Definition integral_value (x : float) : option Z :=
  match Prim2SF x with
  | S754_zero _ => Some 0
  | S754_finite s m e =>
      if 0 <=? e then Some ((if s then Z.opp else id) (Z.shiftl (Zpos m) e))
      else if Zpos m mod 2 ^ (- e) =? 0
           then Some ((if s then Z.opp else id) (Z.shiftr (Zpos m) (- e)))
           else None
  | _ => None
  end.

(** [x / y] on floats: Python raises on a zero divisor instead of returning
    an infinity or a NaN. *)
Definition float_truediv (x y : float) : outcome float :=
  if (y =? 0)%float then Raise ZeroDivisionError else Return (x / y)%float.

(** [x / n] and [x * n] with a float left operand and an int right operand:
    the int is converted first. *)
Definition float_truediv_int (x : float) (n : Z) : outcome float :=
  bind (float_of_int n) (float_truediv x).

Definition float_mul_int (x : float) (n : Z) : outcome float :=
  bind (float_of_int n) (fun y => Return (x * y)%float).

(** *** The power operator *)

(** The C library's [pow]. IEEE 754 does not fix its rounding, so it is a
    parameter of the model. *)
Class Libm := libm_pow : float -> float -> float.

(** What the proofs need of [pow]: compounding a base between 1 and 2 over
    12 to 360 periods yields a finite value above 1. Any implementation
    with an error below one unit in the last place satisfies it. *)
Definition libm_sane `{Libm} : Prop :=
  forall (x : float) (n : Z),
    (1 <? x)%float = true -> (x <? 2)%float = true -> 12 <= n <= 360 ->
    (1 <? libm_pow x (Z2F n))%float = true /\
    (libm_pow x (Z2F n) <? infinity)%float = true.

(** The correctly rounded power of a positive finite base to a positive
    integral exponent; NaN elsewhere (the wrapper [float_pow] below calls
    [pow] on positive finite bases only, and the bot on positive integral
    exponents only). *)
Definition pown_ref (x y : float) : float :=
  match Prim2SF x, integral_value y with
  | S754_finite false m e, Some (Zpos n) =>
      SF2Prim (binary_normalize prec emax (Zpos m ^ Zpos n) (e * Zpos n) false)
  | _, _ => nan
  end.

Definition reference_libm : Libm := pown_ref.

Section Pow.
Context `{Libm}.

(** [v ** w] for a float [v] and an int [w], after CPython's [float_pow]:
    the exponent is converted to a float, the special cases are decided
    without the C library, and an infinite result of [pow] on finite
    operands is reported as [OverflowError]. *)
Definition float_pow (v : float) (w : Z) : outcome float :=
  bind (float_of_int w) (fun iw =>
  let iw_is_odd := Z.odd w && (Z.abs w <? 2 ^ 53) in
  if (iw =? 0)%float then Return 1%float
  else if is_nan v then Return v
  else if is_infinity v then
    Return (if (0 <? iw)%float
            then (if iw_is_odd then v else abs v)
            else (if iw_is_odd then (if get_sign v then neg_zero else 0%float) else 0%float))
  else if (v =? 0)%float then
    if (iw <? 0)%float then Raise ZeroDivisionError
    else Return (if iw_is_odd then v else 0%float)
  else
    let negate_result := (v <? 0)%float && iw_is_odd in
    let iv := abs v in
    if (iv =? 1)%float then Return (if negate_result then (-1)%float else 1%float)
    else
      let ix := libm_pow iv iw in
      if is_infinity ix then Raise OverflowError
      else Return (if negate_result then (- ix)%float else ix)).

End Pow.

(** *** Strings *)

(** A text is a [string] whose characters stand for the code points 0 to
    255. These are the white-space characters of [str.strip] in that
    range. *)
Definition code (c : ascii) : Z := Z.of_nat (nat_of_ascii c).

Definition is_space (c : ascii) : bool :=
  let n := code c in
  ((9 <=? n) && (n <=? 13)) || ((28 <=? n) && (n <=? 32)) || (n =? 133) || (n =? 160).

Fixpoint lstrip (s : list ascii) : list ascii :=
  match s with
  | c :: s' => if is_space c then lstrip s' else s
  | [] => []
  end.

Definition rstrip (s : list ascii) : list ascii := rev (lstrip (rev s)).

(** [s.strip()] *)
Definition strip (s : string) : string :=
  string_of_list_ascii (rstrip (lstrip (list_ascii_of_string s))).

(** [s.replace(old, new)] for one-character [old] and [new]. *)
Definition replace_char (old new : ascii) (s : string) : string :=
  string_of_list_ascii
    (map (fun c => if Ascii.eqb c old then new else c) (list_ascii_of_string s)).

(** [s.replace(old, "")] for a one-character [old]. *)
Definition remove_char (old : ascii) (s : string) : string :=
  string_of_list_ascii
    (List.filter (fun c => negb (Ascii.eqb c old)) (list_ascii_of_string s)).

(** *** float(str) *)

Definition is_digit (c : ascii) : bool := (48 <=? code c) && (code c <=? 57).

Definition digits_value (ds : list ascii) : Z :=
  fold_left (fun acc c => 10 * acc + (code c - 48)) ds 0.

Fixpoint span_digits (s : list ascii) : list ascii * list ascii :=
  match s with
  | c :: s' =>
      if is_digit c then let '(ds, r) := span_digits s' in (c :: ds, r) else ([], s)
  | [] => ([], [])
  end.

(** Underscores are accepted between two digits and dropped. *)
Fixpoint drop_underscores (prev : ascii) (s : list ascii) : option (list ascii) :=
  match s with
  | [] => if Ascii.eqb prev "_" then None else Some []
  | c :: s' =>
      if Ascii.eqb c "_" then
        if is_digit prev then drop_underscores c s' else None
      else if Ascii.eqb prev "_" && negb (is_digit c) then None
      else option_map (cons c) (drop_underscores c s')
  end.

Definition lower (c : ascii) : ascii :=
  if (65 <=? code c) && (code c <=? 90)
  then ascii_of_nat (nat_of_ascii c + 32) else c.

Definition split_sign (s : list ascii) : bool * list ascii :=
  match s with
  | c :: s' =>
      if Ascii.eqb c "-" then (true, s')
      else if Ascii.eqb c "+" then (false, s') else (false, s)
  | [] => (false, [])
  end.

(** The binary64 value nearest to [m * 10 ^ e] (ties to even), with the
    sign [neg]; an infinity on overflow. *)
Definition decimal_to_SF (neg : bool) (m e : Z) : spec_float :=
  match m with
  | Zpos _ =>
      if 0 <=? e then
        binary_normalize prec emax ((if neg then Z.opp else id) (m * 10 ^ e)) 0 false
      else
        let '(q, e', l) := SFdiv_core_binary prec emax m 0 (10 ^ (- e)) 0 in
        binary_round_aux prec emax neg q e' l
  | _ => S754_zero neg
  end.

(** The grammar of [float(str)] once white space and underscores are gone:
    an optional sign, then [inf], [infinity] or [nan] in any case, or
    digits with an optional point and an optional exponent. *)
Definition parse_float_literal (s : list ascii) : option float :=
  let '(neg, s1) := split_sign s in
  let word := string_of_list_ascii (map lower s1) in
  if (String.eqb word "inf" || String.eqb word "infinity")%bool then
    Some (if neg then neg_infinity else infinity)
  else if String.eqb word "nan" then Some nan
  else
    let '(ip, s2) := span_digits s1 in
    let '(fp, s3) :=
      match s2 with
      | c :: t => if Ascii.eqb c "." then span_digits t else ([], s2)
      | [] => ([], [])
      end in
    match ip ++ fp with
    | [] => None
    | ds =>
        let m := digits_value ds in
        let scale := - Z.of_nat (length fp) in
        match s3 with
        | [] => Some (SF2Prim (decimal_to_SF neg m scale))
        | c :: t =>
            if Ascii.eqb (lower c) "e" then
              let '(eneg, t1) := split_sign t in
              match span_digits t1 with
              | ((_ :: _) as ed, []) =>
                  let ex := digits_value ed in
                  Some (SF2Prim (decimal_to_SF neg m ((if eneg then - ex else ex) + scale)))
              | _ => None
              end
            else None
        end
    end.

(** [float(s)] for a string: [ValueError] unless the stripped text is a
    float literal. *)
Definition float_of_str (s : string) : outcome float :=
  let body := rstrip (lstrip (list_ascii_of_string s)) in
  match drop_underscores "000" body with
  | Some t =>
      match parse_float_literal t with
      | Some f => Return f
      | None => Raise ValueError
      end
  | None => Raise ValueError
  end.

(** *** Formatting *)

(** The integer nearest to [m * 2 ^ e], ties to even. *)
Definition round_half_even (m e : Z) : Z :=
  if 0 <=? e then m * 2 ^ e
  else
    let d := 2 ^ (- e) in
    let q := m / d in
    match (2 * (m mod d)) ?= d with
    | Lt => q
    | Gt => q + 1
    | Eq => if Z.even q then q else q + 1
    end.

Definition decimal_digits (n : Z) : list ascii :=
  list_ascii_of_string (DecimalString.NilZero.string_of_uint (N.to_uint (Z.to_N n))).

(** Commas between groups of three digits, counted from the right; the
    digits are given least significant first. *)
Fixpoint group_thousands (rev_digits : list ascii) (k : nat) : list ascii :=
  match rev_digits with
  | [] => []
  | d :: t =>
      match k with
      | 3%nat => "," :: d :: group_thousands t 1
      | _ => d :: group_thousands t (S k)
      end
  end%char.

(** [f"{x:,.0f}"] *)
Definition format_comma_0f (x : float) : string :=
  match Prim2SF x with
  | S754_nan => "nan"
  | S754_infinity s => if s then "-inf" else "inf"
  | S754_zero s => if s then "-0" else "0"
  | S754_finite s m e =>
      let n := round_half_even (Zpos m) e in
      let body := string_of_list_ascii (rev (group_thousands (rev (decimal_digits n)) 0)) in
      if s then String "-" body else body
  end.

(** [f"{x:.1f}"] *)
Definition format_1f (x : float) : string :=
  match Prim2SF x with
  | S754_nan => "nan"
  | S754_infinity s => if s then "-inf" else "inf"
  | S754_zero s => if s then "-0.0" else "0.0"
  | S754_finite s m e =>
      let n := round_half_even (Zpos m * 10) e in
      let body :=
        string_of_list_ascii (decimal_digits (n / 10) ++ "." :: decimal_digits (n mod 10))%char in
      if s then String "-" body else body
  end.

(** [str(n)] for an int. *)
Definition str_of_int (n : Z) : string :=
  DecimalString.NilZero.string_of_int (Z.to_int n).

(** *** binary64 constants *)

(** The exponent of the smallest positive float, written with an integral
    mantissa. *)
Abbreviation emin := (-1074).

(** 1.0 and 2.0 as sign, mantissa and exponent. *)
Definition one_SF : spec_float := S754_finite false 4503599627370496 (-52).

Definition two_SF : spec_float := S754_finite false 4503599627370496 (-51).

(** The numbers of months of a loan of 1 to 30 years lie among these. *)
Definition periods : list Z := map Z.of_nat (seq 12 349).

(** *** Magnitudes

    [at_least_pow2 k x]: [x] is the positive infinity, or a positive
    number whose mantissa's bit length plus its exponent is at least [k],
    that is a number of at least [2 ^ (k - 1)]. *)
Definition at_least_pow2 (k : Z) (x : spec_float) : Prop :=
  x = S754_infinity false \/
  exists (m : positive) (e : Z), x = S754_finite false m e /\ k <= Zdigits2 (Zpos m) + e.

End Py.

(** ** config.py *)

Module Config.

Definition MIN_LOAN_TERM_YEARS : Z := 1.
Definition MAX_LOAN_TERM_YEARS : Z := 30.
Definition MIN_INTEREST_RATE : float := 0.1.
Definition MAX_INTEREST_RATE : float := 30.

End Config.

(** ** bot.py *)

Module Bot.
Import Py Config.

#[local] Open Scope string_scope.

Definition nl : string := String (ascii_of_nat 10) EmptyString.

(** Conversation states ([range(4)] in the source) and what a handler
    returns to the conversation handler. *)
Inductive conv_state : Set := LOAN_AMOUNT | DOWN_PAYMENT | LOAN_TERM | INTEREST_RATE.

Inductive next_state : Set :=
| Goto (s : conv_state)
| END.

(** One session dict. Every session is created by [get_session] with the
    four keys below and no key is ever removed, so the dict is a record;
    [None] is Python's [None], and a set field holds a value of the only
    type the handlers store under that key. *)
Record session : Set := {
  loan_amount : option float;
  down_payment : option float;
  loan_term : option Z;
  interest_rate : option float;
}.

Definition empty_session : session :=
  {| loan_amount := None; down_payment := None; loan_term := None; interest_rate := None |}.

Definition set_loan_amount (v : float) (s : session) : session :=
  {| loan_amount := Some v; down_payment := down_payment s;
     loan_term := loan_term s; interest_rate := interest_rate s |}.

Definition set_down_payment (v : float) (s : session) : session :=
  {| loan_amount := loan_amount s; down_payment := Some v;
     loan_term := loan_term s; interest_rate := interest_rate s |}.

Definition set_loan_term (v : Z) (s : session) : session :=
  {| loan_amount := loan_amount s; down_payment := down_payment s;
     loan_term := Some v; interest_rate := interest_rate s |}.

Definition set_interest_rate (v : float) (s : session) : session :=
  {| loan_amount := loan_amount s; down_payment := down_payment s;
     loan_term := loan_term s; interest_rate := Some v |}.

(** [format_currency] *)
Definition format_currency (amount : float) : string :=
  replace_char "," " " (format_comma_0f amount) ++ " RUB".

(** [parse_number]: the [ValueError] of [float] is caught and becomes
    [None]. *)
Definition parse_number (text : string) : outcome (option float) :=
  let cleaned := remove_char " " (replace_char "," "." (strip text)) in
  match float_of_str cleaned with
  | Return f => Return (Some f)
  | Raise ValueError => Return None
  | Raise e => Raise e
  end.

(** The dict [calculate_monthly_payment] returns. *)
Record payment : Set := {
  principal : float;
  monthly_payment : float;
  total_payment : float;
  total_interest : float;
  months : Z;
}.

Section Calculator.
Context `{Libm}.

(** [calculate_monthly_payment], on arguments of the annotated types. The
    int operands [12], [100], [1] and [0] of the float arithmetic are
    written as the floats they convert to. *)
Definition calculate_monthly_payment
    (loan_amount down_payment : float) (years : Z) (annual_rate_percent : float)
  : outcome payment :=
  let principal := (loan_amount - down_payment)%float in
  let months := years * 12 in
  bind
    (if (annual_rate_percent =? 0)%float then
       float_truediv_int principal months
     else
       let monthly_rate := (annual_rate_percent / 12 / 100)%float in
       bind (float_pow (1 + monthly_rate) months) (fun growth =>
       bind (float_pow (1 + monthly_rate) months) (fun growth' =>
       float_truediv (principal * (monthly_rate * growth)) (growth' - 1))))
    (fun monthly_payment =>
  bind (float_mul_int monthly_payment months) (fun total_payment =>
  let total_interest := (total_payment - principal)%float in
  Return {| principal := principal;
            monthly_payment := monthly_payment;
            total_payment := total_payment;
            total_interest := total_interest;
            months := months |})).

End Calculator.

(** *** The session store *)

(** A function body that reads and updates the global [sessions] dict and
    may raise: updates made before an exception persist. *)
Definition action (A : Type) : Type :=
  gmap Z session -> gmap Z session * outcome A.

Definition ret {A : Type} (a : A) : action A := fun sessions => (sessions, Return a).

Definition lift {A : Type} (m : outcome A) : action A := fun sessions => (sessions, m).

Definition and_then {A B : Type} (m : action A) (k : A -> action B) : action B :=
  fun sessions =>
    match m sessions with
    | (sessions', Return a) => k a sessions'
    | (sessions', Raise e) => (sessions', Raise e)
    end.

Notation "'let*' x := m 'in' k" := (and_then m (fun x => k))
  (at level 10, x name, m at level 100, k at level 200).
Notation "'exec' m 'in' k" := (and_then m (fun _ => k))
  (at level 10, m at level 100, k at level 200).

(** [get_session] *)
Definition get_session (chat_id : Z) : action session :=
  fun sessions =>
    match sessions !! chat_id with
    | Some s => (sessions, Return s)
    | None => (<[chat_id := empty_session]> sessions, Return empty_session)
    end.

(** [clear_session] *)
Definition clear_session (chat_id : Z) : action unit :=
  fun sessions => (delete chat_id sessions, Return tt).

(** [session[key] = value] on the dict [get_session chat_id] returned: the
    dict is the one stored under [chat_id], so the store sees the update. *)
Definition setitem (chat_id : Z) (set : session -> session) : action unit :=
  fun sessions => (alter set chat_id sessions, Return tt).

(** *** Replies *)

Definition welcome_message : string :=
  "🏠 *Mortgage Calculator 2026 (Russia)*" ++ nl ++ nl ++
  "I will help you calculate your monthly mortgage payment." ++ nl ++
  "All data is stored only during this session and will be deleted afterwards." ++ nl ++ nl ++
  "*Step 1:* Enter the loan amount you want (in RUB):".

Definition help_text : string :=
  "🏠 *Mortgage Calculator Bot*" ++ nl ++ nl ++
  "This bot helps you calculate monthly mortgage payments." ++ nl ++ nl ++
  "*Commands:*" ++ nl ++
  "/start - Begin new calculation" ++ nl ++
  "/cancel - Cancel current calculation" ++ nl ++
  "/help - Show this help message" ++ nl ++ nl ++
  "*How to use:*" ++ nl ++
  "1. Send /start to begin" ++ nl ++
  "2. Enter the loan amount" ++ nl ++
  "3. Enter your down payment" ++ nl ++
  "4. Enter loan term in years" ++ nl ++
  "5. Enter interest rate" ++ nl ++
  "6. Get your calculation results!" ++ nl ++ nl ++
  "⚠️ All data is deleted after calculation is complete.".

Definition cancel_message : string :=
  "❌ Calculation cancelled. All data has been deleted." ++ nl ++ nl ++
  "Type /start to begin a new calculation.".

Definition unknown_message : string :=
  "👋 Hello! I'm a Mortgage Calculator Bot." ++ nl ++ nl ++
  "Type /start to begin calculating your mortgage payment," ++ nl ++
  "or /help for more information.".

Definition loan_amount_error : string :=
  "⚠️ Invalid input. Please enter a valid positive number." ++ nl ++ nl ++
  "Example: 5000000".

Definition loan_amount_accepted (amount : float) : string :=
  "✅ Loan amount: " ++ format_currency amount ++ nl ++ nl ++
  "*Step 2:* Enter your down payment/savings (in RUB):".

Definition down_payment_error : string :=
  "⚠️ Invalid input. Please enter a valid positive number (or 0 for no down payment)." ++ nl ++ nl ++
  "Example: 1000000".

Definition down_payment_too_large (amount loan_amount : float) : string :=
  "⚠️ Down payment (" ++ format_currency amount ++ ") cannot exceed or equal " ++
  "loan amount (" ++ format_currency loan_amount ++ ")." ++ nl ++
  "Please enter a smaller amount:".

Definition down_payment_accepted (amount : float) : string :=
  "✅ Down payment: " ++ format_currency amount ++ nl ++ nl ++
  "*Step 3:* Enter loan term in years (" ++ str_of_int MIN_LOAN_TERM_YEARS ++ "-" ++
  str_of_int MAX_LOAN_TERM_YEARS ++ "):".

Definition loan_term_error : string :=
  "⚠️ Please enter a number between " ++ str_of_int MIN_LOAN_TERM_YEARS ++ " and " ++
  str_of_int MAX_LOAN_TERM_YEARS ++ " years." ++ nl ++ nl ++
  "Example: 15".

Definition loan_term_accepted (years : Z) : string :=
  "✅ Loan term: " ++ str_of_int years ++ " years" ++ nl ++ nl ++
  "*Step 4:* Enter annual interest rate % " ++
  "(e.g., 12.5):".

(** The bounds are interpolated with [str]: [0.1] and [30.0]. *)
Definition interest_rate_error : string :=
  "⚠️ Please enter a rate between 0.1% and 30.0%." ++ nl ++ nl ++
  "Example: 12.5".

Definition results_message
    (loan_amount down_payment : float) (loan_term : Z) (rate : float) (result : payment)
  : string :=
  "📊 *CALCULATION RESULTS:*" ++ nl ++ nl ++
  "• Loan Amount: " ++ format_currency loan_amount ++ nl ++
  "• Down Payment: " ++ format_currency down_payment ++ nl ++
  "• Loan Principal: " ++ format_currency (principal result) ++ nl ++
  "• Loan Term: " ++ str_of_int loan_term ++ " years (" ++
  str_of_int (months result) ++ " months)" ++ nl ++
  "• Interest Rate: " ++ format_1f rate ++ "% per year" ++ nl ++ nl ++
  "💸 *Monthly Payment:* ~" ++ format_currency (monthly_payment result) ++ nl ++
  "💰 *Total Payment:* ~" ++ format_currency (total_payment result) ++ nl ++
  "💎 *Total Interest:* ~" ++ format_currency (total_interest result) ++ nl ++ nl ++
  "⚠️ _Note: This is an estimate. Actual terms may vary._" ++ nl ++
  "_All your data has been deleted from memory._" ++ nl ++ nl ++
  "Type /start for new calculation.".

(** *** Handlers

    The handlers on a new message: [update.message] is the message, so a
    handler is a function of [update.effective_chat.id] and of
    [update.message.text], and returns the text it replies with and the
    value it returns to the conversation handler. What the handlers do on
    an update without [update.message] is modelled in the section on the
    application below. *)

(** [start] *)
Definition start (chat_id : Z) : action (string * next_state) :=
  exec clear_session chat_id in
  exec get_session chat_id in
  ret (welcome_message, Goto LOAN_AMOUNT).

(** [cancel] *)
Definition cancel (chat_id : Z) : action (string * next_state) :=
  exec clear_session chat_id in
  ret (cancel_message, END).

(** [handle_loan_amount] *)
Definition handle_loan_amount (chat_id : Z) (text : string) : action (string * next_state) :=
  let* amount := lift (parse_number text) in
  match amount with
  | None => ret (loan_amount_error, Goto LOAN_AMOUNT)
  | Some amount =>
      if (amount <=? 0)%float then ret (loan_amount_error, Goto LOAN_AMOUNT)
      else
        exec get_session chat_id in
        exec setitem chat_id (set_loan_amount amount) in
        ret (loan_amount_accepted amount, Goto DOWN_PAYMENT)
  end.

(** [handle_down_payment]. The comparison [amount >= loan_amount] raises
    [TypeError] when the stored loan amount is [None]. *)
Definition handle_down_payment (chat_id : Z) (text : string) : action (string * next_state) :=
  let* amount := lift (parse_number text) in
  let* session := get_session chat_id in
  let loan_amount := loan_amount session in
  match amount with
  | None => ret (down_payment_error, Goto DOWN_PAYMENT)
  | Some amount =>
      if (amount <? 0)%float then ret (down_payment_error, Goto DOWN_PAYMENT)
      else
        match loan_amount with
        | None => lift (Raise TypeError)
        | Some loan_amount =>
            if (loan_amount <=? amount)%float then
              ret (down_payment_too_large amount loan_amount, Goto DOWN_PAYMENT)
            else
              exec setitem chat_id (set_down_payment amount) in
              ret (down_payment_accepted amount, Goto LOAN_TERM)
        end
  end.

(** [handle_loan_term]. The int bounds are compared with the float as the
    floats they convert to. *)
Definition handle_loan_term (chat_id : Z) (text : string) : action (string * next_state) :=
  let* years := lift (parse_number text) in
  match years with
  | None => ret (loan_term_error, Goto LOAN_TERM)
  | Some years =>
      if negb ((Z2F MIN_LOAN_TERM_YEARS <=? years)%float &&
               (years <=? Z2F MAX_LOAN_TERM_YEARS)%float)
      then ret (loan_term_error, Goto LOAN_TERM)
      else
        exec get_session chat_id in
        let* n := lift (int_of_float years) in
        exec setitem chat_id (set_loan_term n) in
        let* n' := lift (int_of_float years) in
        ret (loan_term_accepted n', Goto INTEREST_RATE)
  end.

Section Handlers.
Context `{Libm}.

(** [handle_interest_rate]. The session's fields are passed as they are;
    the first arithmetic operation of the calculator on a [None] raises
    [TypeError]. *)
Definition handle_interest_rate (chat_id : Z) (text : string) : action (string * next_state) :=
  let* rate := lift (parse_number text) in
  match rate with
  | None => ret (interest_rate_error, Goto INTEREST_RATE)
  | Some rate =>
      if negb ((MIN_INTEREST_RATE <=? rate)%float && (rate <=? MAX_INTEREST_RATE)%float)
      then ret (interest_rate_error, Goto INTEREST_RATE)
      else
        let* session := get_session chat_id in
        exec setitem chat_id (set_interest_rate rate) in
        match loan_amount session, down_payment session, loan_term session with
        | Some loan_amount, Some down_payment, Some loan_term =>
            let* result :=
              lift (calculate_monthly_payment loan_amount down_payment loan_term rate) in
            let message := results_message loan_amount down_payment loan_term rate result in
            exec clear_session chat_id in
            ret (message, END)
        | _, _, _ => lift (Raise TypeError)
        end
  end.

(** *** The conversation handler in a private chat

    What a message holds: a command or a text that is not a command. A
    command is given by its name as the command handlers compare it:
    without the slash, the bot suffix and the arguments, in lower case. *)
Inductive update : Set :=
| Command (name : string)
| Message (text : string).

(** The bot in private chats that send new messages only: the sessions,
    and the state the conversation handler keeps for each chat that is in
    a conversation. A private chat has one user, whose id is the chat id,
    so here the states are keyed by the chat id like [sessions]. The bot
    in chats of several users, and on edited messages, is [application]
    below. *)
Record bot : Type := {
  sessions : gmap Z session;
  conversations : gmap Z conv_state;
}.

Definition initial : bot := {| sessions := ∅; conversations := ∅ |}.

(** What an update produced: the reply sent, if any, and the exception a
    handler raised, if any. *)
Record turn : Type := {
  after : bot;
  reply : option string;
  error : option exn;
}.

(** The handler [conv_handler] selects: an entry point when the chat is in
    no conversation, the handler of the current state for a text message,
    a fallback for a command. *)
Definition conv_handler (state : option conv_state) (u : update)
  : option (Z -> action (string * next_state)) :=
  match state, u with
  | None, Command name => if String.eqb name "start" then Some start else None
  | None, Message _ => None
  | Some LOAN_AMOUNT, Message text => Some (fun chat_id => handle_loan_amount chat_id text)
  | Some DOWN_PAYMENT, Message text => Some (fun chat_id => handle_down_payment chat_id text)
  | Some LOAN_TERM, Message text => Some (fun chat_id => handle_loan_term chat_id text)
  | Some INTEREST_RATE, Message text => Some (fun chat_id => handle_interest_rate chat_id text)
  | Some _, Command name =>
      if String.eqb name "cancel" then Some cancel
      else if String.eqb name "start" then Some start
      else None
  end.

(** The handlers registered after [conv_handler]: [help_command] for
    [/help], [handle_unknown] for a text message. *)
Definition other_handlers (u : update) : option string :=
  match u with
  | Command name => if String.eqb name "help" then Some help_text else None
  | Message _ => Some unknown_message
  end.

(** One new message of the private chat [chat_id], as [main] wires the
    handlers: the first handler that accepts the update runs. The
    conversation state changes only when the handler returns. *)
Definition process_update (b : bot) (chat_id : Z) (u : update) : turn :=
  match conv_handler (conversations b !! chat_id) u with
  | Some handler =>
      match handler chat_id (sessions b) with
      | (sessions', Return (text, next)) =>
          {| after :=
               {| sessions := sessions';
                  conversations :=
                    match next with
                    | Goto s => <[chat_id := s]> (conversations b)
                    | END => delete chat_id (conversations b)
                    end |};
             reply := Some text;
             error := None |}
      | (sessions', Raise e) =>
          {| after := {| sessions := sessions'; conversations := conversations b |};
             reply := None;
             error := Some e |}
      end
  | None => {| after := b; reply := other_handlers u; error := None |}
  end.

(** A run: updates processed one after the other, each with its chat. *)
Fixpoint run (b : bot) (updates : list (Z * update)) : bot :=
  match updates with
  | [] => b
  | (chat_id, u) :: rest => run (after (process_update b chat_id u)) rest
  end.

(** The bots that some sequence of updates produces from the start of the
    process. *)
Definition reachable (b : bot) : Prop := exists updates, b = run initial updates.

(** *** The application

    [main] registers the handlers for every chat the bot takes part in,
    and builds them with their default settings.

    - [ConversationHandler] keeps one state for each pair of a chat and a
      user ([per_chat] and [per_user]), while [sessions] has one entry
      for each chat.
    - The command handlers and the text handlers accept a new message and
      the edit of an earlier one. For an edited message [update.message]
      is [None] (the message is [update.edited_message]), while
      [update.effective_chat], [update.effective_user] and the filters
      see the edited message.

    An update as the handlers receive it: the ids of
    [update.effective_chat] and [update.effective_user], whether the
    message is an edited one, and what the message holds. The other
    updates without [update.message] (a channel post, for one) are not
    modelled: the command handlers do not accept them, and a text handler
    raises on them as on an edited text, before it reads or changes the
    store. *)
Record incoming : Set := {
  chat : Z;
  user : Z;
  edited : bool;
  content : update;
}.

Definition message_from (chat_id user_id : Z) (u : update) : incoming :=
  {| chat := chat_id; user := user_id; edited := false; content := u |}.

Definition edit_from (chat_id user_id : Z) (u : update) : incoming :=
  {| chat := chat_id; user := user_id; edited := true; content := u |}.

(** Reading an attribute of [update.message] ([text] or [reply_text]):
    [AttributeError] when [update.message] is [None]. *)
Definition message_attribute (u : incoming) : action unit :=
  lift (if edited u then Raise AttributeError else Return tt).

(** The handlers as functions of the update. [start] and [cancel] change
    the store before they reach [update.message.reply_text]; a step
    handler reads [update.message.text] before anything else. *)
Definition start_update (u : incoming) : action (string * next_state) :=
  exec clear_session (chat u) in
  exec get_session (chat u) in
  exec message_attribute u in
  ret (welcome_message, Goto LOAN_AMOUNT).

Definition cancel_update (u : incoming) : action (string * next_state) :=
  exec clear_session (chat u) in
  exec message_attribute u in
  ret (cancel_message, END).

Definition step_update (handler : Z -> string -> action (string * next_state))
    (u : incoming) (text : string) : action (string * next_state) :=
  exec message_attribute u in
  handler (chat u) text.

(** [help_command] and [handle_unknown] only reply. *)
Definition reply_update (text : string) (u : incoming) : action string :=
  exec message_attribute u in
  ret text.

(** The bot between two updates: the sessions of the chats, and the state
    of the conversation of each user in each chat. *)
Record application : Type := {
  store : gmap Z session;
  states : gmap (Z * Z) conv_state;
}.

Definition started : application := {| store := ∅; states := ∅ |}.

(** What an update produced. *)
Record handled : Type := {
  state_after : application;
  sent : option string;
  raised : option exn;
}.

(** The handler [conv_handler] selects for an update, given the state of
    the conversation of its user in its chat. *)
Definition conv_handler_update (state : option conv_state) (u : incoming)
  : option (action (string * next_state)) :=
  match state, content u with
  | None, Command name => if String.eqb name "start" then Some (start_update u) else None
  | None, Message _ => None
  | Some LOAN_AMOUNT, Message text => Some (step_update handle_loan_amount u text)
  | Some DOWN_PAYMENT, Message text => Some (step_update handle_down_payment u text)
  | Some LOAN_TERM, Message text => Some (step_update handle_loan_term u text)
  | Some INTEREST_RATE, Message text => Some (step_update handle_interest_rate u text)
  | Some _, Command name =>
      if String.eqb name "cancel" then Some (cancel_update u)
      else if String.eqb name "start" then Some (start_update u)
      else None
  end.

(** One update: the first handler that accepts it runs; the state of the
    conversation changes only when the handler returns, and what a handler
    did to the store before it raised stays. *)
Definition dispatch (w : application) (u : incoming) : handled :=
  let key := (chat u, user u) in
  match conv_handler_update (states w !! key) u with
  | Some handler =>
      match handler (store w) with
      | (store', Return (text, next)) =>
          {| state_after :=
               {| store := store';
                  states :=
                    match next with
                    | Goto s => <[key := s]> (states w)
                    | END => delete key (states w)
                    end |};
             sent := Some text;
             raised := None |}
      | (store', Raise e) =>
          {| state_after := {| store := store'; states := states w |};
             sent := None;
             raised := Some e |}
      end
  | None =>
      match other_handlers (content u) with
      | Some text =>
          match reply_update text u (store w) with
          | (store', Return text') =>
              {| state_after := {| store := store'; states := states w |};
                 sent := Some text';
                 raised := None |}
          | (store', Raise e) =>
              {| state_after := {| store := store'; states := states w |};
                 sent := None;
                 raised := Some e |}
          end
      | None => {| state_after := w; sent := None; raised := None |}
      end
  end.

Fixpoint serve (w : application) (updates : list incoming) : application :=
  match updates with
  | [] => w
  | u :: rest => serve (state_after (dispatch w u)) rest
  end.

(** The states of the application that some sequence of updates produces
    from the start of the process. *)
Definition served (w : application) : Prop := exists updates, w = serve started updates.

(** The bot of private chats as an application, and a new message of the
    private chat [fst cu] as an update of the application. *)
Definition private_chats (b : bot) : application :=
  {| store := sessions b; states := kmap (fun c : Z => (c, c)) (conversations b) |}.

Definition private_update (cu : Z * update) : incoming :=
  message_from (fst cu) (fst cu) (snd cu).

End Handlers.

(** The scenario of the specification, up to the rate prompt: chat 7
    starts, gives a loan amount, a down payment that is too large, a valid
    one, and a term. *)
Definition scenario : list (Z * update) :=
  [(7, Command "start"); (7, Message "5000000"); (7, Message "6000000");
   (7, Message "1000000"); (7, Message "15")].

Definition scenario_bot : bot := @run reference_libm initial scenario.

(** The updates of one chat, out of an interleaving. *)
Definition updates_of (chat_id : Z) (updates : list (Z * update)) : list (Z * update) :=
  List.filter (fun cu => bool_decide (fst cu = chat_id)) updates.

(** A whole conversation of one chat: [/start] and the four answers. *)
Definition conversation (chat_id : Z) (amount down term rate : string)
  : list (Z * update) :=
  [(chat_id, Command "start"); (chat_id, Message amount); (chat_id, Message down);
   (chat_id, Message term); (chat_id, Message rate)].

(** Whether one of the updates is a [/start] of the chat. *)
Definition sends_start (chat_id : Z) (updates : list (Z * update)) : bool :=
  existsb (fun cu =>
             match snd cu with
             | Command name => bool_decide (fst cu = chat_id) && String.eqb name "start"
             | Message _ => false
             end) updates.

(** The text messages of a chat, as updates. *)
Definition answers (chat_id : Z) (texts : list string) : list (Z * update) :=
  map (fun text => (chat_id, Message text)) texts.

(** The scenario as updates of the application, in the private chat 7;
    the edit of its [/start] message; and the application at the rate
    prompt of the scenario. *)
Definition scenario_updates : list incoming := map private_update scenario.

Definition edited_start : incoming := edit_from 7 7 (Command "start").

Definition scenario_application : application :=
  @serve reference_libm started scenario_updates.

(** A chat with two users, 1 and 2. User 1 starts and gives a loan amount
    and a down payment, user 2 starts, and user 1 gives a term. *)
Definition shared_chat : list incoming :=
  [message_from 7 1 (Command "start"); message_from 7 1 (Message "5000000");
   message_from 7 1 (Message "1000000"); message_from 7 2 (Command "start");
   message_from 7 1 (Message "15")].

(** User 1 starts and gives a loan amount; user 2 of the same chat starts
    and gives another. *)
Definition first_user : list incoming :=
  [message_from 7 1 (Command "start"); message_from 7 1 (Message "5000000")].

Definition second_user : list incoming :=
  [message_from 7 2 (Command "start"); message_from 7 2 (Message "100")].


(** *** Vocabulary of the specification *)

(** The position of a step in the conversation, and of the field it
    collects in the session. *)
Definition position (st : conv_state) : nat :=
  match st with
  | LOAN_AMOUNT => 0
  | DOWN_PAYMENT => 1
  | LOAN_TERM => 2
  | INTEREST_RATE => 3
  end.

Definition is_set {A : Type} (field : option A) : bool :=
  match field with Some _ => true | None => false end.

Definition field_is_set (i : nat) (s : session) : bool :=
  match i with
  | 0%nat => is_set (loan_amount s)
  | 1%nat => is_set (down_payment s)
  | 2%nat => is_set (loan_term s)
  | _ => is_set (interest_rate s)
  end.

(** The session of a chat whose conversation is at step [st]: the fields
    of the earlier steps hold values their handlers let through, the
    others are unset. *)
Definition collected (st : conv_state) (s : session) : Prop :=
  match st with
  | LOAN_AMOUNT => s = empty_session
  | DOWN_PAYMENT =>
      exists a : float,
        (s = set_loan_amount a empty_session) /\ ((a <=? 0)%float = false)
  | LOAN_TERM =>
      exists a d : float,
        (s = set_down_payment d (set_loan_amount a empty_session)) /\
        ((a <=? 0)%float = false) /\ ((d <? 0)%float = false) /\
        ((a <=? d)%float = false)
  | INTEREST_RATE =>
      exists (a d : float) (y : Z),
        (s = set_loan_term y (set_down_payment d (set_loan_amount a empty_session))) /\
        ((a <=? 0)%float = false) /\ ((d <? 0)%float = false) /\
        ((a <=? d)%float = false) /\
        (MIN_LOAN_TERM_YEARS <= y <= MAX_LOAN_TERM_YEARS)
  end.

(** A chat has a session exactly while it is in a conversation, and the
    session holds what the steps before the current one collected. *)
Definition consistent (b : bot) : Prop :=
  forall chat_id : Z,
    match conversations b !! chat_id with
    | None => sessions b !! chat_id = None
    | Some st => exists s, sessions b !! chat_id = Some s /\ collected st s
    end.

(** An action that reads and writes the store only at the entry of one
    chat: the other entries are left as they are, and what the action
    returns and leaves in that entry depends on that entry alone. *)
Definition acts_on {A : Type} (chat_id : Z) (a : action A) : Prop :=
  forall sessions : gmap Z session,
    (forall other : Z, other <> chat_id -> fst (a sessions) !! other = sessions !! other) /\
    (forall sessions' : gmap Z session,
       sessions' !! chat_id = sessions !! chat_id ->
       snd (a sessions') = snd (a sessions) /\
       fst (a sessions') !! chat_id = fst (a sessions) !! chat_id).

(** The decimal separators (points and commas) of a text, counted, and
    the texts made of white space only. *)
Definition is_point (c : ascii) : bool := Ascii.eqb c ".".

Definition decimal_points (text : string) : nat :=
  length (List.filter (fun c => is_point c || Ascii.eqb c ",") (list_ascii_of_string text)).

Definition all_space (text : string) : bool :=
  forallb is_space (list_ascii_of_string text).

(** A handler re-prompts the step [st] when it returns [st] as the next
    state. *)
Definition reprompts (st : conv_state) (r : outcome (string * next_state)) : bool :=
  match r, st with
  | Return (_, Goto LOAN_AMOUNT), LOAN_AMOUNT
  | Return (_, Goto DOWN_PAYMENT), DOWN_PAYMENT
  | Return (_, Goto LOAN_TERM), LOAN_TERM
  | Return (_, Goto INTEREST_RATE), INTEREST_RATE => true
  | _, _ => false
  end.

(** The failure conditions of the four steps, in the words of the
    specification: the text is no number (parse failure); the number is
    outside the range of the step (range violation), which for a loan
    amount is the numbers greater than 0, for a down payment those that
    are at least 0, for a term and a rate the configured range; or the
    down payment is not strictly below the stored loan amount. *)
Definition loan_amount_fails (amount : option float) : Prop :=
  amount = None \/ exists a, amount = Some a /\ (0 <? a)%float = false.

Definition down_payment_fails (s : session) (amount : option float) : Prop :=
  amount = None \/
  exists a, amount = Some a /\
    ((0 <=? a)%float = false \/
     exists l, loan_amount s = Some l /\ (a <? l)%float = false).

Definition loan_term_fails (years : option float) : Prop :=
  years = None \/
  exists y, years = Some y /\
    ((Z2F MIN_LOAN_TERM_YEARS <=? y)%float && (y <=? Z2F MAX_LOAN_TERM_YEARS)%float) = false.

Definition interest_rate_fails (rate : option float) : Prop :=
  rate = None \/
  exists r, rate = Some r /\
    ((MIN_INTEREST_RATE <=? r)%float && (r <=? MAX_INTEREST_RATE)%float) = false.

(** A parsed text or a stored field that is not the float NaN. *)
Definition not_nan (amount : option float) : Prop :=
  forall a : float, amount = Some a -> is_nan a = false.

(** The sessions of a store hold terms in the configured range. *)
Definition terms_in_range (ss : gmap Z session) : Prop :=
  forall (chat_id : Z) (s : session) (y : Z),
    ss !! chat_id = Some s -> loan_term s = Some y ->
    MIN_LOAN_TERM_YEARS <= y <= MAX_LOAN_TERM_YEARS.

(** The three fields the rate handler reads are set. *)
Definition all_set (s : session) : bool :=
  is_set (loan_amount s) && is_set (down_payment s) && is_set (loan_term s).

(** The fields of the steps before [st] are set. *)
Definition fields_before (st : conv_state) (s : session) : bool :=
  match st with
  | LOAN_AMOUNT => true
  | DOWN_PAYMENT => is_set (loan_amount s)
  | LOAN_TERM => is_set (loan_amount s) && is_set (down_payment s)
  | INTEREST_RATE => all_set s
  end.


(** A text with a decimal digit in it. *)
Definition has_digit (text : string) : bool :=
  existsb is_digit (list_ascii_of_string text).

(** What a handler leaves behind when it returns: the session its next
    state calls for. *)
Definition leaves (chat_id : Z) (r : gmap Z session * outcome (string * next_state)) : Prop :=
  exists (text : string) (next : next_state),
    snd r = Return (text, next) /\
    match next with
    | Goto st => exists s, fst r !! chat_id = Some s /\ collected st s
    | END => fst r !! chat_id = None
    end.

(** The points of a list of characters, counted, and the text [float]
    receives from [parse_number]. *)
Abbreviation chars := list_ascii_of_string.

Definition points (l : list ascii) : nat := length (List.filter is_point l).

Definition cleaned (text : string) : string :=
  remove_char " " (replace_char "," "." (strip text)).

End Bot.

(** ** Facts about binary64 arithmetic

    Derived from the specification of the primitive operations
    ([SpecFloat], [FloatAxioms]). *)

Module Binary64.
Import Py.

(** Digits *)
Lemma digits2_pos_bounds (p : positive) :
  2 ^ (Zpos (digits2_pos p) - 1) <= Zpos p < 2 ^ Zpos (digits2_pos p).
Proof.
  induction p as [p IH | p IH |]; cbn [digits2_pos].
  - rewrite Pos2Z.inj_succ.
    replace (Z.succ (Zpos (digits2_pos p)) - 1) with (Z.succ (Zpos (digits2_pos p) - 1)) by lia.
    rewrite !Z.pow_succ_r by lia. lia.
  - rewrite Pos2Z.inj_succ.
    replace (Z.succ (Zpos (digits2_pos p)) - 1) with (Z.succ (Zpos (digits2_pos p) - 1)) by lia.
    rewrite !Z.pow_succ_r by lia. lia.
  - cbn. lia.
Qed.

Lemma Zdigits2_bounds (m : Z) :
  0 < m -> 2 ^ (Zdigits2 m - 1) <= m < 2 ^ Zdigits2 m.
Proof.
  destruct m as [| p | p]; try lia. intros _. apply digits2_pos_bounds.
Qed.

Lemma Zdigits2_unique (m d : Z) :
  0 < m -> 2 ^ (d - 1) <= m < 2 ^ d -> Zdigits2 m = d.
Proof.
  intros Hm [Hlo Hhi].
  pose proof (Zdigits2_bounds m Hm) as [Hlo' Hhi'].
  assert (0 < Zdigits2 m) by (destruct m; cbn; lia).
  assert (0 < d).
  { destruct (Z.lt_trichotomy d 0) as [Hd | [Hd | Hd]]; auto.
    - rewrite Z.pow_neg_r in Hhi by lia. lia.
    - subst d. cbn in Hhi. lia. }
  destruct (Z.lt_trichotomy (Zdigits2 m) d) as [Hlt | [Heq | Hgt]]; auto.
  - assert (2 ^ Zdigits2 m <= 2 ^ (d - 1)) by (apply Z.pow_le_mono_r; lia). lia.
  - assert (2 ^ d <= 2 ^ (Zdigits2 m - 1)) by (apply Z.pow_le_mono_r; lia). lia.
Qed.

(** Shifts *)
Lemma shr_1_m (mrs : shr_record) :
  0 <= shr_m mrs -> shr_m (shr_1 mrs) = shr_m mrs / 2.
Proof.
  destruct mrs as [m r s]; cbn [shr_m shr_1]. intros Hm.
  destruct m as [| [p | p |] | p]; cbn [shr_m]; try lia.
  - reflexivity.
  - apply (Z.div_unique _ 2 _ 1); lia.
  - apply (Z.div_unique _ 2 _ 0); lia.
  - reflexivity.
Qed.

Lemma iter_shr_1_m (p : positive) (mrs : shr_record) :
  0 <= shr_m mrs -> shr_m (SpecFloat.iter_pos shr_1 p mrs) = shr_m mrs / 2 ^ Zpos p.
Proof.
  revert mrs. induction p as [p IH | p IH |]; intros mrs Hm; cbn [SpecFloat.iter_pos].
  - assert (H1 : 0 <= shr_m (shr_1 mrs)) by (rewrite shr_1_m by auto; apply Z.div_pos; lia).
    assert (H2 : 0 <= shr_m (SpecFloat.iter_pos shr_1 p (shr_1 mrs)))
      by (rewrite IH by auto; apply Z.div_pos; lia).
    rewrite IH, IH, shr_1_m by auto.
    rewrite !Z.div_div by lia.
    f_equal. replace (Zpos p~1) with (1 + Zpos p + Zpos p) by lia.
    rewrite !Z.pow_add_r by lia. lia.
  - assert (H2 : 0 <= shr_m (SpecFloat.iter_pos shr_1 p mrs))
      by (rewrite IH by auto; apply Z.div_pos; lia).
    rewrite IH, IH by auto.
    rewrite !Z.div_div by lia.
    f_equal. replace (Zpos p~0) with (Zpos p + Zpos p) by lia.
    rewrite !Z.pow_add_r by lia. lia.
  - rewrite shr_1_m by auto. reflexivity.
Qed.

Lemma shr_record_of_loc_m (m : Z) (l : location) : shr_m (shr_record_of_loc m l) = m.
Proof. destruct l as [| []]; reflexivity. Qed.

(** [shr] divides a non-negative mantissa by a power of two. *)
Lemma shr_m_div (mrs : shr_record) (e n : Z) :
  0 <= shr_m mrs -> 0 <= n ->
  shr_m (fst (shr mrs e n)) = shr_m mrs / 2 ^ n /\ snd (shr mrs e n) = e + n.
Proof.
  intros Hm Hn. destruct n as [| p | p]; cbn [shr fst snd]; try lia.
  - rewrite Z.div_1_r. lia.
  - rewrite iter_shr_1_m by auto. lia.
Qed.


Lemma fexp_normal (e : Z) : emin + 53 <= e -> fexp prec emax e = e - 53.
Proof. unfold fexp, SpecFloat.emin, prec, emax. lia. Qed.

Lemma round_nearest_even_cases (m : Z) (l : location) :
  round_nearest_even m l = m \/ round_nearest_even m l = m + 1.
Proof.
  destruct l as [| []]; cbn; auto. destruct (Z.even m); auto.
Qed.

(** Rounding a mantissa of at least 53 digits whose rounded exponent is in
    the normal range: the result has the truncated mantissa or its
    successor, and an exponent one higher when that successor carries. *)
Lemma binary_round_aux_normal (s : bool) (mx ex : Z) (lx : location) :
  0 < mx ->
  53 <= Zdigits2 mx ->
  emin <= ex + Zdigits2 mx - 53 ->
  exists (m : positive) (e : Z),
    binary_round_aux prec emax s mx ex lx =
      (if e <=? 971 then S754_finite s m e else S754_infinity s) /\
    2 ^ 52 <= Zpos m < 2 ^ 53 /\
    ((e = ex + Zdigits2 mx - 53 /\
      mx / 2 ^ (Zdigits2 mx - 53) <= Zpos m <= mx / 2 ^ (Zdigits2 mx - 53) + 1) \/
     (e = ex + Zdigits2 mx - 52 /\ Zpos m = 2 ^ 52 /\
      mx / 2 ^ (Zdigits2 mx - 53) = 2 ^ 53 - 1)).
Proof.
  intros Hmx Hd He.
  set (d := Zdigits2 mx) in *.
  set (k := d - 53).
  set (t := mx / 2 ^ k).
  pose proof (Zdigits2_bounds mx Hmx) as [Hlo Hhi]. fold d in Hlo, Hhi.
  assert (Hk : 0 <= k) by (unfold k; lia).
  assert (Hpk : 0 < 2 ^ k) by (apply Z.pow_pos_nonneg; lia).
  assert (Ht : 2 ^ 52 <= t < 2 ^ 53).
  { unfold t. split.
    - apply Z.div_le_lower_bound; [lia|].
      rewrite <- Z.pow_add_r by lia. replace (k + 52) with (d - 1) by (unfold k; lia). exact Hlo.
    - apply Z.div_lt_upper_bound; [lia|].
      rewrite <- Z.pow_add_r by lia. replace (k + 53) with d by (unfold k; lia). exact Hhi. }
  unfold binary_round_aux.
  (* first shift *)
  unfold shr_fexp at 1. fold d.
  rewrite fexp_normal by lia.
  replace (d + ex - 53 - ex) with k by (unfold k; lia).
  pose proof (shr_m_div (shr_record_of_loc mx lx) ex k) as Hs.
  rewrite shr_record_of_loc_m in Hs. specialize (Hs ltac:(lia) Hk).
  destruct (shr (shr_record_of_loc mx lx) ex k) as [mrs' e'] eqn:E1.
  cbn [fst snd] in Hs. destruct Hs as [Hm' He']. fold t in Hm'.
  set (r := round_nearest_even (shr_m mrs') (loc_of_shr_record mrs')).
  assert (Hr : r = t \/ r = t + 1).
  { unfold r. rewrite <- Hm'. apply round_nearest_even_cases. }
  (* second shift *)
  unfold shr_fexp.
  destruct (Z.eq_dec r (2 ^ 53)) as [Hc | Hc].
  - (* carry *)
    assert (Hdr : Zdigits2 r = 54) by (apply Zdigits2_unique; rewrite Hc; cbn; lia).
    rewrite Hdr. rewrite fexp_normal by lia.
    replace (54 + e' - 53 - e') with 1 by lia.
    cbn [shr shr_record_of_loc SpecFloat.iter_pos].
    rewrite Hc. cbn [shr_1 shr_m Z.pow Z.pow_pos Pos.iter Z.mul Pos.mul]. 
    exists (4503599627370496%positive), (e' + 1). 
    split; [reflexivity|]. split; [cbn; lia|]. right. 
    repeat split; try lia.
  - assert (Hr' : 2 ^ 52 <= r < 2 ^ 53) by lia.
    assert (Hdr : Zdigits2 r = 53) by (apply Zdigits2_unique; cbn in *; lia).
    rewrite Hdr. rewrite fexp_normal by lia.
    replace (53 + e' - 53 - e') with 0 by lia.
    cbn [shr shr_record_of_loc shr_m].
    destruct r as [| pr | pr] eqn:Er; try (cbn in Hr'; lia).
    exists pr, e'. split; [reflexivity|]. split; [exact Hr'|]. left.
    split; [lia|]. fold k t. lia.
Qed.


(** Valid finite floats above the subnormal range have 53-digit mantissas. *)
Lemma valid_finite_normal (s : bool) (m : positive) (e : Z) :
  valid_binary (S754_finite s m e) = true -> emin < e ->
  2 ^ 52 <= Zpos m < 2 ^ 53 /\ e <= 971.
Proof.
  cbn [SpecFloat.valid_binary]. unfold bounded, canonical_mantissa.
  intros Hv He. apply andb_prop in Hv as [Hc Hb].
  apply Z.eqb_eq in Hc. apply Z.leb_le in Hb.
  unfold fexp, SpecFloat.emin, prec, emax in *.
  assert (Hd : Zpos (digits2_pos m) = 53) by lia.
  pose proof (digits2_pos_bounds m) as Hm. rewrite Hd in Hm. cbn in Hm. cbn. lia.
Qed.

Lemma normal_valid (s : bool) (m : positive) (e : Z) :
  2 ^ 52 <= Zpos m < 2 ^ 53 -> emin <= e <= 971 ->
  valid_binary (S754_finite s m e) = true.
Proof.
  intros Hm He. cbn [SpecFloat.valid_binary]. unfold bounded, canonical_mantissa.
  assert (Hd : Zdigits2 (Zpos m) = 53) by (apply Zdigits2_unique; cbn in *; lia).
  cbn [Zdigits2] in Hd. rewrite Hd.
  apply andb_true_intro. split.
  - apply Z.eqb_eq. unfold fexp, SpecFloat.emin, prec, emax. lia.
  - apply Z.leb_le. unfold prec, emax. lia.
Qed.

Lemma iter_xO (m d : positive) : Zpos (Pos.iter xO m d) = Zpos m * 2 ^ Zpos d.
Proof.
  induction d as [| d IH] using Pos.peano_ind.
  - cbn. lia.
  - rewrite Pos.iter_succ, Pos2Z.inj_xO, IH, Pos2Z.inj_succ, Z.pow_succ_r by lia. lia.
Qed.

(** [shl_align] leaves the value unchanged. *)
Lemma shl_align_spec (m : positive) (e e' : Z) :
  let '(m', e'') := shl_align m e e' in
  (e' < e -> e'' = e' /\ Zpos m' = Zpos m * 2 ^ (e - e')) /\
  (e <= e' -> e'' = e /\ m' = m).
Proof.
  unfold shl_align. destruct (e' - e) as [| d | d] eqn:E.
  - split; intros; [lia | auto].
  - split; intros; [lia | auto].
  - split; intros; [| lia]. split; auto.
    rewrite iter_xO. f_equal. f_equal. lia.
Qed.

(** Rounding a positive integer times a power of two, in the normal range:
    the result is a normal number or an overflow, never zero. *)
Lemma binary_round_normal (s : bool) (p : positive) (ex : Z) :
  emin + 53 <= Zdigits2 (Zpos p) + ex ->
  exists (m : positive) (e : Z),
    binary_round prec emax s p ex =
      (if e <=? 971 then S754_finite s m e else S754_infinity s) /\
    2 ^ 52 <= Zpos m < 2 ^ 53.
Proof.
  intros He. unfold binary_round.
  change (Zpos (digits2_pos p)) with (Zdigits2 (Zpos p)).
  set (D := Zdigits2 (Zpos p)) in *.
  pose proof (Zdigits2_bounds (Zpos p) ltac:(lia)) as HD. fold D in HD.
  assert (0 < D) by (unfold D; cbn; lia).
  rewrite fexp_normal by lia.
  pose proof (shl_align_spec p ex (D + ex - 53)) as Hs.
  destruct (shl_align p ex (D + ex - 53)) as [mz ez]. destruct Hs as [Hs1 Hs2].
  destruct (Z_lt_le_dec (D + ex - 53) ex) as [Hlt | Hge].
  - destruct (Hs1 Hlt) as [-> Hmz].
    assert (Hdz : Zdigits2 (Zpos mz) = 53).
    { apply Zdigits2_unique; [lia|]. rewrite Hmz.
      replace (ex - (D + ex - 53)) with (53 - D) by lia.
      replace (2 ^ (53 - 1)) with (2 ^ (D - 1) * 2 ^ (53 - D))
        by (rewrite <- Z.pow_add_r by lia; f_equal; lia).
      replace (2 ^ 53) with (2 ^ D * 2 ^ (53 - D))
        by (rewrite <- Z.pow_add_r by lia; f_equal; lia).
      assert (0 < 2 ^ (53 - D)) by (apply Z.pow_pos_nonneg; lia). nia. }
    destruct (binary_round_aux_normal s (Zpos mz) (D + ex - 53) loc_Exact)
      as (m & e & Hr & Hm & _); [lia | lia | lia |].
    exists m, e. auto.
  - destruct (Hs2 Hge) as [-> ->].
    destruct (binary_round_aux_normal s (Zpos p) ex loc_Exact)
      as (m & e & Hr & Hm & _); fold D; [lia | lia | lia |].
    exists m, e. auto.
Qed.

Lemma binary_round_no_shift (s : bool) (p : positive) (ex : Z) :
  53 <= Zdigits2 (Zpos p) -> emin <= ex + Zdigits2 (Zpos p) - 53 ->
  binary_round prec emax s p ex = binary_round_aux prec emax s (Zpos p) ex loc_Exact.
Proof.
  intros Hd He. unfold binary_round.
  change (Zpos (digits2_pos p)) with (Zdigits2 (Zpos p)).
  rewrite fexp_normal by lia.
  pose proof (shl_align_spec p ex (Zdigits2 (Zpos p) + ex - 53)) as Hs.
  destruct (shl_align p ex _) as [mz ez]. destruct Hs as [_ Hs].
  destruct Hs as [-> ->]; [lia | reflexivity].
Qed.

(** *** Comparisons *)


Lemma Prim2SF_one : Prim2SF 1 = one_SF.
Proof. reflexivity. Qed.

Lemma Prim2SF_zero : Prim2SF 0 = S754_zero false.
Proof. reflexivity. Qed.

Lemma Prim2SF_infinity : Prim2SF infinity = S754_infinity false.
Proof. reflexivity. Qed.

(** A float between two positive normal numbers is a positive normal
    number, and its exponent and mantissa are between theirs. *)
Lemma between_normal (x lo hi : float) (m1 m2 : positive) (e1 e2 : Z) :
  Prim2SF lo = S754_finite false m1 e1 ->
  Prim2SF hi = S754_finite false m2 e2 ->
  emin < e1 ->
  (lo <=? x)%float = true -> (x <=? hi)%float = true ->
  exists (m : positive) (e : Z),
    Prim2SF x = S754_finite false m e /\
    2 ^ 52 <= Zpos m < 2 ^ 53 /\
    e1 <= e <= e2 /\
    (e = e1 -> Zpos m1 <= Zpos m) /\
    (e = e2 -> Zpos m <= Zpos m2).
Proof.
  intros Hlo Hhi He1. rewrite !FloatAxioms.leb_spec, Hlo, Hhi.
  pose proof (Prim2SF_valid x) as Hv.
  destruct (Prim2SF x) as [sx | sx | | sx m e]; unfold SFleb, SFcompare;
    try discriminate.
  - destruct sx; discriminate.
  - destruct sx; [discriminate|].
    destruct (e1 ?= e) eqn:C1; try discriminate;
    destruct (e ?= e2) eqn:C2; try discriminate; intros H1 H2;
    try apply Z.compare_eq in C1; try apply Z.compare_eq in C2;
    rewrite ?Z.compare_lt_iff in *;
    (destruct (valid_finite_normal false m e Hv) as [Hm _]; [lia|]);
    exists m, e; (split; [reflexivity|]); (split; [exact Hm|]); (split; [lia|]);
    (split; intros Heq; try lia).
    all: fold (Pos.compare m1 m) in *; fold (Pos.compare m m2) in *.
    all: try (destruct (m1 ?= m)%positive eqn:C; try discriminate;
              rewrite ?Pos.compare_eq_iff, ?Pos.compare_lt_iff in C; lia).
    all: try (destruct (m ?= m2)%positive eqn:C; try discriminate;
              rewrite ?Pos.compare_eq_iff, ?Pos.compare_lt_iff in C; lia).
Qed.


(** *** Division of positive normal numbers *)

Lemma div_eucl_div_mod (a b : Z) : Z.div_eucl a b = (a / b, a mod b).
Proof. unfold Z.div, Z.modulo. destruct (Z.div_eucl a b); reflexivity. Qed.

Lemma SFdiv_normal (mx my : positive) (ex ey : Z) :
  2 ^ 52 <= Zpos mx < 2 ^ 53 -> 2 ^ 52 <= Zpos my < 2 ^ 53 ->
  emin <= ex - ey - 53 -> ex - ey - 51 <= 971 ->
  exists (m : positive) (e : Z),
    SFdiv prec emax (S754_finite false mx ex) (S754_finite false my ey) =
      S754_finite false m e /\
    2 ^ 52 <= Zpos m < 2 ^ 53 /\
    ex - ey - 53 <= e <= ex - ey - 51.
Proof.
  intros Hmx Hmy Hlo Hhi.
  assert (Hdx : Zdigits2 (Zpos mx) = 53) by (apply Zdigits2_unique; cbn in *; lia).
  assert (Hdy : Zdigits2 (Zpos my) = 53) by (apply Zdigits2_unique; cbn in *; lia).
  cbn [SFdiv xorb]. unfold SFdiv_core_binary.
  rewrite Hdx, Hdy.
  replace (53 + ex - (53 + ey)) with (ex - ey) by lia.
  unfold fexp, SpecFloat.emin, prec, emax.
  replace (Z.min (Z.max (ex - ey - 53) (3 - 1024 - 53)) (ex - ey)) with (ex - ey - 53) by lia.
  replace (ex - ey - (ex - ey - 53)) with 53 by lia.
  rewrite Z.shiftl_mul_pow2 by lia.
  rewrite div_eucl_div_mod.
  set (q := Zpos mx * 2 ^ 53 / Zpos my).
  assert (Hq : 2 ^ 52 <= q < 2 ^ 54).
  { unfold q. split.
    - apply Z.div_le_lower_bound; [lia|]. cbn in *. nia.
    - apply Z.div_lt_upper_bound; [lia|]. cbn in *. nia. }
  assert (Hdq : Zdigits2 q = 53 \/ Zdigits2 q = 54).
  { destruct (Z_lt_le_dec q (2 ^ 53)).
    - left. apply Zdigits2_unique; cbn in *; lia.
    - right. apply Zdigits2_unique; cbn in *; lia. }
  destruct (binary_round_aux_normal false q (ex - ey - 53)
              (new_location (Zpos my) (Zpos mx * 2 ^ 53 mod Zpos my)))
    as (m & e & Hr & Hm & He); [cbn in *; lia | lia | lia |].
  fold (binary_round_aux prec emax) in Hr |- *.
  exists m, e. 
  assert (Hle : e <= 971) by lia.
  apply Z.leb_le in Hle. rewrite Hle in Hr.
  split; [exact Hr|]. split; [exact Hm|]. lia.
Qed.

(** Division of a positive normal number by a positive normal constant. *)
Lemma div_normal (x y : float) (mx my : positive) (ex ey : Z) :
  Prim2SF x = S754_finite false mx ex -> Prim2SF y = S754_finite false my ey ->
  2 ^ 52 <= Zpos mx < 2 ^ 53 -> 2 ^ 52 <= Zpos my < 2 ^ 53 ->
  emin <= ex - ey - 53 -> ex - ey - 51 <= 971 ->
  exists (m : positive) (e : Z),
    Prim2SF (x / y) = S754_finite false m e /\
    2 ^ 52 <= Zpos m < 2 ^ 53 /\
    ex - ey - 53 <= e <= ex - ey - 51.
Proof.
  intros Hx Hy Hmx Hmy Hlo Hhi. rewrite FloatAxioms.div_spec, Hx, Hy.
  apply SFdiv_normal; assumption.
Qed.

(** *** Adding a small positive number to one *)

Lemma one_plus_small (x : float) (m : positive) (e : Z) :
  Prim2SF x = S754_finite false m e ->
  2 ^ 52 <= Zpos m < 2 ^ 53 -> -67 <= e <= -55 ->
  exists m' : positive,
    Prim2SF (1 + x) = S754_finite false m' (-52) /\ 2 ^ 52 < Zpos m' < 2 ^ 53.
Proof.
  intros Hx Hm He. rewrite FloatAxioms.add_spec, Hx, Prim2SF_one. unfold one_SF.
  cbn [SF64add SFadd cond_Zopp].
  replace (Z.min (-52) e) with e by lia.
  pose proof (shl_align_spec 4503599627370496 (-52) e) as H1.
  destruct (shl_align 4503599627370496 (-52) e) as [a ea].
  destruct H1 as [H1 _]. destruct (H1 ltac:(lia)) as [-> Ha]. clear H1.
  pose proof (shl_align_spec m e e) as H2.
  destruct (shl_align m e e) as [b eb].
  destruct H2 as [_ H2]. destruct (H2 ltac:(lia)) as [-> ->]. clear H2.
  cbn [fst].
  change (Zpos a + Zpos m) with (Zpos (a + m)).
  cbn [binary_normalize].
  set (k := -52 - e) in *.
  assert (Hk : 3 <= k <= 15) by (unfold k; lia).
  assert (Hpk : 8 <= 2 ^ k <= 2 ^ 15).
  { split; [change 8 with (2 ^ 3)|]; apply Z.pow_le_mono_r; lia. }
  assert (Hsum : Zpos (a + m) = 2 ^ 52 * 2 ^ k + Zpos m) by (rewrite Pos2Z.inj_add, Ha; lia).
  assert (Hd : Zdigits2 (Zpos (a + m)) = k + 53).
  { apply Zdigits2_unique; [lia|]. rewrite Hsum.
    replace (k + 53 - 1) with (52 + k) by lia.
    rewrite !Z.pow_add_r by lia. lia. }
  rewrite binary_round_no_shift by (rewrite Hd; unfold k; lia).
  destruct (binary_round_aux_normal false (Zpos (a + m)) e loc_Exact)
    as (m' & e' & Hr & Hm' & Hcase); [lia | lia | lia |].
  rewrite Hd in Hcase.
  replace (k + 53 - 53) with k in Hcase by lia.
  assert (Ht : Zpos (a + m) / 2 ^ k = 2 ^ 52 + Zpos m / 2 ^ k).
  { rewrite Hsum, Z.add_comm, Z.div_add by lia. lia. }
  assert (Hmk : 2 ^ 37 <= Zpos m / 2 ^ k < 2 ^ 50).
  { split.
    - apply Z.div_le_lower_bound; [lia|]. lia.
    - apply Z.div_lt_upper_bound; [lia|]. lia. }
  rewrite Ht in Hcase.
  destruct Hcase as [[He' Hb] | [He' [Hm2 Hb]]].
  - exists m'. subst e'. replace (e + (k + 53) - 53) with (-52) in Hr by (unfold k; lia).
    split; [exact Hr|]. lia.
  - lia.
Qed.

(** *** Subtracting one from a number above one *)

Lemma sub_one_nonzero (g : float) (m : positive) (e : Z) :
  Prim2SF g = S754_finite false m e ->
  2 ^ 52 <= Zpos m < 2 ^ 53 ->
  (-52 < e \/ (e = -52 /\ 2 ^ 52 < Zpos m)) ->
  (g - 1 =? 0)%float = false.
Proof.
  intros Hg Hm He. rewrite FloatAxioms.eqb_spec, FloatAxioms.sub_spec, Hg, Prim2SF_one, Prim2SF_zero.
  unfold one_SF. cbn [SF64sub SFsub cond_Zopp].
  replace (Z.min e (-52)) with (-52) by lia.
  pose proof (shl_align_spec m e (-52)) as H1.
  destruct (shl_align m e (-52)) as [a ea].
  assert (Ha : 2 ^ 52 < Zpos a).
  { destruct H1 as [H1 H2]. destruct He as [He | [He Hm']].
    - destruct (H1 He) as [_ ->].
      assert (2 <= 2 ^ (e - -52)) by (change 2 with (2 ^ 1) at 1; apply Z.pow_le_mono_r; lia).
      assert (Zpos m * 2 <= Zpos m * 2 ^ (e - -52)) by (apply Z.mul_le_mono_nonneg_l; lia).
      lia.
    - destruct (H2 ltac:(lia)) as [_ ->]. exact Hm'. }
  change (shl_align 4503599627370496 (-52) (-52)) with (4503599627370496%positive, -52).
  cbn [fst].
  destruct (Zpos a - 4503599627370496) as [| p | p] eqn:Ed; try (cbn in *; lia).
  cbn [binary_normalize].
  destruct (binary_round_normal false p (-52)) as (m' & e' & Hr & _).
  { assert (0 < Zdigits2 (Zpos p)) by (cbn; lia). lia. }
  rewrite Hr. destruct (e' <=? 971); reflexivity.
Qed.

(** A float above one and below infinity. *)
Lemma above_one_finite (g : float) :
  (1 <? g)%float = true -> (g <? infinity)%float = true ->
  exists (m : positive) (e : Z),
    Prim2SF g = S754_finite false m e /\
    2 ^ 52 <= Zpos m < 2 ^ 53 /\
    (-52 < e \/ (e = -52 /\ 2 ^ 52 < Zpos m)).
Proof.
  rewrite !FloatAxioms.ltb_spec, Prim2SF_one, Prim2SF_infinity. unfold one_SF.
  pose proof (Prim2SF_valid g) as Hv.
  destruct (Prim2SF g) as [sx | sx | | sx m e]; unfold SFltb, SFcompare; try discriminate.
  - destruct sx; discriminate.
  - destruct sx; [discriminate|]. 
    destruct (-52 ?= e) eqn:C; try discriminate; intros H1 _.
    + apply Z.compare_eq in C. subst e.
      destruct (valid_finite_normal false m (-52) Hv) as [Hm _]; [lia|].
      exists m, (-52). split; [reflexivity|]. split; [exact Hm|]. right. split; [reflexivity|].
      fold (Pos.compare 4503599627370496 m) in H1.
      destruct (4503599627370496 ?= m)%positive eqn:C'; try discriminate.
      rewrite Pos.compare_lt_iff in C'. cbn. lia.
    + rewrite Z.compare_lt_iff in C.
      destruct (valid_finite_normal false m e Hv) as [Hm _]; [lia|].
      exists m, e. split; [reflexivity|]. split; [exact Hm|]. left. lia.
Qed.


(** Comparison of positive finite numbers is lexicographic on the exponent
    and the mantissa. *)
Lemma SFcompare_pos (m1 m2 : positive) (e1 e2 : Z) :
  SFcompare (S754_finite false m1 e1) (S754_finite false m2 e2) =
    Some (match e1 ?= e2 with
          | Lt => Lt
          | Gt => Gt
          | Eq => (m1 ?= m2)%positive
          end).
Proof. reflexivity. Qed.

Lemma SFltb_pos (m1 m2 : positive) (e1 e2 : Z) :
  e1 < e2 \/ (e1 = e2 /\ Zpos m1 < Zpos m2) ->
  SFltb (S754_finite false m1 e1) (S754_finite false m2 e2) = true.
Proof.
  intros Hlt. unfold SFltb. rewrite SFcompare_pos.
  destruct Hlt as [He | [He Hm]].
  - apply Z.compare_lt_iff in He. rewrite He. reflexivity.
  - subst e2. rewrite Z.compare_refl.
    apply Pos2Z.pos_lt_pos, Pos.compare_lt_iff in Hm. rewrite Hm. reflexivity.
Qed.

Lemma SFeqb_pos_ne (m1 m2 : positive) (e1 e2 : Z) :
  e1 <> e2 \/ m1 <> m2 ->
  SFeqb (S754_finite false m1 e1) (S754_finite false m2 e2) = false.
Proof.
  intros Hne. unfold SFeqb. rewrite SFcompare_pos.
  destruct (e1 ?= e2) eqn:C; try reflexivity.
  apply Z.compare_eq in C.
  destruct (m1 ?= m2)%positive eqn:C'; try reflexivity.
  apply Pos.compare_eq in C'. destruct Hne; congruence.
Qed.

Lemma SFeqb_pos_refl (m : positive) (e : Z) :
  SFeqb (S754_finite false m e) (S754_finite false m e) = true.
Proof.
  unfold SFeqb. rewrite SFcompare_pos, Z.compare_refl, Pos.compare_refl. reflexivity.
Qed.


Lemma Prim2SF_two : Prim2SF 2 = two_SF.
Proof. reflexivity. Qed.

(** A float strictly between one and two. *)
Lemma between_one_two (x : float) :
  (1 <? x)%float = true -> (x <? 2)%float = true ->
  exists m : positive,
    Prim2SF x = S754_finite false m (-52) /\ 2 ^ 52 < Zpos m < 2 ^ 53.
Proof.
  rewrite !FloatAxioms.ltb_spec, Prim2SF_one, Prim2SF_two. unfold one_SF, two_SF.
  pose proof (Prim2SF_valid x) as Hv.
  destruct (Prim2SF x) as [sx | sx | | sx m e]; unfold SFltb, SFcompare; try discriminate.
  - destruct sx; discriminate.
  - destruct sx; [discriminate|].
    destruct (-52 ?= e) eqn:C1; try discriminate.
    + apply Z.compare_eq in C1. subst e. intros H1 _.
      destruct (valid_finite_normal false m (-52) Hv) as [Hm _]; [lia|].
      exists m. split; [reflexivity|].
      destruct (PosDef.Pos.compare_cont Eq 4503599627370496 m) eqn:C; try discriminate.
      apply (proj1 (Pos.compare_lt_iff _ _)), Pos2Z.pos_lt_pos in C. lia.
    + apply (proj1 (Z.compare_lt_iff _ _)) in C1. intros _.
      destruct (e ?= -51) eqn:C2; try discriminate.
      * apply Z.compare_eq in C2. subst e. intros H2.
        destruct (valid_finite_normal false m (-51) Hv) as [Hm _]; [lia|].
        destruct (PosDef.Pos.compare_cont Eq m 4503599627370496) eqn:C; try discriminate.
        apply (proj1 (Pos.compare_lt_iff _ _)), Pos2Z.pos_lt_pos in C. exfalso. lia.
      * apply (proj1 (Z.compare_lt_iff _ _)) in C2. exfalso. lia.
Qed.

(** *** The reference power *)

Lemma pow_succ_base_ge (a n : Z) :
  0 <= a -> 1 <= n -> a ^ n + a ^ (n - 1) <= (a + 1) ^ n.
Proof.
  intros Ha Hn.
  replace n with (Z.succ (n - 1)) at 1 3 by lia.
  rewrite !Z.pow_succ_r by lia.
  assert (a ^ (n - 1) <= (a + 1) ^ (n - 1)) by (apply Z.pow_le_mono_l; lia).
  assert (0 <= a ^ (n - 1)) by (apply Z.pow_nonneg; lia).
  nia.
Qed.


Lemma periods_spec (n : Z) : 12 <= n <= 360 -> In n periods.
Proof.
  intros Hn. unfold periods. rewrite <- (Z2Nat.id n) by lia.
  apply in_map, in_seq. lia.
Qed.

Lemma integral_value_periods (n : Z) :
  12 <= n <= 360 -> Py.integral_value (Py.Z2F n) = Some n.
Proof.
  intros Hn.
  assert (Hall : forallb (fun k => match Py.integral_value (Py.Z2F k) with
                                | Some v => v =? k
                                | None => false
                                end) periods = true) by (vm_compute; reflexivity).
  rewrite forallb_forall in Hall. specialize (Hall n (periods_spec n Hn)).
  destruct (Py.integral_value (Py.Z2F n)); [|discriminate].
  apply Z.eqb_eq in Hall. congruence.
Qed.

(** The correctly rounded power satisfies [libm_sane]. *)
Lemma reference_libm_sane : @Py.libm_sane Py.reference_libm.
Proof.
  intros x n H1 H2 Hn. unfold Py.libm_pow, Py.reference_libm, Py.pown_ref.
  destruct (between_one_two x H1 H2) as (m & Hx & Hm).
  rewrite Hx, (integral_value_periods n Hn).
  destruct n as [| pn | pn]; try lia.
  set (n := Zpos pn) in *.
  assert (HP : Zpos (m ^ pn) = Zpos m ^ n) by apply Pos2Z.inj_pow.
  rewrite <- HP.
  cbn [binary_normalize].
  set (P := Zpos (m ^ pn)) in *.
  assert (Hlo : 2 ^ (52 * n) + 2 ^ (52 * n - 52) <= P).
  { rewrite HP.
    transitivity ((2 ^ 52 + 1) ^ n); [|apply Z.pow_le_mono_l; lia].
    replace (52 * n - 52) with (52 * (n - 1)) by lia.
    rewrite !Z.pow_mul_r by lia.
    apply pow_succ_base_ge; lia. }
  assert (Hhi : P < 2 ^ (53 * n)).
  { rewrite HP, Z.pow_mul_r by lia. apply Z.pow_lt_mono_l; lia. }
  assert (Hp1 : 0 < 2 ^ (52 * n - 52)) by (apply Z.pow_pos_nonneg; lia).
  pose proof (Zdigits2_bounds P ltac:(lia)) as [HD1 HD2].
  set (D := Zdigits2 P) in *.
  assert (HDlo : 52 * n < D).
  { apply (Z.pow_lt_mono_r_iff 2); [lia | | lia].
    destruct (Z_lt_le_dec D 0); [|lia].
    rewrite (Z.pow_neg_r 2 D) in HD2 by lia. lia. }
  assert (HDhi : D - 1 < 53 * n) by (apply (Z.pow_lt_mono_r_iff 2); lia).
  rewrite binary_round_no_shift by (fold P D; lia).
  destruct (binary_round_aux_normal false P (-52 * n) loc_Exact)
    as (m' & e' & Hr & Hm' & Hcase); fold D; try lia.
  fold D in Hcase.
  assert (He' : -52 <= e' <= 971) by lia.
  replace (e' <=? 971) with true in Hr by (symmetry; apply Z.leb_le; lia).
  fold P. rewrite Hr.
  rewrite !FloatAxioms.ltb_spec, Prim2SF_SF2Prim, Prim2SF_one, Prim2SF_infinity
    by (apply normal_valid; lia).
  unfold one_SF, SFltb, SFcompare. split; [|reflexivity].
  fold (Pos.compare 4503599627370496 m').
  destruct (-52 ?= e') eqn:C.
  - apply Z.compare_eq in C.
    destruct Hcase as [[He Hb] | [He _]]; [|lia].
    assert (HD : D = 52 * n + 1) by lia.
    replace (D - 53) with (52 * n - 52) in Hb by lia.
    assert (2 ^ 52 + 1 <= P / 2 ^ (52 * n - 52)).
    { apply Z.div_le_lower_bound; [lia|].
      replace (52 * n) with (52 * n - 52 + 52) in Hlo at 1 by lia.
      rewrite Z.pow_add_r in Hlo by lia. lia. }
    replace (4503599627370496 ?= m')%positive with Lt; [reflexivity|].
    symmetry. apply Pos.compare_lt_iff. lia.
  - reflexivity.
  - rewrite Z.compare_gt_iff in C. lia.
Qed.

End Binary64.

(** ** The calculator on the inputs the bot admits *)

Module CalculatorFacts.
Import Py Config Bot Binary64.

Lemma finite_pos_props (x : float) (m : positive) (e : Z) :
  Prim2SF x = S754_finite false m e ->
  is_nan x = false /\ is_infinity x = false /\ (x =? 0)%float = false /\
  (x <? 0)%float = false /\ abs x = x.
Proof.
  intros Hx.
  assert (Habs : abs x = x).
  { apply Prim2SF_inj. rewrite FloatAxioms.abs_spec, Hx. reflexivity. }
  unfold is_nan, is_infinity. rewrite Habs.
  rewrite !FloatAxioms.eqb_spec, FloatAxioms.ltb_spec, Hx, Prim2SF_zero, Prim2SF_infinity.
  rewrite SFeqb_pos_refl. auto.
Qed.

Lemma one_two_ltb (x : float) (m : positive) :
  Prim2SF x = S754_finite false m (-52) -> 2 ^ 52 < Zpos m < 2 ^ 53 ->
  (1 <? x)%float = true /\ (x <? 2)%float = true /\ (x =? 1)%float = false.
Proof.
  intros Hx Hm.
  rewrite !FloatAxioms.ltb_spec, FloatAxioms.eqb_spec, Hx, Prim2SF_one, Prim2SF_two.
  unfold one_SF, two_SF.
  rewrite !SFltb_pos, SFeqb_pos_ne; auto.
  - right. intros ->. lia.
  - left. lia.
  - right. split; [reflexivity | lia].
Qed.

(** A rate the bot admits is not zero. *)
Lemma rate_nonzero (rate : float) :
  (MIN_INTEREST_RATE <=? rate)%float = true -> (rate =? 0)%float = false.
Proof.
  rewrite FloatAxioms.leb_spec, FloatAxioms.eqb_spec, Prim2SF_zero.
  change (Prim2SF MIN_INTEREST_RATE) with (S754_finite false 7205759403792794 (-56)).
  destruct (Prim2SF rate) as [s | s | | s m e]; unfold SFleb, SFeqb, SFcompare.
  - discriminate.
  - destruct s; auto.
  - discriminate.
  - destruct s; auto.
Qed.

(** For a rate the bot admits, the monthly growth factor [1 + rate/12/100]
    lies strictly between 1 and 2. *)
Lemma growth_base (rate : float) :
  (MIN_INTEREST_RATE <=? rate)%float = true ->
  (rate <=? MAX_INTEREST_RATE)%float = true ->
  exists m : positive,
    Prim2SF (1 + rate / 12 / 100) = S754_finite false m (-52) /\
    2 ^ 52 < Zpos m < 2 ^ 53.
Proof.
  intros Hlo Hhi.
  assert (Hmin : Prim2SF MIN_INTEREST_RATE = S754_finite false 7205759403792794 (-56))
    by (vm_compute; reflexivity).
  assert (Hmax : Prim2SF MAX_INTEREST_RATE = S754_finite false 8444249301319680 (-48))
    by (vm_compute; reflexivity).
  assert (H12 : Prim2SF 12 = S754_finite false 6755399441055744 (-49))
    by (vm_compute; reflexivity).
  assert (H100 : Prim2SF 100 = S754_finite false 7036874417766400 (-46))
    by (vm_compute; reflexivity).
  destruct (between_normal rate _ _ _ _ _ _ Hmin Hmax ltac:(lia) Hlo Hhi)
    as (m & e & Hr & Hm & He & _).
  destruct (div_normal rate 12 m _ e _ Hr H12 Hm ltac:(lia) ltac:(lia) ltac:(lia))
    as (ma & ea & Ha & Hma & Hea).
  destruct (div_normal (rate / 12) 100 ma _ ea _ Ha H100 Hma ltac:(lia) ltac:(lia) ltac:(lia))
    as (mb & eb & Hb & Hmb & Heb).
  apply (one_plus_small _ mb eb); try assumption; lia.
Qed.

Lemma periods_float (n : Z) :
  12 <= n <= 360 ->
  is_infinity (Z2F n) = false /\ (Z2F n =? 0)%float = false.
Proof.
  intros Hn.
  assert (Hall : forallb (fun k => negb (is_infinity (Z2F k)) && negb (Z2F k =? 0)%float)
                   periods = true) by (vm_compute; reflexivity).
  rewrite forallb_forall in Hall. specialize (Hall n (periods_spec n Hn)).
  apply andb_prop in Hall as [H1 H2].
  apply negb_true_iff in H1, H2. auto.
Qed.

Lemma float_of_int_periods (n : Z) :
  12 <= n <= 360 -> float_of_int n = Return (Z2F n).
Proof.
  intros Hn. unfold float_of_int. destruct (periods_float n Hn) as [-> _]. reflexivity.
Qed.

Section WithLibm.
Context `{Libm} (Hsane : libm_sane).

(** Compounding such a growth factor over 12 to 360 months returns a value
    from which subtracting one does not give zero. *)
Lemma float_pow_compound (x : float) (m : positive) (n : Z) :
  Prim2SF x = S754_finite false m (-52) -> 2 ^ 52 < Zpos m < 2 ^ 53 ->
  12 <= n <= 360 ->
  float_pow x n = Return (libm_pow x (Z2F n)) /\
  (libm_pow x (Z2F n) - 1 =? 0)%float = false.
Proof.
  intros Hx Hm Hn.
  destruct (finite_pos_props x m (-52) Hx) as (Hnan & Hinf & Hz & Hneg & Habs).
  destruct (one_two_ltb x m Hx Hm) as (H1 & H2 & Hne1).
  destruct (periods_float n Hn) as [_ Hnz].
  destruct (Hsane x n H1 H2 Hn) as [Hg1 Hg2].
  destruct (above_one_finite _ Hg1 Hg2) as (mg & eg & Hg & Hmg & Heg).
  destruct (finite_pos_props _ mg eg Hg) as (_ & Hginf & _).
  split.
  - unfold float_pow. rewrite (float_of_int_periods n Hn). cbn [bind].
    rewrite Hnz, Hnan, Hinf, Hz, Hneg, Habs, Hne1, Hginf. reflexivity.
  - apply (sub_one_nonzero _ mg eg); assumption.
Qed.

(** For every loan amount and down payment, a term of 1 to 30 years and a
    rate in the configured range, the calculator returns, and its result
    is the annuity payment. *)
Lemma calculate_returns (loan_amount down_payment rate : float) (years : Z) :
  1 <= years <= 30 ->
  (MIN_INTEREST_RATE <=? rate)%float = true ->
  (rate <=? MAX_INTEREST_RATE)%float = true ->
  let monthly_rate := (rate / 12 / 100)%float in
  let growth := libm_pow (1 + monthly_rate) (Z2F (years * 12)) in
  let p := (loan_amount - down_payment)%float in
  let mp := (p * (monthly_rate * growth) / (growth - 1))%float in
  calculate_monthly_payment loan_amount down_payment years rate =
    Return {| principal := p;
              monthly_payment := mp;
              total_payment := (mp * Z2F (years * 12))%float;
              total_interest := (mp * Z2F (years * 12) - p)%float;
              months := years * 12 |}.
Proof.
  intros Hy Hlo Hhi. cbv zeta.
  destruct (growth_base rate Hlo Hhi) as (m & Hx & Hm).
  destruct (float_pow_compound _ m (years * 12) Hx Hm ltac:(lia)) as [Hpow Hden].
  unfold calculate_monthly_payment.
  rewrite (rate_nonzero rate Hlo), Hpow. cbn [bind].
  unfold float_truediv. rewrite Hden. cbn [bind].
  unfold float_mul_int. rewrite float_of_int_periods by lia. reflexivity.
Qed.

End WithLibm.

End CalculatorFacts.

(** ** The handlers and the session store *)

Module BotFacts.
Import Py Config Bot Binary64 CalculatorFacts.

(** [float] raises nothing but [ValueError], so [parse_number] returns. *)
Lemma float_of_str_raises (s : string) (e : exn) :
  float_of_str s = Raise e -> e = ValueError.
Proof.
  unfold float_of_str.
  destruct (drop_underscores _ _) as [t|]; [destruct (parse_float_literal t)|];
    congruence.
Qed.

Lemma parse_number_returns (text : string) :
  exists amount : option float, parse_number text = Return amount.
Proof.
  unfold parse_number.
  destruct (float_of_str _) as [f | e] eqn:E; [eauto|].
  apply float_of_str_raises in E. subst e. eauto.
Qed.

(** A loan term the handler admits truncates to 1 to 30 years. *)
Lemma int_of_float_years (years : float) :
  (Z2F MIN_LOAN_TERM_YEARS <=? years)%float = true ->
  (years <=? Z2F MAX_LOAN_TERM_YEARS)%float = true ->
  exists n : Z, int_of_float years = Return n /\
    MIN_LOAN_TERM_YEARS <= n <= MAX_LOAN_TERM_YEARS.
Proof.
  intros Hlo Hhi.
  assert (H1 : Prim2SF (Z2F MIN_LOAN_TERM_YEARS) = S754_finite false 4503599627370496 (-52))
    by (vm_compute; reflexivity).
  assert (H30 : Prim2SF (Z2F MAX_LOAN_TERM_YEARS) = S754_finite false 8444249301319680 (-48))
    by (vm_compute; reflexivity).
  destruct (between_normal years _ _ _ _ _ _ H1 H30 ltac:(lia) Hlo Hhi)
    as (m & e & Hy & Hm & He & _ & Hm30).
  unfold int_of_float. rewrite Hy. cbn [SF_trunc].
  replace (0 <=? e) with false by (symmetry; apply Z.leb_gt; lia).
  rewrite Z.shiftr_div_pow2 by lia.
  eexists. split; [reflexivity|].
  unfold MIN_LOAN_TERM_YEARS, MAX_LOAN_TERM_YEARS.
  assert (Hcases : e = -52 \/ e = -51 \/ e = -50 \/ e = -49 \/ e = -48) by lia.
  destruct Hcases as [-> | [-> | [-> | [-> | ->]]]].
  - split; [apply Z.div_le_lower_bound | apply Z.lt_succ_r, Z.div_lt_upper_bound]; lia.
  - split; [apply Z.div_le_lower_bound | apply Z.lt_succ_r, Z.div_lt_upper_bound]; lia.
  - split; [apply Z.div_le_lower_bound | apply Z.lt_succ_r, Z.div_lt_upper_bound]; lia.
  - split; [apply Z.div_le_lower_bound | apply Z.lt_succ_r, Z.div_lt_upper_bound]; lia.
  - specialize (Hm30 eq_refl).
    split; [apply Z.div_le_lower_bound | apply Z.lt_succ_r, Z.div_lt_upper_bound]; lia.
Qed.

(** *** Locality *)

Lemma acts_on_ret {A : Type} (chat_id : Z) (a : A) : acts_on chat_id (ret a).
Proof. intros ss. unfold ret. cbn. auto. Qed.

Lemma acts_on_lift {A : Type} (chat_id : Z) (m : outcome A) : acts_on chat_id (lift m).
Proof. intros ss. unfold lift. cbn. auto. Qed.

Lemma acts_on_get_session (chat_id : Z) : acts_on chat_id (get_session chat_id).
Proof.
  intros ss. unfold get_session. split.
  - intros c Hc. destruct (ss !! chat_id); cbn; [reflexivity|].
    rewrite lookup_insert_ne by auto. reflexivity.
  - intros ss' E. rewrite E.
    destruct (ss !! chat_id) eqn:E'; cbn; rewrite ?lookup_insert_eq; auto.
    rewrite E, E'. auto.
Qed.

Lemma acts_on_clear_session (chat_id : Z) : acts_on chat_id (clear_session chat_id).
Proof.
  intros ss. unfold clear_session. cbn. split.
  - intros c Hc. rewrite lookup_delete_ne by auto. reflexivity.
  - intros ss' _. rewrite !lookup_delete_eq. auto.
Qed.

Lemma acts_on_setitem (chat_id : Z) (set : session -> session) :
  acts_on chat_id (setitem chat_id set).
Proof.
  intros ss. unfold setitem. cbn. split.
  - intros c Hc. rewrite lookup_alter_ne by auto. reflexivity.
  - intros ss' E. rewrite !lookup_alter_eq, E. auto.
Qed.

Lemma acts_on_and_then {A B : Type} (chat_id : Z) (m : action A) (k : A -> action B) :
  acts_on chat_id m -> (forall a, acts_on chat_id (k a)) ->
  acts_on chat_id (and_then m k).
Proof.
  intros Hm Hk ss. unfold and_then.
  destruct (Hm ss) as [Hframe Hsame]. split.
  - intros c Hc. specialize (Hframe c Hc).
    destruct (m ss) as [s1 [a | e]]; cbn in *; [|exact Hframe].
    destruct (Hk a s1) as [Hframe' _]. rewrite Hframe' by auto. exact Hframe.
  - intros ss' E. destruct (Hsame ss' E) as [Hr Hs].
    destruct (m ss) as [s1 [a | e]], (m ss') as [s1' [a' | e']]; cbn in *;
      try discriminate.
    + injection Hr as ->. destruct (Hk a s1) as [_ Hsame']. apply Hsame'. exact Hs.
    + injection Hr as ->. auto.
Qed.

Create HintDb acts.

#[local] Hint Resolve acts_on_ret acts_on_lift acts_on_get_session acts_on_clear_session
  acts_on_setitem : acts.

Ltac acts :=
  repeat first
    [ apply acts_on_and_then; [|intros ?]
    | solve [auto with acts]
    | match goal with
      | |- acts_on _ (match ?x with _ => _ end) => destruct x
      | |- acts_on _ (if ?c then _ else _) => destruct c
      end ].

Lemma acts_on_start (chat_id : Z) : acts_on chat_id (start chat_id).
Proof. unfold start. acts. Qed.

Lemma acts_on_cancel (chat_id : Z) : acts_on chat_id (cancel chat_id).
Proof. unfold cancel. acts. Qed.

Lemma acts_on_handle_loan_amount (chat_id : Z) (text : string) :
  acts_on chat_id (handle_loan_amount chat_id text).
Proof. unfold handle_loan_amount. acts. Qed.

Lemma acts_on_handle_down_payment (chat_id : Z) (text : string) :
  acts_on chat_id (handle_down_payment chat_id text).
Proof. unfold handle_down_payment. acts. Qed.

Lemma acts_on_handle_loan_term (chat_id : Z) (text : string) :
  acts_on chat_id (handle_loan_term chat_id text).
Proof. unfold handle_loan_term. acts. Qed.

Lemma acts_on_handle_interest_rate `{Libm} (chat_id : Z) (text : string) :
  acts_on chat_id (handle_interest_rate chat_id text).
Proof. unfold handle_interest_rate. acts. Qed.

(** Every handler the conversation handler can select acts on the chat of
    the update only. *)
Lemma acts_on_conv_handler `{Libm} (state : option conv_state) (u : update)
    (handler : Z -> action (string * next_state)) (chat_id : Z) :
  conv_handler state u = Some handler -> acts_on chat_id (handler chat_id).
Proof.
  unfold conv_handler. intros Hsel.
  destruct state as [[] |], u as [name | text];
    repeat match type of Hsel with
           | (if ?c then _ else _) = _ => destruct c
           end;
    try discriminate; injection Hsel as <-;
    auto using acts_on_start, acts_on_cancel, acts_on_handle_loan_amount,
      acts_on_handle_down_payment, acts_on_handle_loan_term, acts_on_handle_interest_rate.
Qed.

(** *** One step of a consistent bot *)

Ltac run_action :=
  unfold and_then, lift, ret, get_session, setitem, clear_session; cbn [fst snd].

Lemma start_leaves (chat_id : Z) (ss : gmap Z session) :
  leaves chat_id (start chat_id ss).
Proof.
  unfold start. run_action. rewrite lookup_delete_eq.
  exists welcome_message, (Goto LOAN_AMOUNT). cbn [fst snd]. split; [reflexivity|].
  exists empty_session. rewrite lookup_insert_eq. split; reflexivity.
Qed.

Lemma cancel_leaves (chat_id : Z) (ss : gmap Z session) :
  leaves chat_id (cancel chat_id ss).
Proof.
  unfold cancel. run_action.
  exists cancel_message, END. cbn [fst snd]. split; [reflexivity|].
  apply lookup_delete_eq.
Qed.

Lemma handle_loan_amount_leaves (chat_id : Z) (text : string) (ss : gmap Z session)
    (s : session) :
  ss !! chat_id = Some s -> collected LOAN_AMOUNT s ->
  leaves chat_id (handle_loan_amount chat_id text ss).
Proof.
  intros Hs Hcol. unfold handle_loan_amount.
  destruct (parse_number_returns text) as [amount Hp]. run_action. rewrite Hp.
  destruct amount as [a|]; [destruct (a <=? 0)%float eqn:Ha|].
  - exists loan_amount_error, (Goto LOAN_AMOUNT). cbn [fst snd]. eauto.
  - rewrite Hs. cbn [fst snd].
    exists (loan_amount_accepted a), (Goto DOWN_PAYMENT). cbn [fst snd].
    split; [reflexivity|]. rewrite lookup_alter_eq, Hs. cbn in Hcol. subst s.
    eexists. split; [reflexivity|]. exists a. auto.
  - exists loan_amount_error, (Goto LOAN_AMOUNT). cbn [fst snd]. eauto.
Qed.

Lemma handle_down_payment_leaves (chat_id : Z) (text : string) (ss : gmap Z session)
    (s : session) :
  ss !! chat_id = Some s -> collected DOWN_PAYMENT s ->
  leaves chat_id (handle_down_payment chat_id text ss).
Proof.
  intros Hs Hcol. unfold handle_down_payment.
  destruct (parse_number_returns text) as [amount Hp]. run_action. rewrite Hp, Hs.
  cbn [fst snd]. destruct Hcol as (a & -> & Ha). cbn [loan_amount set_loan_amount].
  destruct amount as [d|]; [destruct (d <? 0)%float eqn:Hd|].
  - exists down_payment_error, (Goto DOWN_PAYMENT). cbn [fst snd]. split; [reflexivity|].
    eexists. split; [eassumption|]. exists a. auto.
  - destruct (a <=? d)%float eqn:Had.
    + exists (down_payment_too_large d a), (Goto DOWN_PAYMENT). cbn [fst snd].
      split; [reflexivity|]. eexists. split; [eassumption|]. exists a. auto.
    + exists (down_payment_accepted d), (Goto LOAN_TERM). cbn [fst snd].
      split; [reflexivity|]. rewrite lookup_alter_eq, Hs.
      eexists. split; [reflexivity|]. exists a, d. auto.
  - exists down_payment_error, (Goto DOWN_PAYMENT). cbn [fst snd]. split; [reflexivity|].
    eexists. split; [eassumption|]. exists a. auto.
Qed.

Lemma handle_loan_term_leaves (chat_id : Z) (text : string) (ss : gmap Z session)
    (s : session) :
  ss !! chat_id = Some s -> collected LOAN_TERM s ->
  leaves chat_id (handle_loan_term chat_id text ss).
Proof.
  intros Hs Hcol. unfold handle_loan_term.
  destruct (parse_number_returns text) as [years Hp]. run_action. rewrite Hp.
  destruct years as [y|].
  - destruct ((Z2F MIN_LOAN_TERM_YEARS <=? y)%float && (y <=? Z2F MAX_LOAN_TERM_YEARS)%float)
      eqn:Hy; cbn [negb].
    + apply andb_prop in Hy as [Hlo Hhi].
      destruct (int_of_float_years y Hlo Hhi) as (n & Hn & Hrange).
      rewrite Hs, Hn. cbn [fst snd].
      exists (loan_term_accepted n), (Goto INTEREST_RATE). cbn [fst snd].
      split; [reflexivity|]. rewrite lookup_alter_eq, Hs.
      destruct Hcol as (a & d & -> & Ha & Hd & Had).
      eexists. split; [reflexivity|]. exists a, d, n. auto.
    + exists loan_term_error, (Goto LOAN_TERM). cbn [fst snd]. eauto.
  - exists loan_term_error, (Goto LOAN_TERM). cbn [fst snd]. eauto.
Qed.

Section WithLibm.
Context `{Libm} (Hsane : libm_sane).

(** A text the rate handler admits, at a session the earlier steps filled:
    the report is sent and the session is gone. *)
Lemma handle_interest_rate_accepts (chat_id : Z) (text : string) (ss : gmap Z session)
    (a d rate : float) (y : Z) :
  ss !! chat_id = Some (set_loan_term y (set_down_payment d (set_loan_amount a empty_session))) ->
  MIN_LOAN_TERM_YEARS <= y <= MAX_LOAN_TERM_YEARS ->
  parse_number text = Return (Some rate) ->
  ((MIN_INTEREST_RATE <=? rate)%float && (rate <=? MAX_INTEREST_RATE)%float) = true ->
  exists result : payment,
    calculate_monthly_payment a d y rate = Return result /\
    handle_interest_rate chat_id text ss =
      (delete chat_id ss, Return (results_message a d y rate result, END)).
Proof.
  intros Hs Hy Hp Hr. apply andb_prop in Hr as Hr'. destruct Hr' as [Hlo Hhi].
  pose proof (calculate_returns Hsane a d rate y Hy Hlo Hhi) as Hcalc. cbv zeta in Hcalc.
  eexists. split; [exact Hcalc|].
  unfold handle_interest_rate. run_action. rewrite Hp, Hr. cbn [negb]. rewrite Hs.
  cbn [fst snd].
  cbn [loan_amount down_payment loan_term set_loan_term set_down_payment set_loan_amount].
  rewrite Hcalc. cbn [fst snd]. f_equal.
  apply map_eq. intros i. destruct (decide (i = chat_id)) as [->|Hne].
  - rewrite !lookup_delete_eq. reflexivity.
  - rewrite !lookup_delete_ne, lookup_alter_ne by auto. reflexivity.
Qed.

Lemma handle_interest_rate_leaves (chat_id : Z) (text : string) (ss : gmap Z session)
    (s : session) :
  ss !! chat_id = Some s -> collected INTEREST_RATE s ->
  leaves chat_id (handle_interest_rate chat_id text ss).
Proof.
  intros Hs Hcol.
  destruct (parse_number_returns text) as [rate Hp].
  destruct rate as [r|];
    [destruct ((MIN_INTEREST_RATE <=? r)%float && (r <=? MAX_INTEREST_RATE)%float) eqn:Hr|].
  - destruct Hcol as (a & d & y & -> & Ha & Hd & Had & Hy).
    destruct (handle_interest_rate_accepts chat_id text ss a d r y Hs Hy Hp Hr)
      as (result & _ & ->).
    eexists _, END. cbn [fst snd]. split; [reflexivity|]. apply lookup_delete_eq.
  - unfold handle_interest_rate. run_action. rewrite Hp, Hr. cbn [negb].
    exists interest_rate_error, (Goto INTEREST_RATE). cbn [fst snd]. eauto.
  - unfold handle_interest_rate. run_action. rewrite Hp.
    exists interest_rate_error, (Goto INTEREST_RATE). cbn [fst snd]. eauto.
Qed.

(** Every handler the conversation handler selects in a consistent bot
    returns and leaves a session that fits its next state. *)
Lemma conv_handler_leaves (b : bot) (chat_id : Z) (u : update)
    (handler : Z -> action (string * next_state)) :
  consistent b ->
  conv_handler (conversations b !! chat_id) u = Some handler ->
  leaves chat_id (handler chat_id (sessions b)).
Proof.
  intros Hcons Hsel. specialize (Hcons chat_id). unfold conv_handler in Hsel.
  destruct (conversations b !! chat_id) as [st|].
  - destruct Hcons as (s & Hs & Hcol).
    destruct st, u as [name | text];
      repeat match type of Hsel with
             | (if ?c then _ else _) = _ => destruct c
             end;
      try discriminate; injection Hsel as <-;
      eauto using start_leaves, cancel_leaves, handle_loan_amount_leaves,
        handle_down_payment_leaves, handle_loan_term_leaves, handle_interest_rate_leaves.
  - destruct u as [name | text]; [|discriminate].
    destruct (String.eqb name "start"); [|discriminate].
    injection Hsel as <-. apply start_leaves.
Qed.

(** Consistency is preserved by every update, and no handler raises. *)
Lemma consistent_step (b : bot) (chat_id : Z) (u : update) :
  consistent b ->
  consistent (after (process_update b chat_id u)) /\
  error (process_update b chat_id u) = None.
Proof.
  intros Hcons. unfold process_update.
  destruct (conv_handler (conversations b !! chat_id) u) as [handler|] eqn:Hsel;
    [|split; [exact Hcons | reflexivity]].
  pose proof (conv_handler_leaves b chat_id u handler Hcons Hsel) as (text & next & Hr & Hleft).
  pose proof (acts_on_conv_handler _ u handler chat_id Hsel (sessions b)) as [Hframe _].
  destruct (handler chat_id (sessions b)) as [ss' r]. cbn [fst snd] in *. subst r.
  cbn [after error sessions conversations]. split; [|reflexivity].
  intros c. cbn [sessions conversations].
  destruct (decide (c = chat_id)) as [->|Hne].
  - destruct next as [st|].
    + rewrite lookup_insert_eq. exact Hleft.
    + rewrite lookup_delete_eq. exact Hleft.
  - rewrite (Hframe c Hne).
    destruct next as [st|].
    + rewrite lookup_insert_ne by auto. apply Hcons.
    + rewrite lookup_delete_ne by auto. apply Hcons.
Qed.

Lemma consistent_run (updates : list (Z * update)) (b : bot) :
  consistent b -> consistent (run b updates).
Proof.
  revert b. induction updates as [| [chat_id u] rest IH]; intros b Hcons; cbn [run].
  - exact Hcons.
  - apply IH. apply consistent_step. exact Hcons.
Qed.

Lemma consistent_initial : consistent initial.
Proof. intros c. cbn. rewrite !lookup_empty. reflexivity. Qed.

Lemma reachable_consistent (b : bot) : reachable b -> consistent b.
Proof. intros [updates ->]. apply consistent_run, consistent_initial. Qed.

End WithLibm.

End BotFacts.

(** ** The application

    The handlers on every update [main] lets through to them. *)

Module ApplicationFacts.
Import Py Config Bot Binary64 CalculatorFacts BotFacts.

(** *** Private chats *)

#[local] Instance diagonal_inj : Inj (=) (=) (fun c : Z => (c, c)).
Proof. intros c c' E. congruence. Qed.

(** On a new message the handlers of the application are the handlers of
    the private chat. *)
Lemma conv_handler_update_message `{Libm} (state : option conv_state) (chat_id user_id : Z)
    (u : update) :
  conv_handler_update state (message_from chat_id user_id u) =
    option_map (fun handler => handler chat_id) (conv_handler state u).
Proof.
  unfold conv_handler_update, conv_handler. cbn [content message_from].
  destruct state as [[]|], u as [name | text]; cbn [option_map]; try reflexivity;
    repeat match goal with
           | |- context [if ?c then _ else _] => destruct c
           end; reflexivity.
Qed.

(** The bot of private chats is the application on new messages of chats
    whose user has the id of the chat. *)
Lemma dispatch_private_chats `{Libm} (b : bot) (chat_id : Z) (u : update) :
  dispatch (private_chats b) (private_update (chat_id, u)) =
    {| state_after := private_chats (after (process_update b chat_id u));
       sent := reply (process_update b chat_id u);
       raised := error (process_update b chat_id u) |}.
Proof.
  unfold dispatch, process_update, private_update. cbn [fst snd].
  rewrite conv_handler_update_message. cbn [chat user message_from private_chats store states].
  rewrite (lookup_kmap (fun c : Z => (c, c))).
  destruct (conv_handler (conversations b !! chat_id) u) as [handler|]; cbn [option_map].
  - destruct (handler chat_id (sessions b)) as [ss' [[text next] | e]];
      cbn [after reply error sessions conversations]; [|reflexivity].
    destruct next; unfold private_chats; cbn [sessions conversations];
      rewrite ?(kmap_insert (fun c : Z => (c, c))), ?(kmap_delete (fun c : Z => (c, c)));
      reflexivity.
  - cbn [content message_from]. destruct (other_handlers u); reflexivity.
Qed.

Lemma serve_private_chats `{Libm} (updates : list (Z * update)) (b : bot) :
  serve (private_chats b) (map private_update updates) = private_chats (run b updates).
Proof.
  revert b. induction updates as [| [chat_id u] rest IH]; intros b; cbn [map serve run];
    [reflexivity|].
  rewrite dispatch_private_chats. cbn [state_after]. apply IH.
Qed.

Lemma private_chats_served `{Libm} (b : bot) : reachable b -> served (private_chats b).
Proof.
  intros [updates ->]. exists (map private_update updates).
  rewrite <- serve_private_chats. reflexivity.
Qed.

(** *** The terms in the store *)

Lemma terms_in_range_insert (ss : gmap Z session) (chat_id : Z) (s : session) :
  terms_in_range ss ->
  (forall y : Z, loan_term s = Some y -> MIN_LOAN_TERM_YEARS <= y <= MAX_LOAN_TERM_YEARS) ->
  terms_in_range (<[chat_id := s]> ss).
Proof.
  intros Hss Hs c s' y Hc Hy. destruct (decide (c = chat_id)) as [-> | Hne].
  - rewrite lookup_insert_eq in Hc. injection Hc as <-. auto.
  - rewrite lookup_insert_ne in Hc by auto. eauto.
Qed.

Lemma terms_in_range_delete (ss : gmap Z session) (chat_id : Z) :
  terms_in_range ss -> terms_in_range (delete chat_id ss).
Proof.
  intros Hss c s y Hc Hy. destruct (decide (c = chat_id)) as [-> | Hne].
  - rewrite lookup_delete_eq in Hc. discriminate Hc.
  - rewrite lookup_delete_ne in Hc by auto. eauto.
Qed.

Lemma terms_in_range_alter (ss : gmap Z session) (chat_id : Z) (f : session -> session) :
  terms_in_range ss ->
  (forall (s : session) (y : Z),
     loan_term (f s) = Some y ->
     loan_term s = Some y \/ MIN_LOAN_TERM_YEARS <= y <= MAX_LOAN_TERM_YEARS) ->
  terms_in_range (alter f chat_id ss).
Proof.
  intros Hss Hf c s y Hc Hy. destruct (decide (c = chat_id)) as [-> | Hne].
  - rewrite lookup_alter_eq in Hc. destruct (ss !! chat_id) as [s0|] eqn:E; [|discriminate Hc].
    injection Hc as <-. destruct (Hf s0 y Hy) as [Hy' | Hy']; eauto.
  - rewrite lookup_alter_ne in Hc by auto. eauto.
Qed.

Lemma terms_in_range_get_session (ss : gmap Z session) (chat_id : Z) :
  terms_in_range ss -> terms_in_range (fst (get_session chat_id ss)).
Proof.
  intros Hss. unfold get_session. destruct (ss !! chat_id); cbn [fst]; [exact Hss|].
  apply terms_in_range_insert; [exact Hss | discriminate].
Qed.


(** What a handler leaves in the store and what it returns or raises, on a
    new message. *)
Lemma handle_loan_amount_returns (chat_id : Z) (text : string) (ss : gmap Z session) :
  terms_in_range ss ->
  terms_in_range (fst (handle_loan_amount chat_id text ss)) /\
  returns (snd (handle_loan_amount chat_id text ss)) = true.
Proof.
  intros Hss. unfold handle_loan_amount.
  destruct (parse_number_returns text) as [amount Hp].
  unfold and_then, lift, ret, setitem. rewrite Hp.
  destruct amount as [a|]; [destruct (a <=? 0)%float|]; cbn [fst snd]; auto.
  pose proof (terms_in_range_get_session ss chat_id Hss) as Hget.
  destruct (get_session chat_id ss) as [ss' [s | e]] eqn:E; cbn [fst snd] in *.
  - split; [|reflexivity]. apply terms_in_range_alter; [exact Hget|]. intros s0 y Hy. left. exact Hy.
  - unfold get_session in E. destruct (ss !! chat_id); discriminate E.
Qed.

Lemma handle_down_payment_raises (chat_id : Z) (text : string) (ss : gmap Z session) :
  terms_in_range ss ->
  terms_in_range (fst (handle_down_payment chat_id text ss)) /\
  (returns (snd (handle_down_payment chat_id text ss)) = true \/
   snd (handle_down_payment chat_id text ss) = Raise TypeError /\
   loan_amount (default empty_session (ss !! chat_id)) = None).
Proof.
  intros Hss. unfold handle_down_payment.
  destruct (parse_number_returns text) as [amount Hp].
  unfold and_then, lift, ret, setitem. rewrite Hp.
  pose proof (terms_in_range_get_session ss chat_id Hss) as Hget.
  assert (Hs : exists s, get_session chat_id ss = (fst (get_session chat_id ss), Return s) /\
                         s = default empty_session (ss !! chat_id)).
  { unfold get_session. destruct (ss !! chat_id) as [s|]; cbn [fst default]; eauto. }
  destruct Hs as (s & Hs & Hdef). rewrite Hs. rewrite <- Hdef.
  destruct amount as [a|]; [destruct (a <? 0)%float|]; cbn [fst snd]; auto.
  destruct (loan_amount s) as [l|] eqn:El; cbn [fst snd]; [|auto].
  destruct (l <=? a)%float; cbn [fst snd]; [auto|].
  split; [|auto]. apply terms_in_range_alter; [exact Hget|]. intros s0 y Hy. left. exact Hy.
Qed.

Lemma handle_loan_term_returns (chat_id : Z) (text : string) (ss : gmap Z session) :
  terms_in_range ss ->
  terms_in_range (fst (handle_loan_term chat_id text ss)) /\
  returns (snd (handle_loan_term chat_id text ss)) = true.
Proof.
  intros Hss. unfold handle_loan_term.
  destruct (parse_number_returns text) as [years Hp].
  unfold and_then, lift, ret, setitem. rewrite Hp.
  destruct years as [y|]; [|cbn [fst snd]; auto].
  destruct ((Z2F MIN_LOAN_TERM_YEARS <=? y)%float && (y <=? Z2F MAX_LOAN_TERM_YEARS)%float)
    eqn:Hy; cbn [negb]; [|cbn [fst snd]; auto].
  apply andb_prop in Hy as [Hlo Hhi].
  destruct (int_of_float_years y Hlo Hhi) as (n & Hn & Hrange). rewrite Hn.
  pose proof (terms_in_range_get_session ss chat_id Hss) as Hget.
  destruct (get_session chat_id ss) as [ss' [s | e]] eqn:E; cbn [fst snd] in *.
  - split; [|reflexivity]. apply terms_in_range_alter; [exact Hget|].
    intros s0 y0 Hy0. right. cbn in Hy0. injection Hy0 as <-. exact Hrange.
  - unfold get_session in E. destruct (ss !! chat_id); discriminate E.
Qed.

Section WithLibm.
Context `{Libm} (Hsane : libm_sane).

(** The rate handler on a session whose three fields are set, whatever
    its fourth field holds. *)
Lemma handle_interest_rate_reports (chat_id : Z) (text : string) (ss : gmap Z session)
    (s : session) (a d rate : float) (y : Z) :
  ss !! chat_id = Some s ->
  loan_amount s = Some a -> down_payment s = Some d -> loan_term s = Some y ->
  MIN_LOAN_TERM_YEARS <= y <= MAX_LOAN_TERM_YEARS ->
  parse_number text = Return (Some rate) ->
  ((MIN_INTEREST_RATE <=? rate)%float && (rate <=? MAX_INTEREST_RATE)%float) = true ->
  exists result : payment,
    calculate_monthly_payment a d y rate = Return result /\
    handle_interest_rate chat_id text ss =
      (delete chat_id ss, Return (results_message a d y rate result, END)).
Proof.
  intros Hs Ha Hd Hterm Hy Hp Hr. apply andb_prop in Hr as Hr'. destruct Hr' as [Hlo Hhi].
  pose proof (calculate_returns Hsane a d rate y Hy Hlo Hhi) as Hcalc. cbv zeta in Hcalc.
  eexists. split; [exact Hcalc|].
  unfold handle_interest_rate. run_action. rewrite Hp, Hr. cbn [negb]. rewrite Hs.
  cbn [fst snd]. rewrite Ha, Hd, Hterm, Hcalc. cbn [fst snd]. f_equal.
  apply map_eq. intros i. destruct (decide (i = chat_id)) as [->|Hne].
  - rewrite !lookup_delete_eq. reflexivity.
  - rewrite !lookup_delete_ne, lookup_alter_ne by auto. reflexivity.
Qed.

Lemma handle_interest_rate_raises (chat_id : Z) (text : string) (ss : gmap Z session) :
  terms_in_range ss ->
  terms_in_range (fst (handle_interest_rate chat_id text ss)) /\
  (returns (snd (handle_interest_rate chat_id text ss)) = true \/
   snd (handle_interest_rate chat_id text ss) = Raise TypeError /\
   all_set (default empty_session (ss !! chat_id)) = false).
Proof.
  intros Hss.
  destruct (parse_number_returns text) as [rate Hp].
  destruct rate as [r|];
    [destruct ((MIN_INTEREST_RATE <=? r)%float && (r <=? MAX_INTEREST_RATE)%float) eqn:Hr|].
  - destruct (ss !! chat_id) as [s|] eqn:Hs; cbn [default from_option id].
    + destruct (loan_amount s) as [a|] eqn:Ea; [destruct (down_payment s) as [d|] eqn:Ed;
        [destruct (loan_term s) as [y|] eqn:Ey|]|].
      * destruct (handle_interest_rate_reports chat_id text ss s a d r y Hs Ea Ed Ey
                    (Hss chat_id s y Hs Ey) Hp Hr) as (result & _ & ->).
        cbn [fst snd]. split; [apply terms_in_range_delete; exact Hss | auto].
      * unfold handle_interest_rate. run_action. rewrite Hp, Hr. cbn [negb]. rewrite Hs.
        cbn [fst snd]. rewrite Ea, Ed, Ey. cbn [fst snd]. split.
        -- apply terms_in_range_alter; [exact Hss|]. intros s0 y Hy. left. exact Hy.
        -- right. split; [reflexivity|]. unfold all_set. rewrite Ea, Ed, Ey. reflexivity.
      * unfold handle_interest_rate. run_action. rewrite Hp, Hr. cbn [negb]. rewrite Hs.
        cbn [fst snd]. rewrite Ea, Ed. cbn [fst snd]. split.
        -- apply terms_in_range_alter; [exact Hss|]. intros s0 y Hy. left. exact Hy.
        -- right. split; [reflexivity|]. unfold all_set. rewrite Ea, Ed. reflexivity.
      * unfold handle_interest_rate. run_action. rewrite Hp, Hr. cbn [negb]. rewrite Hs.
        cbn [fst snd]. rewrite Ea. cbn [fst snd]. split.
        -- apply terms_in_range_alter; [exact Hss|]. intros s0 y Hy. left. exact Hy.
        -- right. split; [reflexivity|]. unfold all_set. rewrite Ea. reflexivity.
    + unfold handle_interest_rate. run_action. rewrite Hp, Hr. cbn [negb]. rewrite Hs.
      cbn [fst snd]. split.
      * apply terms_in_range_alter; [|intros s0 y Hy; left; exact Hy].
        apply terms_in_range_insert; [exact Hss | discriminate].
      * right. split; reflexivity.
  - unfold handle_interest_rate. run_action. rewrite Hp, Hr. cbn [negb fst snd]. auto.
  - unfold handle_interest_rate. run_action. rewrite Hp. cbn [fst snd]. auto.
Qed.

(** The handlers of the application on an update without
    [update.message]: they raise, [start] and [cancel] after they have
    changed the store. *)
Lemma start_update_edited (u : incoming) (ss : gmap Z session) :
  edited u = true ->
  start_update u ss = (<[chat u := empty_session]> ss, Raise AttributeError).
Proof.
  intros He. unfold start_update, message_attribute. rewrite He. run_action.
  rewrite lookup_delete_eq. cbn [fst snd]. rewrite insert_delete_eq. reflexivity.
Qed.

Lemma cancel_update_edited (u : incoming) (ss : gmap Z session) :
  edited u = true ->
  cancel_update u ss = (delete (chat u) ss, Raise AttributeError).
Proof. intros He. unfold cancel_update, message_attribute. rewrite He. reflexivity. Qed.

Lemma step_update_edited (handler : Z -> string -> action (string * next_state))
    (u : incoming) (text : string) (ss : gmap Z session) :
  edited u = true -> step_update handler u text ss = (ss, Raise AttributeError).
Proof. intros He. unfold step_update, message_attribute. rewrite He. reflexivity. Qed.

(** On a new message they are the handlers of the private chat. *)
Lemma start_update_new (u : incoming) (ss : gmap Z session) :
  edited u = false -> start_update u ss = start (chat u) ss.
Proof.
  intros He. unfold start_update, start, message_attribute. rewrite He. run_action.
  reflexivity.
Qed.

Lemma cancel_update_new (u : incoming) (ss : gmap Z session) :
  edited u = false -> cancel_update u ss = cancel (chat u) ss.
Proof. intros He. unfold cancel_update, cancel, message_attribute. rewrite He. reflexivity. Qed.

Lemma step_update_new (handler : Z -> string -> action (string * next_state))
    (u : incoming) (text : string) (ss : gmap Z session) :
  edited u = false -> step_update handler u text ss = handler (chat u) text ss.
Proof.
  intros He. unfold step_update, message_attribute. rewrite He. unfold and_then, lift.
  reflexivity.
Qed.

(** What a handler of the conversation leaves in the store, and which
    exceptions it can raise. *)
Lemma conv_handler_update_raises (state : option conv_state) (u : incoming)
    (handler : action (string * next_state)) (ss : gmap Z session) :
  conv_handler_update state u = Some handler ->
  terms_in_range ss ->
  terms_in_range (fst (handler ss)) /\
  match snd (handler ss) with
  | Return _ => edited u = false
  | Raise AttributeError => edited u = true
  | Raise TypeError =>
      edited u = false /\
      (exists text : string, content u = Message text) /\
      (state = Some DOWN_PAYMENT \/ state = Some INTEREST_RATE) /\
      all_set (default empty_session (ss !! chat u)) = false
  | Raise _ => False
  end.
Proof.
  intros Hsel Hss. unfold conv_handler_update in Hsel.
  destruct (edited u) eqn:He.
  - (* an edited message *)
    destruct state as [[]|], (content u) as [name | text];
      repeat match type of Hsel with
             | (if ?c then _ else _) = _ => destruct c
             end;
      try discriminate; injection Hsel as <-;
      rewrite ?start_update_edited, ?cancel_update_edited, ?step_update_edited by exact He;
      cbn [fst snd]; (split; [|reflexivity]);
      auto using terms_in_range_delete;
      (apply terms_in_range_insert; [exact Hss | discriminate]).
  - destruct state as [[]|], (content u) as [name | text] eqn:Ec;
      repeat match type of Hsel with
             | (if ?c then _ else _) = _ => destruct c
             end;
      try discriminate; injection Hsel as <-;
      rewrite ?start_update_new, ?cancel_update_new, ?step_update_new by exact He.
    all: try (unfold start; run_action; rewrite lookup_delete_eq; cbn [fst snd];
              split; [|reflexivity];
              apply terms_in_range_insert; [apply terms_in_range_delete; exact Hss | discriminate]).
    all: try (unfold cancel; run_action; split; [|reflexivity];
              apply terms_in_range_delete; exact Hss).
    + destruct (handle_loan_amount_returns (chat u) text ss Hss) as [Hkeep Hret].
      split; [exact Hkeep|].
      destruct (snd (handle_loan_amount (chat u) text ss)); [reflexivity | discriminate Hret].
    + destruct (handle_down_payment_raises (chat u) text ss Hss) as [Hkeep [Hret | [Hraise Hnone]]].
      * split; [exact Hkeep|].
        destruct (snd (handle_down_payment (chat u) text ss)); [reflexivity | discriminate Hret].
      * split; [exact Hkeep|]. rewrite Hraise.
        split; [reflexivity|]. split; [eauto|]. split; [auto|].
        unfold all_set. rewrite Hnone. reflexivity.
    + destruct (handle_loan_term_returns (chat u) text ss Hss) as [Hkeep Hret].
      split; [exact Hkeep|].
      destruct (snd (handle_loan_term (chat u) text ss)); [reflexivity | discriminate Hret].
    + destruct (handle_interest_rate_raises (chat u) text ss Hss) as [Hkeep [Hret | [Hraise Hnone]]].
      * split; [exact Hkeep|].
        destruct (snd (handle_interest_rate (chat u) text ss)); [reflexivity | discriminate Hret].
      * split; [exact Hkeep|]. rewrite Hraise.
        split; [reflexivity|]. split; [eauto|]. split; [auto|]. exact Hnone.
Qed.

(** Every state of the application holds terms in range. *)
Lemma dispatch_terms_in_range (w : application) (u : incoming) :
  terms_in_range (store w) -> terms_in_range (store (state_after (dispatch w u))).
Proof.
  intros Hw. unfold dispatch.
  destruct (conv_handler_update (states w !! (chat u, user u)) u) as [handler|] eqn:Hsel.
  - destruct (conv_handler_update_raises _ u handler (store w) Hsel Hw) as [Hkeep _].
    destruct (handler (store w)) as [ss' [[text next] | e]]; exact Hkeep.
  - destruct (other_handlers (content u)); [|exact Hw].
    unfold reply_update, message_attribute. destruct (edited u); exact Hw.
Qed.

Lemma served_terms_in_range (w : application) : served w -> terms_in_range (store w).
Proof.
  intros [updates ->].
  assert (Hgen : forall w0, terms_in_range (store w0) -> terms_in_range (store (serve w0 updates))).
  { induction updates as [| u rest IH]; intros w0 Hw0; cbn [serve]; [exact Hw0|].
    apply IH, dispatch_terms_in_range, Hw0. }
  apply Hgen. intros c s y Hc. cbn in Hc. rewrite lookup_empty in Hc. discriminate Hc.
Qed.



End WithLibm.

End ApplicationFacts.

(** ** The claims of the specification *)

Import Py Config Bot Binary64 CalculatorFacts BotFacts ApplicationFacts.

(** *** The calculator *)

(** Subtracting a finite number from a float equal to it gives zero. *)
Lemma sub_equal_finite (x y : float) :
  is_finite y = true -> (x =? y)%float = true -> (x - y =? 0)%float = true.
Proof.
  unfold is_finite, is_nan, is_infinity.
  rewrite !FloatAxioms.eqb_spec, FloatAxioms.sub_spec, FloatAxioms.abs_spec,
    Prim2SF_zero, Prim2SF_infinity.
  intros Hfin Heq.
  destruct (Prim2SF y) as [sy | sy | | sy my ey].
  - destruct (Prim2SF x) as [sx | sx | | sx mx ex].
    + destruct sx, sy; reflexivity.
    + destruct sx; discriminate Heq.
    + discriminate Heq.
    + destruct sx; discriminate Heq.
  - destruct sy; discriminate Hfin.
  - discriminate Hfin.
  - destruct (Prim2SF x) as [sx | sx | | sx mx ex].
    + destruct sy; discriminate Heq.
    + destruct sx; discriminate Heq.
    + discriminate Heq.
    + assert (Hsame : sx = sy /\ ex = ey /\ mx = my).
      { unfold SFeqb, SFcompare in Heq.
        destruct sx, sy; try discriminate Heq;
          destruct (ex ?= ey) eqn:Ce; try discriminate Heq;
          apply Z.compare_eq in Ce;
          destruct (PosDef.Pos.compare_cont Eq mx my) eqn:Cm; try discriminate Heq;
          apply Pos.compare_eq in Cm; auto. }
      destruct Hsame as (-> & -> & ->).
      cbn [SF64sub SFsub]. rewrite Z.sub_diag. reflexivity.
Qed.

(** C1 (the code departs from the claim): a rate in the claimed range
    [0, 30] that is positive but so small that [1 + rate/12/100] rounds to
    1 makes the denominator of the annuity formula zero, and the
    calculator raises [ZeroDivisionError] instead of returning a payment.
    The inputs satisfy the claim's precondition. *)
Theorem tiny_rate_divides_by_zero `{Libm} :
  (1000000 <? 5000000)%float = true /\
  (0 <=? 1000000)%float = true /\
  (0 <=? 1e-20)%float = true /\ (1e-20 <=? 30)%float = true /\
  (1e-20 =? 0)%float = false /\
  (1 + 1e-20 / 12 / 100 =? 1)%float = true /\
  calculate_monthly_payment 5000000 1000000 15 1e-20 = Raise ZeroDivisionError.
Proof. repeat (split; [vm_compute; reflexivity|]). vm_compute. reflexivity. Qed.

(** On the rates the bot admits, and on the standard test case, the
    calculator does return (see [calculate_returns]). *)
Example calculate_standard_case :
  exists r : payment,
    @calculate_monthly_payment reference_libm 5000000 1000000 15 12 = Return r /\
    principal r = 4000000%float /\ months r = 180 /\
    (48006 <? monthly_payment r)%float = true /\
    (monthly_payment r <? 48008)%float = true.
Proof.
  eexists. split; [vm_compute; reflexivity|].
  repeat (split; [vm_compute; reflexivity|]). vm_compute. reflexivity.
Qed.

(** C8 (the code departs from the claim): at rate 0, for a loan of 1,000,000
    with no down payment over 5 years, which satisfies the precondition of
    the claim, the calculator returns the monthly payment [1000000 / 60];
    the product of that payment with 60 rounds to [1000000.0000000001],
    and the total interest it returns is [1.1641532182693481e-10], not 0.
    For 1,200,000 over 10 years, the case the test of the repository
    checks, the total interest is 0. *)
Theorem zero_rate_interest_residue `{Libm} :
  (0 <? 1000000)%float = true /\ (0 <=? 0)%float = true /\
  1 <= 5 <= 30 /\ (0 =? 0)%float = true /\
  calculate_monthly_payment 1000000 0 5 0 =
    Return {| principal := 1000000;
              monthly_payment := 1000000 / 60;
              total_payment := 1000000.0000000001;
              total_interest := 1.1641532182693481e-10;
              months := 60 |} /\
  (1.1641532182693481e-10 =? 0)%float = false /\
  calculate_monthly_payment 1200000 0 10 0 =
    Return {| principal := 1200000;
              monthly_payment := 10000;
              total_payment := 1200000;
              total_interest := 0;
              months := 120 |}.
Proof.
  split; [reflexivity|]. split; [reflexivity|]. split; [lia|].
  repeat (split; [vm_compute; reflexivity|]). vm_compute. reflexivity.
Qed.

(** For a term of 1 to 30 years and a rate equal to 0, the calculator
    returns the monthly payment [principal / months] (the binary64
    quotient), and the total interest
    [monthly_payment * months - principal] computed in binary64; that
    interest is 0 whenever the rounded product [monthly_payment * months]
    equals a finite principal. *)
Lemma zero_rate_straight_line `{Libm}
    (loan_amount down_payment rate : float) (years : Z) :
  1 <= years <= 30 ->
  (rate =? 0)%float = true ->
  let p := (loan_amount - down_payment)%float in
  let n := Z2F (years * 12) in
  calculate_monthly_payment loan_amount down_payment years rate =
    Return {| principal := p;
              monthly_payment := p / n;
              total_payment := p / n * n;
              total_interest := p / n * n - p;
              months := years * 12 |} /\
  (is_finite p = true -> (p / n * n =? p)%float = true ->
   (p / n * n - p =? 0)%float = true).
Proof.
  intros Hy Hr p n. split.
  - unfold calculate_monthly_payment. rewrite Hr.
    unfold float_truediv_int, float_mul_int.
    rewrite float_of_int_periods by lia. cbn [bind].
    unfold float_truediv. destruct (periods_float (years * 12)) as [_ ->]; [lia|].
    cbn [bind]. reflexivity.
  - apply sub_equal_finite.
Qed.

(** The test case of the repository: 1,200,000 over 10 years at rate 0
    costs 10,000 a month and no interest. *)
Lemma zero_rate_straight_line_witness :
  @calculate_monthly_payment reference_libm 1200000 0 10 0 =
    Return {| principal := 1200000;
              monthly_payment := 10000;
              total_payment := 1200000;
              total_interest := 0;
              months := 120 |} /\
  (0 =? 0)%float = true.
Proof.
  destruct (@zero_rate_straight_line reference_libm 1200000 0 0 10) as [Hcalc Hzero];
    [lia | reflexivity |].
  split.
  - exact Hcalc.
  - apply Hzero; reflexivity.
Defined.

(** *** Validation *)

(** C6 (the code departs from the claim): the text [nan] parses as the
    float NaN, which is not greater than 0, yet the loan-amount handler
    stores it and enters the down-payment step, because its guard
    [amount <= 0] is false on NaN. The down-payment handler stores NaN the
    same way, and with a stored NaN loan amount it lets every non-negative
    down payment through. *)
Theorem nan_passes_the_amount_guards :
  parse_number "nan" = Return (Some nan) /\
  (0 <? nan)%float = false /\
  handle_loan_amount 7 "nan" {[7 := empty_session]} =
    ({[7 := set_loan_amount nan empty_session]},
     Return (loan_amount_accepted nan, Goto DOWN_PAYMENT)) /\
  handle_down_payment 7 "nan" {[7 := set_loan_amount 5000000 empty_session]} =
    ({[7 := set_down_payment nan (set_loan_amount 5000000 empty_session)]},
     Return (down_payment_accepted nan, Goto LOAN_TERM)) /\
  (nan <? 5000000)%float = false /\
  handle_down_payment 7 "6000000" {[7 := set_loan_amount nan empty_session]} =
    ({[7 := set_down_payment 6000000 (set_loan_amount nan empty_session)]},
     Return (down_payment_accepted 6000000, Goto LOAN_TERM)).
Proof. repeat (split; [vm_compute; reflexivity|]). vm_compute. reflexivity. Qed.

(** On numbers that are not NaN the two guards are the claimed ranges. *)
Lemma amount_guards_on_numbers (a l : float) :
  is_nan a = false -> is_nan l = false ->
  ((a <=? 0)%float = false <-> (0 <? a)%float = true) /\
  ((a <? 0)%float = false /\ (l <=? a)%float = false <->
   (0 <=? a)%float = true /\ (a <? l)%float = true).
Proof.
  unfold is_nan.
  rewrite !FloatAxioms.eqb_spec, !FloatAxioms.leb_spec, !FloatAxioms.ltb_spec, Prim2SF_zero.
  unfold SFeqb, SFleb, SFltb.
  intros Ha Hl.
  assert (Hanti : forall x y, SFcompare x y = option_map CompOpp (SFcompare y x)).
  { intros x y. destruct x as [sx | sx | | sx mx ex], y as [sy | sy | | sy my ey];
      cbn [SFcompare option_map CompOpp]; try reflexivity;
      try (destruct sx; reflexivity); try (destruct sy; reflexivity);
      try (destruct sx, sy; reflexivity).
    destruct sx, sy; try reflexivity; rewrite (Z.compare_antisym ex ey);
      destruct (ex ?= ey); cbn [CompOpp]; try reflexivity;
      change (PosDef.Pos.compare_cont Eq my mx) with (Pos.compare my mx);
      change (PosDef.Pos.compare_cont Eq mx my) with (Pos.compare mx my);
      rewrite (Pos.compare_antisym mx my); destruct (mx ?= my)%positive; reflexivity. }
  rewrite (Hanti (S754_zero false) (Prim2SF a)), (Hanti (Prim2SF a) (Prim2SF l)).
  assert (Hca : exists c, SFcompare (Prim2SF a) (S754_zero false) = Some c).
  { destruct (Prim2SF a) as [sx | sx | | sx mx ex]; cbn; eauto. discriminate Ha. }
  assert (Hcl : exists c, SFcompare (Prim2SF l) (Prim2SF a) = Some c).
  { destruct (Prim2SF a) as [sx | sx | | sx mx ex], (Prim2SF l) as [sy | sy | | sy my ey];
      cbn; eauto; try discriminate Ha; try discriminate Hl. }
  destruct Hca as [c1 ->], Hcl as [c2 ->]. cbn [option_map].
  destruct c1, c2; cbn; intuition congruence.
Qed.

(** C7: at the interest-rate step, the handler re-prompts exactly when the
    text is not a number in [MIN_INTEREST_RATE, MAX_INTEREST_RATE] (0.1 to
    30.0); a re-prompt sends the range error and leaves the store as it
    was. In particular the text [0] is re-prompted, although the
    calculator itself returns at rate 0. *)
Theorem rate_range_decides_acceptance `{Libm} (chat_id : Z) (text : string)
    (ss : gmap Z session) :
  (exists rate : option float,
     parse_number text = Return rate /\
     reprompts INTEREST_RATE (snd (handle_interest_rate chat_id text ss)) =
       match rate with
       | Some r =>
           negb ((MIN_INTEREST_RATE <=? r)%float && (r <=? MAX_INTEREST_RATE)%float)
       | None => true
       end /\
     (reprompts INTEREST_RATE (snd (handle_interest_rate chat_id text ss)) = true ->
      handle_interest_rate chat_id text ss =
        (ss, Return (interest_rate_error, Goto INTEREST_RATE)))) /\
  parse_number "0" = Return (Some 0%float) /\
  handle_interest_rate chat_id "0" ss =
    (ss, Return (interest_rate_error, Goto INTEREST_RATE)) /\
  returns (calculate_monthly_payment 1200000 0 10 0) = true.
Proof.
  split; [|repeat (split; [vm_compute; reflexivity|]); vm_compute; reflexivity].
  destruct (parse_number_returns text) as [rate Hp]. exists rate.
  split; [exact Hp|].
  unfold handle_interest_rate. run_action. rewrite Hp.
  destruct rate as [r|]; [|split; reflexivity].
  destruct ((MIN_INTEREST_RATE <=? r)%float && (r <=? MAX_INTEREST_RATE)%float);
    cbn [negb]; [|split; reflexivity].
  unfold get_session.
  destruct (ss !! chat_id) as [s|]; cbn [fst snd];
    [destruct (loan_amount s), (down_payment s), (loan_term s)|]; cbn [fst snd];
    try (split; [reflexivity | discriminate]);
    destruct (calculate_monthly_payment _ _ _ r); cbn [fst snd];
    (split; [reflexivity | discriminate]).
Qed.

(** C2 (the code departs from the claim): the text [nan] fails the
    validation of the loan-amount step (it parses to NaN, which is not
    greater than 0) and that of the down-payment step (NaN is not at
    least 0, and not below the loan amount), yet each handler stores it,
    replies with its acknowledgement and returns the next step. Apart
    from NaN the claim holds: whenever the parsed text and the stored
    loan amount are not NaN, a text that fails the validation of a step
    is answered with the error message of the step, the handler returns
    the same step and leaves the store as it was; at the term and the
    rate step this holds for NaN too. [parse_number] always returns. *)
Theorem failed_validation_is_stored `{Libm} :
  parse_number "nan" = Return (Some nan) /\
  loan_amount_fails (Some nan) /\
  handle_loan_amount 7 "nan" {[7 := empty_session]} =
    ({[7 := set_loan_amount nan empty_session]},
     Return (loan_amount_accepted nan, Goto DOWN_PAYMENT)) /\
  down_payment_fails (set_loan_amount 5000000 empty_session) (Some nan) /\
  handle_down_payment 7 "nan" {[7 := set_loan_amount 5000000 empty_session]} =
    ({[7 := set_down_payment nan (set_loan_amount 5000000 empty_session)]},
     Return (down_payment_accepted nan, Goto LOAN_TERM)) /\
  forall (chat_id : Z) (text : string) (ss : gmap Z session),
  exists amount : option float,
    parse_number text = Return amount /\
    (loan_amount_fails amount -> not_nan amount ->
     handle_loan_amount chat_id text ss =
       (ss, Return (loan_amount_error, Goto LOAN_AMOUNT))) /\
    (forall s : session,
       ss !! chat_id = Some s -> down_payment_fails s amount ->
       not_nan amount -> not_nan (loan_amount s) ->
       exists message : string,
         handle_down_payment chat_id text ss = (ss, Return (message, Goto DOWN_PAYMENT)) /\
         (message = down_payment_error \/
          exists a l, amount = Some a /\ loan_amount s = Some l /\
                      message = down_payment_too_large a l)) /\
    (loan_term_fails amount ->
     handle_loan_term chat_id text ss =
       (ss, Return (loan_term_error, Goto LOAN_TERM))) /\
    (interest_rate_fails amount ->
     handle_interest_rate chat_id text ss =
       (ss, Return (interest_rate_error, Goto INTEREST_RATE))).
Proof.
  split; [vm_compute; reflexivity|].
  split; [right; exists nan; split; reflexivity|].
  split; [vm_compute; reflexivity|].
  split; [right; exists nan; split; [reflexivity | left; reflexivity]|].
  split; [vm_compute; reflexivity|].
  intros chat_id text ss.
  destruct (parse_number_returns text) as [amount Hp]. exists amount.
  split; [exact Hp|]. repeat split.
  - intros Hfail Hnum. unfold handle_loan_amount. run_action. rewrite Hp.
    destruct Hfail as [-> | (a & -> & Ha)]; [reflexivity|].
    destruct (amount_guards_on_numbers a a (Hnum a eq_refl) (Hnum a eq_refl)) as [Hpos _].
    destruct (a <=? 0)%float; [reflexivity|].
    destruct Hpos as [Hpos _]. rewrite (Hpos eq_refl) in Ha. discriminate Ha.
  - intros s Hs Hfail Hnum Hloan. unfold handle_down_payment. run_action. rewrite Hp, Hs.
    cbn [fst snd].
    destruct Hfail as [-> | (a & -> & Hfail)]; [eauto|].
    destruct (a <? 0)%float eqn:Hneg; [eauto|].
    destruct (loan_amount s) as [l|] eqn:Hl.
    + destruct (amount_guards_on_numbers a l (Hnum a eq_refl) (Hloan l eq_refl))
        as [_ [Hdown _]].
      destruct (l <=? a)%float eqn:Hla.
      * eexists. split; [reflexivity|]. right. eauto.
      * destruct (Hdown (conj Hneg eq_refl)) as [H0 Hlt].
        destruct Hfail as [Hfail | (l' & Hl' & Hfail)].
        -- rewrite H0 in Hfail. discriminate Hfail.
        -- injection Hl' as <-. rewrite Hlt in Hfail. discriminate Hfail.
    + destruct Hfail as [Hfail | (l' & Hl' & _)]; [|discriminate Hl'].
      pose proof (Hnum a eq_refl) as Hnan. exfalso. revert Hneg Hfail Hnan. unfold is_nan.
      rewrite FloatAxioms.ltb_spec, FloatAxioms.leb_spec, FloatAxioms.eqb_spec, Prim2SF_zero.
      destruct (Prim2SF a) as [sa | sa | | sa ma ea]; try destruct sa; cbn; congruence.
  - intros Hfail. unfold handle_loan_term. run_action. rewrite Hp.
    destruct Hfail as [-> | (y & -> & Hy)]; [reflexivity|]. rewrite Hy. reflexivity.
  - intros Hfail. unfold handle_interest_rate. run_action. rewrite Hp.
    destruct Hfail as [-> | (r & -> & Hr)]; [reflexivity|]. rewrite Hr. reflexivity.
Qed.

(** *** Isolation *)

(** An update of the chat [A] leaves the entries of every other chat as
    they were, and its effect on [A] depends on [A]'s entries alone. *)
Lemma process_update_local `{Libm} (b : bot) (A : Z) (u : update) :
  (forall B : Z, A <> B ->
     sessions (after (process_update b A u)) !! B = sessions b !! B /\
     conversations (after (process_update b A u)) !! B = conversations b !! B) /\
  (forall b' : bot,
     sessions b' !! A = sessions b !! A ->
     conversations b' !! A = conversations b !! A ->
     reply (process_update b' A u) = reply (process_update b A u) /\
     error (process_update b' A u) = error (process_update b A u) /\
     sessions (after (process_update b' A u)) !! A =
       sessions (after (process_update b A u)) !! A /\
     conversations (after (process_update b' A u)) !! A =
       conversations (after (process_update b A u)) !! A).
Proof.
  unfold process_update.
  destruct (conv_handler (conversations b !! A) u) as [handler|] eqn:Hsel.
  - pose proof (acts_on_conv_handler _ u handler A Hsel (sessions b)) as [Hframe Hsame].
    split.
    + intros B Hne. split.
      * destruct (handler A (sessions b)) as [ss' [[text next] | e]];
          cbn [after sessions fst] in *; apply Hframe; auto.
      * destruct (handler A (sessions b)) as [ss' [[text next] | e]];
          cbn [after conversations]; [destruct next|];
          rewrite ?lookup_insert_ne, ?lookup_delete_ne by auto; reflexivity.
    + intros b' Hs Hc. rewrite Hc, Hsel.
      destruct (Hsame (sessions b') Hs) as [Hr Hl].
      destruct (handler A (sessions b)) as [ss1 [[text next] | e]],
               (handler A (sessions b')) as [ss2 [[text' next'] | e']];
        cbn [fst snd] in Hr, Hl; try discriminate Hr;
        injection Hr as ->; try subst next';
        cbn [after reply error sessions conversations];
        repeat split; auto.
      * destruct next; rewrite ?lookup_insert_eq, ?lookup_delete_eq; reflexivity.
  - split.
    + intros B _. split; reflexivity.
    + intros b' Hs Hc. rewrite Hc, Hsel. cbn [after reply error]. auto.
Qed.

Lemma run_projection `{Libm} (A : Z) (updates : list (Z * update)) (b b' : bot) :
  sessions b' !! A = sessions b !! A ->
  conversations b' !! A = conversations b !! A ->
  sessions (run b' (updates_of A updates)) !! A = sessions (run b updates) !! A /\
  conversations (run b' (updates_of A updates)) !! A = conversations (run b updates) !! A.
Proof.
  revert b b'. induction updates as [| [c u] rest IH]; intros b b' Hs Hc;
    cbn [run updates_of List.filter fst]; [auto|].
  destruct (bool_decide_reflect (c = A)) as [-> | Hne]; cbn [run].
  - destruct (process_update_local b A u) as [_ Hsame].
    destruct (Hsame b' Hs Hc) as (_ & _ & Hs' & Hc'). apply IH; assumption.
  - destruct (process_update_local b c u) as [Hframe _].
    destruct (Hframe A Hne) as [Hs' Hc']. apply IH; congruence.
Qed.

(** Between private chats the sessions are isolated: a new message of the
    private chat [A] leaves the session and the conversation state of
    every other private chat [B] as they were, and what it replies,
    raises and leaves to [A] depends only on [A]'s own session and
    conversation state. Over a whole interleaving of such messages, what
    [A] ends with is what it would end with had the other chats sent
    nothing. *)
Lemma sessions_are_isolated `{Libm} (b : bot) (A B : Z) (u : update)
    (updates : list (Z * update)) :
  A <> B ->
  (sessions (after (process_update b A u)) !! B = sessions b !! B /\
   conversations (after (process_update b A u)) !! B = conversations b !! B) /\
  (forall b' : bot,
     sessions b' !! A = sessions b !! A ->
     conversations b' !! A = conversations b !! A ->
     reply (process_update b' A u) = reply (process_update b A u) /\
     error (process_update b' A u) = error (process_update b A u) /\
     sessions (after (process_update b' A u)) !! A =
       sessions (after (process_update b A u)) !! A /\
     conversations (after (process_update b' A u)) !! A =
       conversations (after (process_update b A u)) !! A) /\
  (sessions (run b (updates_of A updates)) !! A = sessions (run b updates) !! A /\
   conversations (run b (updates_of A updates)) !! A =
     conversations (run b updates) !! A).
Proof.
  intros Hne. destruct (process_update_local b A u) as [Hframe Hsame].
  split; [apply Hframe; exact Hne|]. split; [exact Hsame|].
  apply run_projection; reflexivity.
Qed.

(** Two chats at the loan-amount step: chat 1 answers, chat 2 keeps its
    empty session. *)
Lemma sessions_are_isolated_witness :
  1 <> 2 /\
  sessions (after (@process_update reference_libm
                     {| sessions := {[1 := empty_session; 2 := empty_session]};
                        conversations := {[1 := LOAN_AMOUNT; 2 := LOAN_AMOUNT]} |}
                     1 (Message "5000000"))) !! 2 = Some empty_session.
Proof.
  split; [lia|].
  destruct (@sessions_are_isolated reference_libm
              {| sessions := {[1 := empty_session; 2 := empty_session]};
                 conversations := {[1 := LOAN_AMOUNT; 2 := LOAN_AMOUNT]} |}
              1 2 (Message "5000000") [] ltac:(lia)) as [[Hs _] _].
  rewrite Hs. reflexivity.
Defined.

(** C9 (the code departs from the claim): the conversation handler keeps
    one conversation for each user of a chat, but the session is that of
    the chat. The users 1 and 2 of the chat 7 are in two conversations.
    When user 1 has given the loan amount 5,000,000 and user 2 sends
    [/start], the session user 1 relies on is replaced by an empty one
    while the conversation of user 1 stays at the down-payment step; and
    when user 2 has then given the loan amount 100, the down payment 200
    of user 1, which would have been accepted, is refused with a message
    that cites the 100 of user 2. *)
Theorem users_of_a_chat_share_its_session `{Libm} :
  (7, 1) <> (7, 2) /\
  states (serve started first_user) !! (7, 1) = Some DOWN_PAYMENT /\
  store (serve started first_user) !! 7 = Some (set_loan_amount 5000000 empty_session) /\
  store (state_after (dispatch (serve started first_user) (message_from 7 2 (Command "start"))))
    !! 7 = Some empty_session /\
  states (state_after (dispatch (serve started first_user) (message_from 7 2 (Command "start"))))
    !! (7, 1) = Some DOWN_PAYMENT /\
  states (serve started (first_user ++ second_user)) !! (7, 1) = Some DOWN_PAYMENT /\
  states (serve started (first_user ++ second_user)) !! (7, 2) = Some DOWN_PAYMENT /\
  store (serve started (first_user ++ second_user)) !! 7 =
    Some (set_loan_amount 100 empty_session) /\
  sent (dispatch (serve started first_user) (message_from 7 1 (Message "200"))) =
    Some (down_payment_accepted 200) /\
  sent (dispatch (serve started (first_user ++ second_user))
          (message_from 7 1 (Message "200"))) =
    Some (down_payment_too_large 200 100).
Proof.
  split; [discriminate|].
  repeat (split; [vm_compute; reflexivity|]). vm_compute. reflexivity.
Qed.

(** *** Unset fields *)

(** On numbers the calculator raises no [TypeError]. *)
Lemma calculate_never_TypeError `{Libm} (a d r : float) (y : Z) :
  raises TypeError (calculate_monthly_payment a d y r) = false.
Proof.
  unfold calculate_monthly_payment, float_truediv_int, float_mul_int, float_pow,
    float_truediv, float_of_int.
  repeat match goal with
         | |- context [if ?c then _ else _] => destruct c; cbn [bind raises]
         end;
    reflexivity.
Qed.

(** C10: when the session's loan amount is set, the down-payment handler
    returns (its comparison with the loan amount has a number on both
    sides), and when the loan amount, the down payment and the term are
    set, the rate handler raises no [TypeError]. Both depend on the fields
    being set: on the all-[None] session [get_session] creates, a valid
    down payment and a valid rate each raise [TypeError]. *)
Theorem set_fields_exclude_TypeError `{Libm} (chat_id : Z) (text : string)
    (ss : gmap Z session) (s : session) :
  ss !! chat_id = Some s ->
  (is_set (loan_amount s) = true ->
   returns (snd (handle_down_payment chat_id text ss)) = true) /\
  (is_set (loan_amount s) && is_set (down_payment s) && is_set (loan_term s) = true ->
   raises TypeError (snd (handle_interest_rate chat_id text ss)) = false) /\
  fst (get_session chat_id ∅) !! chat_id = Some empty_session /\
  raises TypeError (snd (handle_down_payment chat_id "1000000" {[chat_id := empty_session]}))
    = true /\
  raises TypeError (snd (handle_interest_rate chat_id "12" {[chat_id := empty_session]}))
    = true.
Proof.
  intros Hs. split; [|split; [|split; [|split]]].
  - intros Hla. destruct (loan_amount s) as [l|] eqn:El; [|discriminate Hla].
    unfold handle_down_payment. run_action.
    destruct (parse_number_returns text) as [amount ->]. rewrite Hs. cbn [fst snd].
    rewrite El.
    destruct amount as [a|]; [|reflexivity].
    destruct (a <? 0)%float; [reflexivity|]. destruct (l <=? a)%float; reflexivity.
  - intros Hall.
    destruct (loan_amount s) as [l|] eqn:El; [|discriminate Hall].
    destruct (down_payment s) as [d|] eqn:Ed; [|discriminate Hall].
    destruct (loan_term s) as [y|] eqn:Ey; [|discriminate Hall].
    unfold handle_interest_rate. run_action.
    destruct (parse_number_returns text) as [rate ->].
    destruct rate as [r|]; [|reflexivity].
    destruct (negb _); [reflexivity|]. rewrite Hs. cbn [fst snd]. rewrite El, Ed, Ey.
    pose proof (calculate_never_TypeError l d r y) as Hcalc.
    destruct (calculate_monthly_payment l d y r) as [result | e]; cbn [fst snd].
    + reflexivity.
    + exact Hcalc.
  - unfold get_session. rewrite lookup_empty. cbn [fst]. apply lookup_insert_eq.
  - unfold handle_down_payment. run_action.
    replace (parse_number "1000000") with (Return (Some 1000000%float))
      by (vm_compute; reflexivity).
    rewrite lookup_singleton_eq. reflexivity.
  - unfold handle_interest_rate. run_action.
    replace (parse_number "12") with (Return (Some 12%float)) by (vm_compute; reflexivity).
    replace (negb ((MIN_INTEREST_RATE <=? 12)%float && (12 <=? MAX_INTEREST_RATE)%float))
      with false by (vm_compute; reflexivity).
    rewrite lookup_singleton_eq. reflexivity.
Qed.

(** A session at the down-payment step with its loan amount set: a down
    payment is accepted without any exception. *)
Lemma set_fields_exclude_TypeError_witness :
  returns (snd (handle_down_payment 7 "1000000"
                  {[7 := set_loan_amount 5000000 empty_session]})) = true.
Proof.
  destruct (@set_fields_exclude_TypeError reference_libm 7 "1000000"
              {[7 := set_loan_amount 5000000 empty_session]}
              (set_loan_amount 5000000 empty_session)) as [Hdown _].
  - apply lookup_singleton_eq.
  - apply Hdown. reflexivity.
Defined.

(** *** The conversation *)

Lemma scenario_bot_state :
  sessions scenario_bot !! 7 =
    Some (set_loan_term 15 (set_down_payment 1000000 (set_loan_amount 5000000 empty_session))) /\
  conversations scenario_bot !! 7 = Some INTEREST_RATE.
Proof. split; vm_compute; reflexivity. Qed.

Lemma scenario_bot_reachable : @reachable reference_libm scenario_bot.
Proof. exists scenario. reflexivity. Qed.

Lemma collected_fields (st : conv_state) (s : session) :
  collected st s ->
  (forall i : nat, (i < 4)%nat -> field_is_set i s = true <-> (i < position st)%nat) /\
  (forall i j : nat, (i <= j)%nat -> field_is_set j s = true -> field_is_set i s = true).
Proof.
  intros Hcol.
  assert (Hset : forall i : nat, field_is_set i s = true <-> (i < position st)%nat).
  { destruct st; cbn [collected] in Hcol.
    - subst s. intros [|[|[|i]]]; cbn; split; intros; try discriminate; lia.
    - destruct Hcol as (a & -> & _).
      intros [|[|[|i]]]; cbn; split; intros; try discriminate; try reflexivity; lia.
    - destruct Hcol as (a & d & -> & _).
      intros [|[|[|i]]]; cbn; split; intros; try discriminate; try reflexivity; lia.
    - destruct Hcol as (a & d & y & -> & _).
      intros [|[|[|i]]]; cbn; split; intros; try discriminate; try reflexivity; lia. }
  split.
  - intros i _. apply Hset.
  - intros i j Hij Hj. apply Hset. apply Hset in Hj. lia.
Qed.

(** As long as private chats send new messages only, the sessions follow
    the steps: a chat has a session exactly while it is in a
    conversation; in that session the field of step N is set if and only
    if the conversation is past step N, so the set fields are an initial
    segment of the steps; and at the interest-rate step the loan amount,
    the down payment and the term are set to values their handlers let
    through. *)
Lemma reachable_sessions_follow_the_steps `{Libm} (b : bot) (chat_id : Z) :
  libm_sane -> reachable b ->
  match conversations b !! chat_id with
  | None => sessions b !! chat_id = None
  | Some st =>
      exists s : session,
        sessions b !! chat_id = Some s /\
        (forall i : nat,
           (i < 4)%nat -> field_is_set i s = true <-> (i < position st)%nat) /\
        (forall i j : nat,
           (i <= j)%nat -> field_is_set j s = true -> field_is_set i s = true) /\
        (st = INTEREST_RATE ->
         exists (a d : float) (y : Z),
           loan_amount s = Some a /\ down_payment s = Some d /\ loan_term s = Some y /\
           (a <=? 0)%float = false /\ (d <? 0)%float = false /\ (a <=? d)%float = false /\
           MIN_LOAN_TERM_YEARS <= y <= MAX_LOAN_TERM_YEARS)
  end.
Proof.
  intros Hsane Hreach.
  pose proof (reachable_consistent Hsane b Hreach chat_id) as Hcons.
  destruct (conversations b !! chat_id) as [st|]; [|exact Hcons].
  destruct Hcons as (s & Hs & Hcol). exists s. split; [exact Hs|].
  destruct (collected_fields st s Hcol) as [Hiff Hprefix].
  split; [exact Hiff|]. split; [exact Hprefix|].
  intros ->. destruct Hcol as (a & d & y & -> & Ha & Hd & Had & Hy).
  exists a, d, y. cbn. auto 10.
Qed.

(** The scenario of the specification, at the rate prompt. *)
Lemma reachable_sessions_follow_the_steps_witness :
  exists s : session,
    sessions scenario_bot !! 7 = Some s /\
    loan_amount s = Some 5000000%float /\
    down_payment s = Some 1000000%float /\
    loan_term s = Some 15 /\
    interest_rate s = None.
Proof.
  pose proof (@reachable_sessions_follow_the_steps reference_libm scenario_bot 7
                reference_libm_sane scenario_bot_reachable) as Hinv.
  destruct scenario_bot_state as [Hs Hc]. rewrite Hc in Hinv.
  destruct Hinv as (s & Hs' & _). exists s. split; [exact Hs'|].
  rewrite Hs in Hs'. injection Hs' as <-. repeat split.
Defined.

(** C3 (the code departs from the claim): two runs reach a conversation at
    the interest-rate step whose session does not hold the three fields.

    In the private chat 7 the scenario reaches the rate step with the
    three fields set. The user then edits the [/start] message: [start]
    replaces the session by an empty one and raises [AttributeError] at
    [update.message.reply_text], so the conversation handler keeps the
    rate step. The conversation is at step 3 with the field of step 0
    unset, and the rate 12 raises [TypeError].

    In the chat 7 with the users 1 and 2, the [/start] of user 2 empties
    the session that user 1 has filled up to the down payment; the term
    of user 1 is then stored in it: user 1 is at the rate step over a
    session whose term is set while its loan amount and down payment are
    not. *)
Theorem sessions_fall_behind_the_steps `{Libm} :
  states (serve started scenario_updates) !! (7, 7) = Some INTEREST_RATE /\
  store (serve started scenario_updates) !! 7 =
    Some (set_loan_term 15 (set_down_payment 1000000 (set_loan_amount 5000000 empty_session))) /\
  raised (dispatch (serve started scenario_updates) edited_start) = Some AttributeError /\
  states (serve started (scenario_updates ++ [edited_start])) !! (7, 7) = Some INTEREST_RATE /\
  store (serve started (scenario_updates ++ [edited_start])) !! 7 = Some empty_session /\
  (0 < position INTEREST_RATE)%nat /\ field_is_set 0 empty_session = false /\
  raised (dispatch (serve started (scenario_updates ++ [edited_start]))
            (message_from 7 7 (Message "12"))) = Some TypeError /\
  states (serve started shared_chat) !! (7, 1) = Some INTEREST_RATE /\
  store (serve started shared_chat) !! 7 = Some (set_loan_term 15 empty_session) /\
  field_is_set 2 (set_loan_term 15 empty_session) = true /\
  field_is_set 0 (set_loan_term 15 empty_session) = false /\
  field_is_set 1 (set_loan_term 15 empty_session) = false.
Proof.
  repeat (split; [vm_compute; reflexivity|]).
  split; [cbn; lia|].
  repeat (split; [vm_compute; reflexivity|]). vm_compute. reflexivity.
Qed.

(** No handler raises in a reachable bot of private chats. *)
Lemma reachable_never_raises `{Libm} (b : bot) (chat_id : Z) (u : update) :
  libm_sane -> reachable b -> error (process_update b chat_id u) = None.
Proof.
  intros Hsane Hreach. apply consistent_step; [exact Hsane|].
  apply reachable_consistent; assumption.
Qed.



(** *** Parsing *)

Module ParseFacts.


Lemma chars_app (s1 s2 : string) : chars (s1 ++ s2) = (chars s1 ++ chars s2)%list.
Proof.
  induction s1 as [| c s1 IH]; [reflexivity|].
  change (chars (String c s1 ++ s2)) with (c :: chars (s1 ++ s2)).
  rewrite IH. reflexivity.
Qed.

(** Stripping removes white space only, on both sides. *)
Lemma lstrip_spaces (ws l : list ascii) :
  forallb is_space ws = true -> lstrip (ws ++ l) = lstrip l.
Proof.
  induction ws as [| c ws IH]; cbn; [reflexivity|].
  intros Hws. apply andb_prop in Hws as [-> Hws]. auto.
Qed.

Lemma lstrip_app (l ws : list ascii) :
  lstrip (l ++ ws) = if forallb is_space l then lstrip ws else (lstrip l ++ ws)%list.
Proof.
  induction l as [| c l IH]; cbn; [reflexivity|].
  destruct (is_space c); cbn; [exact IH | reflexivity].
Qed.

Lemma lstrip_all_space (l : list ascii) : forallb is_space l = true -> lstrip l = [].
Proof.
  induction l as [| c l IH]; cbn; [reflexivity|].
  intros H. apply andb_prop in H as [-> H]. auto.
Qed.

Lemma rstrip_spaces (l ws : list ascii) :
  forallb is_space ws = true -> rstrip (l ++ ws) = rstrip l.
Proof.
  intros Hws. unfold rstrip. rewrite rev_app_distr, lstrip_spaces; [reflexivity|].
  rewrite forallb_forall in *. intros c Hc. apply Hws. apply in_rev. exact Hc.
Qed.

Lemma strip_surrounding (ws text ws' : string) :
  all_space ws = true -> all_space ws' = true ->
  strip (ws ++ text ++ ws') = strip text.
Proof.
  unfold all_space, strip. intros Hws Hws'. f_equal.
  rewrite !chars_app, lstrip_spaces by exact Hws.
  rewrite lstrip_app.
  destruct (forallb is_space (chars text)) eqn:Ht.
  - rewrite (lstrip_all_space _ Hws'), (lstrip_all_space _ Ht). reflexivity.
  - apply rstrip_spaces. exact Hws'.
Qed.

(** Counting points through the cleaning steps. *)
Lemma filter_lstrip (P : ascii -> bool) (l : list ascii) :
  (forall c, P c = true -> is_space c = false) ->
  List.filter P (lstrip l) = List.filter P l.
Proof.
  intros HP. induction l as [| c l IH]; cbn; [reflexivity|].
  destruct (is_space c) eqn:Hc; [|reflexivity].
  destruct (P c) eqn:HPc; [|exact IH].
  apply HP in HPc. congruence.
Qed.

Lemma filter_strip_length (P : ascii -> bool) (l : list ascii) :
  (forall c, P c = true -> is_space c = false) ->
  length (List.filter P (rstrip (lstrip l))) = length (List.filter P l).
Proof.
  intros HP. unfold rstrip.
  rewrite List.filter_rev, List.length_rev, filter_lstrip, List.filter_rev,
    List.length_rev, filter_lstrip by exact HP.
  reflexivity.
Qed.

Lemma is_point_spec (c : ascii) : is_point c = true -> c = "."%char.
Proof. apply Ascii.eqb_eq. Qed.

Lemma point_not_space (c : ascii) : is_point c = true -> is_space c = false.
Proof. intros ->%is_point_spec. reflexivity. Qed.

Lemma separator_not_space (c : ascii) :
  is_point c || Ascii.eqb c "," = true -> is_space c = false.
Proof.
  intros [->%is_point_spec | ->%Ascii.eqb_eq]%orb_prop; reflexivity.
Qed.

Lemma points_replace_remove (l : list ascii) :
  points (List.filter (fun c => negb (Ascii.eqb c " "))
            (map (fun c => if Ascii.eqb c "," then "."%char else c) l)) =
  length (List.filter (fun c => is_point c || Ascii.eqb c ",") l).
Proof.
  unfold points. induction l as [| c l IH]; cbn [map List.filter]; [reflexivity|].
  destruct (Ascii.eqb c ",") eqn:Hcomma.
  - rewrite orb_true_r. cbn. rewrite IH. reflexivity.
  - rewrite orb_false_r.
    destruct (Ascii.eqb c " ") eqn:Hsp; cbn [negb List.filter].
    + apply Ascii.eqb_eq in Hsp. subst c. cbn. exact IH.
    + destruct (is_point c); cbn; rewrite IH; reflexivity.
Qed.

Lemma points_drop_underscores (l t : list ascii) (prev : ascii) :
  drop_underscores prev l = Some t -> points t = points l.
Proof.
  revert prev t. induction l as [| c l IH]; intros prev t; cbn [drop_underscores].
  - destruct (Ascii.eqb prev "_"); [discriminate|]. intros [= <-]. reflexivity.
  - destruct (Ascii.eqb c "_") eqn:Hu.
    + apply Ascii.eqb_eq in Hu. subst c.
      destruct (is_digit prev); [|discriminate]. intros Ht. apply IH in Ht. exact Ht.
    + destruct (Ascii.eqb prev "_" && negb (is_digit c)); [discriminate|].
      destruct (drop_underscores c l) as [t'|] eqn:Ht; [|discriminate].
      intros [= <-]. unfold points in *. cbn [List.filter].
      pose proof (IH c t' Ht) as IH'. unfold points in IH'.
      destruct (is_point c); cbn [length]; rewrite IH'; reflexivity.
Qed.

Lemma span_digits_spec (s ds r : list ascii) :
  span_digits s = (ds, r) -> s = (ds ++ r)%list /\ points ds = 0%nat.
Proof.
  revert ds r. induction s as [| c s IH]; intros ds r; cbn [span_digits].
  - intros [= <- <-]. auto.
  - destruct (is_digit c) eqn:Hd.
    + destruct (span_digits s) as [ds' r'] eqn:Hs. intros [= <- <-].
      destruct (IH ds' r' eq_refl) as [-> Hp]. split; [reflexivity|].
      unfold points in *. cbn [List.filter].
      destruct (is_point c) eqn:Hc; [|exact Hp].
      apply is_point_spec in Hc. subst c. discriminate Hd.
    + intros [= <- <-]. auto.
Qed.

Lemma points_app (l1 l2 : list ascii) : points (l1 ++ l2) = (points l1 + points l2)%nat.
Proof. unfold points. rewrite List.filter_app, List.length_app. reflexivity. Qed.

Lemma split_sign_points (s r : list ascii) (neg : bool) :
  split_sign s = (neg, r) -> points s = points r.
Proof.
  unfold split_sign. destruct s as [| c s]; [intros [= <- <-]; reflexivity|].
  destruct (Ascii.eqb c "-") eqn:Hm; [|destruct (Ascii.eqb c "+") eqn:Hp];
    intros [= <- <-]; try reflexivity;
    [apply Ascii.eqb_eq in Hm | apply Ascii.eqb_eq in Hp]; subst c; reflexivity.
Qed.

Lemma lower_point (c : ascii) : is_point (lower c) = is_point c.
Proof.
  unfold lower. destruct ((65 <=? code c) && (code c <=? 90)) eqn:Hup; [|reflexivity].
  apply andb_prop in Hup as [H1 H2]. apply Z.leb_le in H1, H2. unfold code in *.
  assert (Hc : is_point c = false).
  { destruct (is_point c) eqn:E; [|reflexivity].
    apply is_point_spec in E. subst c.
    change (nat_of_ascii ".") with 46%nat in H1. lia. }
  assert (Hl : is_point (ascii_of_nat (nat_of_ascii c + 32)) = false).
  { destruct (is_point (ascii_of_nat (nat_of_ascii c + 32))) eqn:E; [|reflexivity].
    apply is_point_spec in E. apply (f_equal nat_of_ascii) in E.
    rewrite nat_ascii_embedding in E by lia.
    change (nat_of_ascii ".") with 46%nat in E. lia. }
  rewrite Hc, Hl. reflexivity.
Qed.

Lemma points_map_lower (l : list ascii) : points (map lower l) = points l.
Proof.
  unfold points. induction l as [| c l IH]; cbn [map List.filter]; [reflexivity|].
  rewrite lower_point. destruct (is_point c); cbn; rewrite IH; reflexivity.
Qed.

Lemma word_points (l : list ascii) (w : string) :
  String.eqb (string_of_list_ascii (map lower l)) w = true ->
  points l = points (chars w).
Proof.
  intros Hw. apply String.eqb_eq in Hw. rewrite <- Hw.
  rewrite list_ascii_of_string_of_list_ascii. symmetry. apply points_map_lower.
Qed.

(** A float literal has at most one point. *)
Lemma parse_float_literal_points (t : list ascii) (f : float) :
  parse_float_literal t = Some f -> (points t <= 1)%nat.
Proof.
  unfold parse_float_literal.
  destruct (split_sign t) as [neg s1] eqn:Hsign.
  rewrite (split_sign_points _ _ _ Hsign).
  destruct (String.eqb _ "inf") eqn:Hinf;
    [intros _; rewrite (word_points _ _ Hinf); cbn; lia|].
  destruct (String.eqb _ "infinity") eqn:Hinfinity;
    [intros _; rewrite (word_points _ _ Hinfinity); cbn; lia|].
  cbn [orb].
  destruct (String.eqb _ "nan") eqn:Hnan;
    [intros _; rewrite (word_points _ _ Hnan); cbn; lia|].
  destruct (span_digits s1) as [ip s2] eqn:Hip.
  destruct (span_digits_spec _ _ _ Hip) as [-> Hpip].
  rewrite points_app, Hpip.
  assert (Hexp : forall (s3 : list ascii) (m scale : Z),
            match s3 with
            | [] => Some (SF2Prim (decimal_to_SF neg m scale))
            | c :: t0 =>
                if Ascii.eqb (lower c) "e" then
                  let '(eneg, t1) := split_sign t0 in
                  match span_digits t1 with
                  | ((_ :: _) as ed, []) =>
                      let ex := digits_value ed in
                      Some (SF2Prim (decimal_to_SF neg m ((if eneg then - ex else ex) + scale)))
                  | _ => None
                  end
                else None
            end = Some f -> points s3 = 0%nat).
  { intros [| c t0] m scale; [reflexivity|].
    destruct (Ascii.eqb (lower c) "e") eqn:He; [|discriminate].
    destruct (split_sign t0) as [eneg t1] eqn:Hs.
    destruct (span_digits t1) as [ed rest] eqn:Hed.
    destruct (span_digits_spec _ _ _ Hed) as [-> Hped].
    destruct ed; [discriminate|]. destruct rest; [|discriminate]. intros _.
    unfold points. cbn [List.filter].
    replace (is_point c) with false.
    - fold (points t0). rewrite (split_sign_points _ _ _ Hs), points_app, Hped. reflexivity.
    - rewrite <- lower_point. apply Ascii.eqb_eq in He. rewrite He. reflexivity. }
  destruct s2 as [| c t0].
  - cbn [points List.filter length]. intros _. lia.
  - destruct (Ascii.eqb c ".") eqn:Hc.
    + destruct (span_digits t0) as [fp s3] eqn:Hfp.
      destruct (span_digits_spec _ _ _ Hfp) as [-> Hpfp].
      destruct (ip ++ fp)%list; [discriminate|].
      intros Hf. apply Hexp in Hf.
      unfold points in *. cbn [List.filter]. unfold is_point at 1. rewrite Hc.
      cbn [length]. rewrite List.filter_app, List.length_app, Hpfp, Hf. lia.
    + destruct (ip ++ [])%list as [| c0 l0]; [discriminate|].
      intros Hf.
      apply (Hexp (c :: t0) (digits_value (c0 :: l0)) (- Z.of_nat (length (@nil ascii)))) in Hf.
      rewrite Hf. lia.
Qed.

Lemma points_cleaned (text : string) :
  points (rstrip (lstrip (chars (cleaned text)))) = decimal_points text.
Proof.
  unfold cleaned, remove_char, replace_char, strip, decimal_points, points.
  rewrite !list_ascii_of_string_of_list_ascii.
  rewrite filter_strip_length by exact point_not_space.
  fold (points (List.filter (fun c => negb (Ascii.eqb c " "))
                  (map (fun c => if Ascii.eqb c "," then "."%char else c)
                     (rstrip (lstrip (chars text)))))).
  rewrite points_replace_remove.
  apply filter_strip_length. exact separator_not_space.
Qed.

Lemma float_of_str_points (s : string) (f : float) :
  float_of_str s = Return f -> (points (rstrip (lstrip (chars s))) <= 1)%nat.
Proof.
  unfold float_of_str.
  destruct (drop_underscores _ _) as [t|] eqn:Ht; [|discriminate].
  destruct (parse_float_literal t) as [f'|] eqn:Hf; [|discriminate].
  intros _. rewrite <- (points_drop_underscores _ _ _ Ht).
  exact (parse_float_literal_points _ _ Hf).
Qed.

(** *** Texts without a digit *)

Lemma no_digit_In (l : list ascii) :
  existsb is_digit l = false <-> forall c, In c l -> is_digit c = false.
Proof.
  split.
  - intros Hl c Hc. destruct (is_digit c) eqn:E; [|reflexivity].
    rewrite <- Hl. symmetry. apply existsb_exists. eauto.
  - intros Hl. destruct (existsb is_digit l) eqn:E; [|reflexivity].
    apply existsb_exists in E as (c & Hc & Hd). rewrite (Hl c Hc) in Hd. discriminate Hd.
Qed.

Lemma lstrip_In (l : list ascii) (c : ascii) : In c (lstrip l) -> In c l.
Proof.
  induction l as [| c0 l IH]; cbn [lstrip]; [auto|].
  destruct (is_space c0); [right; auto | auto].
Qed.

Lemma rstrip_In (l : list ascii) (c : ascii) : In c (rstrip l) -> In c l.
Proof. unfold rstrip. intros Hc. apply in_rev, lstrip_In, in_rev. exact Hc. Qed.

Lemma drop_underscores_In (prev : ascii) (l t : list ascii) (c : ascii) :
  drop_underscores prev l = Some t -> In c t -> In c l.
Proof.
  revert prev t. induction l as [| c0 l IH]; intros prev t; cbn [drop_underscores].
  - destruct (Ascii.eqb prev "_"); [discriminate|]. intros [= <-]. auto.
  - destruct (Ascii.eqb c0 "_").
    + destruct (is_digit prev); [|discriminate]. intros Ht Hc. right. eauto.
    + destruct (Ascii.eqb prev "_" && negb (is_digit c0)); [discriminate|].
      destruct (drop_underscores c0 l) as [t'|] eqn:Ht; [|discriminate].
      intros [= <-] [-> | Hc]; [left; reflexivity | right; eauto].
Qed.

Lemma span_digits_no_digit (l : list ascii) :
  existsb is_digit l = false -> span_digits l = ([], l).
Proof.
  destruct l as [| c l]; [reflexivity|]. cbn [existsb span_digits].
  intros Hl. apply orb_false_elim in Hl as [-> _]. reflexivity.
Qed.

(** A float literal without a digit is an infinity or NaN. *)
Lemma parse_float_literal_no_digit (t : list ascii) (f : float) :
  parse_float_literal t = Some f -> existsb is_digit t = false ->
  f = nan \/ f = infinity \/ f = neg_infinity.
Proof.
  unfold parse_float_literal. intros Hf Ht.
  destruct (split_sign t) as [neg s1] eqn:Hsign.
  assert (Hs1 : existsb is_digit s1 = false).
  { unfold split_sign in Hsign. destruct t as [| c t]; [injection Hsign as <- <-; reflexivity|].
    cbn [existsb] in Ht. apply orb_false_elim in Ht as [Hc Ht'].
    destruct (Ascii.eqb c "-"); [|destruct (Ascii.eqb c "+")];
      injection Hsign as <- <-; try exact Ht'. cbn [existsb]. rewrite Hc. exact Ht'. }
  destruct (String.eqb _ "inf" || String.eqb _ "infinity")%bool.
  - injection Hf as <-. destruct neg; auto.
  - destruct (String.eqb _ "nan").
    + injection Hf as <-. auto.
    + rewrite (span_digits_no_digit s1 Hs1) in Hf.
      destruct s1 as [| c t0]; [discriminate Hf|].
      destruct (Ascii.eqb c ".").
      * cbn [existsb] in Hs1. apply orb_false_elim in Hs1 as [_ Ht0].
        rewrite (span_digits_no_digit t0 Ht0) in Hf. discriminate Hf.
      * discriminate Hf.
Qed.

Lemma cleaned_digit (text : string) (c : ascii) :
  is_digit c = true -> In c (chars (cleaned text)) -> In c (chars text).
Proof.
  unfold cleaned, remove_char, replace_char, strip.
  rewrite !list_ascii_of_string_of_list_ascii.
  intros Hd Hc. apply filter_In in Hc as [Hc _].
  apply in_map_iff in Hc as (c' & Hc' & Hin).
  apply rstrip_In, lstrip_In in Hin.
  destruct (Ascii.eqb c' ","); [subst c; discriminate Hd | subst c'; exact Hin].
Qed.

(** [parse_number] reads a text without a digit as an infinity or NaN, if
    it reads it at all. *)
Lemma parse_number_no_digit (text : string) (f : float) :
  parse_number text = Return (Some f) -> has_digit text = false ->
  f = nan \/ f = infinity \/ f = neg_infinity.
Proof.
  unfold parse_number, has_digit. fold (cleaned text). intros Hp Hd.
  destruct (float_of_str (cleaned text)) as [f' | e] eqn:E.
  - injection Hp as ->. unfold float_of_str in E.
    destruct (drop_underscores _ _) as [t|] eqn:Ht; [|discriminate E].
    destruct (parse_float_literal t) as [f'|] eqn:Hf; [|discriminate E].
    injection E as ->. apply (parse_float_literal_no_digit t f Hf).
    apply no_digit_In. intros c Hc.
    destruct (is_digit c) eqn:Hdc; [|reflexivity].
    apply (drop_underscores_In _ _ _ _ Ht), rstrip_In, lstrip_In in Hc.
    apply (cleaned_digit text c Hdc) in Hc.
    rewrite no_digit_In in Hd. rewrite (Hd c Hc) in Hdc. discriminate Hdc.
  - destruct e; discriminate Hp.
Qed.

End ParseFacts.
Import ParseFacts.

(** C5 (the code departs from the claim): the texts [nan], [inf] and
    [-Infinity] hold no digit, yet [parse_number] returns a float for
    them, NaN or an infinity, and not [None]. Apart from these words the
    claim holds. On every text [parse_number] returns, it raises nothing;
    white space around the text does not change what it returns; a text
    with more than one decimal separator (points and commas counted
    together) gives [None]; and a text without a digit gives [None]
    unless it gives NaN or an infinity. The five examples of the
    specification hold, and [abc] gives [None]. *)
Theorem words_are_read_as_numbers :
  has_digit "nan" = false /\ parse_number "nan" = Return (Some nan) /\
  has_digit "inf" = false /\ parse_number "inf" = Return (Some infinity) /\
  has_digit "-Infinity" = false /\ parse_number "-Infinity" = Return (Some neg_infinity) /\
  (forall text : string,
     (exists r : option float, parse_number text = Return r) /\
     (forall ws ws' : string,
        all_space ws = true -> all_space ws' = true ->
        parse_number (ws ++ text ++ ws') = parse_number text) /\
     ((2 <= decimal_points text)%nat -> parse_number text = Return None) /\
     (has_digit text = false ->
      parse_number text = Return None \/
      parse_number text = Return (Some nan) \/
      parse_number text = Return (Some infinity) \/
      parse_number text = Return (Some neg_infinity))) /\
  parse_number "5 000 000" = Return (Some 5000000%float) /\
  parse_number "12,5" = Return (Some 12.5%float) /\
  parse_number "12.5.5" = Return None /\
  parse_number "" = Return None /\
  parse_number "  5000  " = Return (Some 5000%float) /\
  parse_number "abc" = Return None.
Proof.
  do 6 (split; [vm_compute; reflexivity|]).
  split; [|repeat (split; [vm_compute; reflexivity|]); vm_compute; reflexivity].
  intros text. split; [apply parse_number_returns|]. split; [|split].
  - intros ws ws' Hws Hws'. unfold parse_number.
    rewrite strip_surrounding by assumption. reflexivity.
  - intros Hpoints. unfold parse_number. fold (cleaned text).
    destruct (float_of_str (cleaned text)) as [f | e] eqn:E.
    + apply float_of_str_points in E. rewrite points_cleaned in E. lia.
    + apply float_of_str_raises in E. subst e. reflexivity.
  - intros Hd. destruct (parse_number_returns text) as [[f|] Hp]; [|auto].
    destruct (parse_number_no_digit text f Hp Hd) as [-> | [-> | ->]]; auto.
Qed.

(** ** Further properties of the code

    Properties of [bot.py] beyond the claims of the specification: the
    formatting and the parsing of amounts, the calculator at the edges of
    its domain, the session store, the commands, the first three steps,
    and whole conversations. *)

(** *** Integers as floats *)

Module IntegerFacts.

(** Rounding a 53-bit mantissa whose exponent is in range changes
    nothing. *)
Lemma binary_round_aux_exact (s : bool) (m : positive) (e : Z) :
  Zdigits2 (Zpos m) = 53 -> emin <= e <= 971 ->
  binary_round_aux prec emax s (Zpos m) e loc_Exact = S754_finite s m e.
Proof.
  intros Hd He. unfold binary_round_aux, shr_fexp.
  rewrite Hd, fexp_normal by lia.
  replace (53 + e - 53 - e) with 0 by lia.
  cbn [shr shr_record_of_loc shr_m loc_of_shr_record shr_r shr_s round_nearest_even].
  rewrite Hd, fexp_normal by lia.
  replace (53 + e - 53 - e) with 0 by lia.
  cbn [shr shr_record_of_loc shr_m].
  replace (e <=? emax - prec) with true by (symmetry; apply Z.leb_le; unfold emax, prec; lia).
  reflexivity.
Qed.

(** A positive integer below [2 ^ 53] is a float: its mantissa is the
    integer shifted to 53 bits. *)
Lemma Z2F_exact (n : Z) :
  0 < n < 2 ^ 53 ->
  exists m : positive,
    Prim2SF (Z2F n) = S754_finite false m (Zdigits2 n - 53) /\
    Zpos m = n * 2 ^ (53 - Zdigits2 n).
Proof.
  intros Hn. destruct n as [| p | p]; try lia.
  unfold Z2F. cbn [binary_normalize]. unfold binary_round.
  change (Zpos (digits2_pos p)) with (Zdigits2 (Zpos p)).
  set (D := Zdigits2 (Zpos p)) in *.
  pose proof (Zdigits2_bounds (Zpos p) ltac:(lia)) as HD. fold D in HD.
  assert (H0 : 0 < D) by (unfold D; cbn; lia).
  assert (HD53 : D <= 53).
  { destruct (Z_le_gt_dec D 53); [assumption|].
    assert (2 ^ 53 <= 2 ^ (D - 1)) by (apply Z.pow_le_mono_r; lia). lia. }
  rewrite fexp_normal by lia.
  pose proof (shl_align_spec p 0 (D + 0 - 53)) as Hs.
  destruct (shl_align p 0 (D + 0 - 53)) as [mz ez]. destruct Hs as [Hs1 Hs2].
  assert (Hmz : ez = D - 53 /\ Zpos mz = Zpos p * 2 ^ (53 - D)).
  { destruct (Z_lt_le_dec (D + 0 - 53) 0) as [Hlt | Hge].
    - destruct (Hs1 Hlt) as [-> ->]. split; [lia|]. f_equal. f_equal. lia.
    - destruct (Hs2 Hge) as [-> ->]. replace D with 53 by lia. cbn. lia. }
  destruct Hmz as [-> Hmz].
  assert (Hdz : Zdigits2 (Zpos mz) = 53).
  { apply Zdigits2_unique; [lia|]. rewrite Hmz.
    replace (2 ^ (53 - 1)) with (2 ^ (D - 1) * 2 ^ (53 - D))
      by (rewrite <- Z.pow_add_r by lia; f_equal; lia).
    replace (2 ^ 53) with (2 ^ D * 2 ^ (53 - D))
      by (rewrite <- Z.pow_add_r by lia; f_equal; lia).
    assert (0 < 2 ^ (53 - D)) by (apply Z.pow_pos_nonneg; lia). nia. }
  rewrite binary_round_aux_exact by (auto; lia).
  exists mz. split; [|exact Hmz].
  apply Prim2SF_SF2Prim. apply normal_valid; [|lia].
  pose proof (Zdigits2_bounds (Zpos mz) ltac:(lia)) as Hb. rewrite Hdz in Hb. exact Hb.
Qed.

(** [<=] on positive finite numbers, as [SFltb_pos] gives [<]. *)
Lemma SFleb_pos (m1 m2 : positive) (e1 e2 : Z) :
  e1 < e2 \/ (e1 = e2 /\ Zpos m1 <= Zpos m2) ->
  SFleb (S754_finite false m1 e1) (S754_finite false m2 e2) = true.
Proof.
  intros Hle. unfold SFleb. rewrite SFcompare_pos.
  destruct Hle as [He | [He Hm]].
  - apply Z.compare_lt_iff in He. rewrite He. reflexivity.
  - subst e2. rewrite Z.compare_refl.
    destruct (m1 ?= m2)%positive eqn:C; try reflexivity.
    apply Pos.compare_gt_iff in C. exfalso. apply Pos2Z.pos_lt_pos in C. lia.
Qed.

(** [int] of a float from 1 to 30 is the integer [n] from 1 to 30 with
    [n <= y < n + 1]. *)
Lemma years_truncation (y : float) :
  (Z2F MIN_LOAN_TERM_YEARS <=? y)%float = true ->
  (y <=? Z2F MAX_LOAN_TERM_YEARS)%float = true ->
  exists n : Z,
    int_of_float y = Return n /\
    MIN_LOAN_TERM_YEARS <= n <= MAX_LOAN_TERM_YEARS /\
    (Z2F n <=? y)%float = true /\ (y <? Z2F (n + 1))%float = true.
Proof.
  intros Hlo Hhi.
  assert (H1 : Prim2SF (Z2F MIN_LOAN_TERM_YEARS) = S754_finite false 4503599627370496 (-52))
    by (vm_compute; reflexivity).
  assert (H30 : Prim2SF (Z2F MAX_LOAN_TERM_YEARS) = S754_finite false 8444249301319680 (-48))
    by (vm_compute; reflexivity).
  destruct (between_normal y _ _ _ _ _ _ H1 H30 ltac:(lia) Hlo Hhi)
    as (m & e & Hy & Hm & He & _ & Hm30).
  destruct (int_of_float_years y Hlo Hhi) as (n & Hn & Hrange).
  exists n. split; [exact Hn|]. split; [exact Hrange|].
  unfold int_of_float in Hn. rewrite Hy in Hn. cbn [SF_trunc] in Hn.
  replace (0 <=? e) with false in Hn by (symmetry; apply Z.leb_gt; lia).
  rewrite Z.shiftr_div_pow2 in Hn by lia. injection Hn as Hn.
  set (k := - e) in *.
  assert (Hk : 48 <= k <= 52) by (unfold k; lia).
  assert (Hpk : 0 < 2 ^ k) by (apply Z.pow_pos_nonneg; lia).
  assert (Hdiv : n * 2 ^ k <= Zpos m < (n + 1) * 2 ^ k).
  { subst n. pose proof (Z.div_mod (Zpos m) (2 ^ k) ltac:(lia)).
    pose proof (Z.mod_pos_bound (Zpos m) (2 ^ k) Hpk). lia. }
  assert (Hp52 : 2 ^ 52 = 2 ^ (52 - k) * 2 ^ k)
    by (rewrite <- Z.pow_add_r by lia; f_equal; lia).
  assert (Hp53 : 2 ^ 53 = 2 ^ (53 - k) * 2 ^ k)
    by (rewrite <- Z.pow_add_r by lia; f_equal; lia).
  assert (Hq : 0 < 2 ^ (52 - k)) by (apply Z.pow_pos_nonneg; lia).
  assert (Hq' : 2 ^ (53 - k) = 2 * 2 ^ (52 - k))
    by (replace (53 - k) with (Z.succ (52 - k)) by lia; apply Z.pow_succ_r; lia).
  assert (Hnb : 2 ^ (52 - k) <= n < 2 ^ (53 - k)) by nia.
  assert (Hdn : Zdigits2 n = 53 - k).
  { apply Zdigits2_unique; [lia|]. replace (53 - k - 1) with (52 - k) by lia. exact Hnb. }
  unfold MIN_LOAN_TERM_YEARS, MAX_LOAN_TERM_YEARS in Hrange.
  destruct (Z2F_exact n ltac:(lia)) as (mn & Hzn & Hmn).
  rewrite Hdn in Hzn, Hmn.
  replace (53 - k - 53) with e in Hzn by (unfold k; lia).
  replace (53 - (53 - k)) with k in Hmn by lia.
  split.
  - rewrite FloatAxioms.leb_spec, Hzn, Hy. apply SFleb_pos. right. split; [reflexivity|]. lia.
  - rewrite FloatAxioms.ltb_spec, Hy.
    destruct (Z.eq_dec (n + 1) (2 ^ (53 - k))) as [Hpow | Hnpow].
    + assert (Hd1 : Zdigits2 (n + 1) = 54 - k).
      { apply Zdigits2_unique; [lia|]. replace (54 - k - 1) with (53 - k) by lia.
        rewrite Hpow. split; [lia|]. apply Z.pow_lt_mono_r; lia. }
      destruct (Z2F_exact (n + 1) ltac:(lia)) as (m1 & Hz1 & _).
      rewrite Hd1 in Hz1. rewrite Hz1. apply SFltb_pos. left. unfold k. lia.
    + assert (Hd1 : Zdigits2 (n + 1) = 53 - k).
      { apply Zdigits2_unique; [lia|]. replace (53 - k - 1) with (52 - k) by lia. lia. }
      destruct (Z2F_exact (n + 1) ltac:(lia)) as (m1 & Hz1 & Hm1).
      rewrite Hd1 in Hz1, Hm1. rewrite Hz1.
      replace (53 - (53 - k)) with k in Hm1 by lia.
      apply SFltb_pos. right. split; [unfold k; lia | lia].
Qed.

End IntegerFacts.
Import IntegerFacts.

(** *** Decimal texts and thousands separators *)

Module FormatFacts.

(** The step of [digits_value]. *)
#[local] Abbreviation digit_step :=
  (fun (acc : Z) (c : ascii) => 10 * acc + (code c - 48)).

Lemma digits_value_fold (ds : list ascii) : digits_value ds = fold_left digit_step ds 0.
Proof. reflexivity. Qed.

(** The decimal text of a natural number has that number as its value. *)
Lemma fold_digits_acc (u : Decimal.uint) (acc : positive) :
  fold_left digit_step (chars (NilEmpty.string_of_uint u)) (Zpos acc) =
    Zpos (Pos.of_uint_acc u acc).
Proof.
  revert acc. induction u as [| u IH | u IH | u IH | u IH | u IH | u IH | u IH | u IH | u IH | u IH];
    intros acc; cbn [NilEmpty.string_of_uint list_ascii_of_string fold_left Pos.of_uint_acc];
    [ reflexivity
    | rewrite <- IH; f_equal; cbn beta; unfold code;
      rewrite ?Pos2Z.inj_add, ?Pos2Z.inj_mul;
      match goal with
      | |- context [nat_of_ascii ?c] =>
          let v := eval vm_compute in (nat_of_ascii c) in change (nat_of_ascii c) with v
      end; lia .. ].
Qed.

Lemma fold_digits (u : Decimal.uint) :
  fold_left digit_step (chars (NilEmpty.string_of_uint u)) 0 = Z.of_N (N.of_uint u).
Proof.
  unfold N.of_uint.
  induction u as [| u IH | u IH | u IH | u IH | u IH | u IH | u IH | u IH | u IH | u IH];
    cbn [NilEmpty.string_of_uint list_ascii_of_string fold_left Pos.of_uint];
    [reflexivity | exact IH
    | match goal with
      | |- fold_left _ _ ?a = _ => let v := eval vm_compute in a in change a with v
      end; cbn [Z.of_N]; apply fold_digits_acc ..].
Qed.

Lemma digits_value_decimal (n : Z) : 0 <= n -> digits_value (decimal_digits n) = n.
Proof.
  intros Hn. unfold decimal_digits. rewrite digits_value_fold.
  assert (H : forall u, fold_left digit_step (chars (NilZero.string_of_uint u)) 0 =
                        Z.of_N (N.of_uint u)).
  { intros u. destruct u; try apply fold_digits. reflexivity. }
  rewrite H, DecimalN.Unsigned.of_to. lia.
Qed.

(** It is made of digits, and it is not empty. *)
Lemma uint_digits (u : Decimal.uint) :
  forallb is_digit (chars (NilEmpty.string_of_uint u)) = true.
Proof.
  induction u; cbn [NilEmpty.string_of_uint list_ascii_of_string forallb];
    [reflexivity | rewrite IHu; reflexivity ..].
Qed.

Lemma decimal_digits_spec (n : Z) :
  forallb is_digit (decimal_digits n) = true /\ decimal_digits n <> [].
Proof.
  unfold decimal_digits.
  destruct (N.to_uint (Z.to_N n)) eqn:E; cbn [NilZero.string_of_uint];
    (split; [first [reflexivity | apply uint_digits] | cbn; discriminate]).
Qed.

Lemma str_of_int_digits (n : Z) :
  0 <= n -> chars (str_of_int n) = decimal_digits n.
Proof.
  intros Hn. unfold str_of_int, decimal_digits. destruct n as [| p | p]; try lia; reflexivity.
Qed.

(** A digit is no other character: no separator, no sign, no letter, no
    white space. *)
Lemma digit_code (c : ascii) : is_digit c = true -> 48 <= code c <= 57.
Proof. unfold is_digit. intros [H1 H2]%andb_prop. apply Z.leb_le in H1, H2. lia. Qed.

Lemma digit_neq (c d : ascii) :
  is_digit c = true -> is_digit d = false -> Ascii.eqb c d = false.
Proof.
  intros Hc Hd. destruct (Ascii.eqb c d) eqn:E; [|reflexivity].
  apply Ascii.eqb_eq in E. congruence.
Qed.

Lemma digit_not_space (c : ascii) : is_digit c = true -> is_space c = false.
Proof.
  intros Hc. apply digit_code in Hc. unfold is_space.
  repeat match goal with
         | |- context [?a <=? ?b] => replace (a <=? b) with false by (symmetry; apply Z.leb_gt; lia)
         | |- context [?a =? ?b] => replace (a =? b) with false by (symmetry; apply Z.eqb_neq; lia)
         end.
  rewrite !andb_false_r. reflexivity.
Qed.

Lemma digit_lower (c : ascii) : is_digit c = true -> lower c = c.
Proof.
  intros Hc. apply digit_code in Hc. unfold lower.
  replace (65 <=? code c) with false by (symmetry; apply Z.leb_gt; lia). reflexivity.
Qed.

(** [float] on a text of digits returns the float nearest to the number
    the digits write. *)
Lemma lstrip_head (c : ascii) (l : list ascii) :
  is_space c = false -> lstrip (c :: l) = c :: l.
Proof. intros Hc. cbn [lstrip]. rewrite Hc. reflexivity. Qed.

Lemma strip_digits (ds : list ascii) :
  forallb is_digit ds = true -> rstrip (lstrip ds) = ds.
Proof.
  intros Hds.
  assert (Hl : forall l, forallb is_digit l = true -> lstrip l = l).
  { intros [| c l]; [reflexivity|]. cbn [forallb]. intros [Hc _]%andb_prop.
    apply lstrip_head, digit_not_space, Hc. }
  rewrite (Hl ds Hds). unfold rstrip. rewrite Hl, rev_involutive; [reflexivity|].
  rewrite forallb_forall in *. intros c Hc. apply Hds, in_rev, Hc.
Qed.

Lemma drop_underscores_digits (ds : list ascii) (prev : ascii) :
  forallb is_digit ds = true -> Ascii.eqb prev "_" = false ->
  drop_underscores prev ds = Some ds.
Proof.
  revert prev. induction ds as [| c ds IH]; intros prev Hds Hprev; cbn [drop_underscores].
  - rewrite Hprev. reflexivity.
  - cbn [forallb] in Hds. apply andb_prop in Hds as [Hc Hds].
    rewrite (digit_neq c "_" Hc eq_refl), Hprev. cbn [andb].
    rewrite IH; [reflexivity | exact Hds | exact (digit_neq c "_" Hc eq_refl)].
Qed.

Lemma span_digits_all (ds : list ascii) :
  forallb is_digit ds = true -> span_digits ds = (ds, []).
Proof.
  induction ds as [| c ds IH]; cbn [span_digits forallb]; [reflexivity|].
  intros [Hc Hds]%andb_prop. rewrite Hc, (IH Hds). reflexivity.
Qed.

Lemma decimal_to_SF_int (n : Z) :
  0 <= n -> SF2Prim (decimal_to_SF false n 0) = Z2F n.
Proof.
  intros Hn. unfold decimal_to_SF, Z2F. destruct n as [| p | p]; try lia; [reflexivity|].
  cbn [Z.leb Z.compare Z.pow id]. rewrite Z.mul_1_r. reflexivity.
Qed.

Lemma parse_float_literal_digits (ds : list ascii) :
  forallb is_digit ds = true -> ds <> [] ->
  parse_float_literal ds = Some (Z2F (digits_value ds)).
Proof.
  intros Hds Hne. destruct ds as [| c t]; [congruence|].
  pose proof Hds as Hall. cbn [forallb] in Hds. apply andb_prop in Hds as [Hc Ht].
  unfold parse_float_literal.
  assert (Hsign : split_sign (c :: t) = (false, c :: t)).
  { unfold split_sign. rewrite (digit_neq c "-" Hc eq_refl), (digit_neq c "+" Hc eq_refl).
    reflexivity. }
  rewrite Hsign. cbn [map string_of_list_ascii]. rewrite (digit_lower c Hc).
  assert (Hword : forall (w : string) (a : ascii) (w' : string),
            is_digit a = false -> String.eqb (String c w) (String a w') = false).
  { intros w a w' Ha. cbn [String.eqb]. rewrite (digit_neq c a Hc Ha). reflexivity. }
  rewrite !Hword by reflexivity. cbn [orb].
  rewrite (span_digits_all _ Hall). rewrite app_nil_r.
  cbn [length Z.of_nat Z.opp]. rewrite decimal_to_SF_int; [reflexivity|].
  assert (Hnn : forall (l : list ascii) (acc : Z),
            forallb is_digit l = true -> 0 <= acc -> 0 <= fold_left digit_step l acc).
  { induction l as [| a l IH]; intros acc Hl Hacc; cbn [fold_left]; [exact Hacc|].
    cbn [forallb] in Hl. apply andb_prop in Hl as [Ha Hl]. apply IH; [exact Hl|].
    apply digit_code in Ha. cbn beta. lia. }
  rewrite digits_value_fold. apply Hnn; [exact Hall | lia].
Qed.

Lemma float_of_str_digits (ds : list ascii) :
  forallb is_digit ds = true -> ds <> [] ->
  float_of_str (string_of_list_ascii ds) = Return (Z2F (digits_value ds)).
Proof.
  intros Hds Hne. unfold float_of_str.
  rewrite list_ascii_of_string_of_list_ascii, (strip_digits ds Hds).
  rewrite (drop_underscores_digits ds "000" Hds eq_refl).
  rewrite (parse_float_literal_digits ds Hds Hne). reflexivity.
Qed.

(** Dropping the separators of [group_thousands], as [parse_number] does
    once they are spaces, gives the digits back. *)
Lemma ungroup (ds : list ascii) (k : nat) :
  forallb is_digit ds = true ->
  List.filter (fun c => negb (Ascii.eqb c " "))
    (map (fun c => if Ascii.eqb c "," then "."%char else c)
       (map (fun c => if Ascii.eqb c "," then " "%char else c) (group_thousands ds k))) = ds.
Proof.
  revert k. induction ds as [| d t IH]; intros k Hds; cbn [group_thousands]; [reflexivity|].
  cbn [forallb] in Hds. apply andb_prop in Hds as [Hd Ht].
  pose proof (digit_neq d "," Hd eq_refl) as Hcomma.
  pose proof (digit_neq d " " Hd eq_refl) as Hspace.
  destruct k as [| [| [| [| k]]]]; cbn [map List.filter]; cbn beta;
    rewrite ?Hcomma, ?Hspace; cbn [negb Ascii.eqb Bool.eqb];
    rewrite ?Hcomma, ?Hspace; cbn [negb];
    rewrite IH by exact Ht; reflexivity.
Qed.

(** The grouped digits end with a digit. *)
Lemma group_last (ds : list ascii) (k : nat) :
  ds <> [] -> forallb is_digit ds = true ->
  exists pre c, group_thousands ds k = (pre ++ [c])%list /\ is_digit c = true.
Proof.
  revert k. induction ds as [| d t IH]; intros k Hne Hds; [congruence|].
  cbn [forallb] in Hds. apply andb_prop in Hds as [Hd Ht].
  destruct (list_eq_nil_dec t) as [-> | Hne'].
  - destruct k as [| [| [| [| k]]]]; cbn [group_thousands];
      first [ exists [], d; split; [reflexivity | exact Hd]
            | exists [","%char], d; split; [reflexivity | exact Hd] ].
  - destruct k as [| [| [| [| k]]]]; cbn [group_thousands];
      match goal with
      | |- context [group_thousands t ?j] =>
          destruct (IH j Hne' Ht) as (pre & c & -> & Hc)
      end;
      first [ exists (d :: pre), c; split; [reflexivity | exact Hc]
            | exists (","%char :: d :: pre), c; split; [reflexivity | exact Hc] ].
Qed.

(** How many characters the grouped digits have, and where the
    separators are; [k] digits have been written since the last
    separator. *)
Lemma group_length (ds : list ascii) (k : nat) :
  (k <= 3)%nat ->
  length (group_thousands ds k) = (length ds + (length ds + k - 1) / 3)%nat.
Proof.
  revert k. induction ds as [| d t IH]; intros k Hk; cbn [group_thousands length].
  - destruct k as [| [| [| [| k]]]]; try lia; reflexivity.
  - destruct k as [| [| [| [| k]]]]; try lia; cbn [length]; rewrite IH by lia.
    + generalize (length t). intros a. 
      replace (S a + 0 - 1)%nat with a by lia. replace (a + 1 - 1)%nat with a by lia. lia.
    + generalize (length t). intros a. 
      replace (S a + 1 - 1)%nat with (a + 2 - 1)%nat by lia. lia.
    + generalize (length t). intros a. 
      replace (S a + 2 - 1)%nat with (a + 3 - 1)%nat by lia. lia.
    + generalize (length t). intros a.
      replace (a + 1 - 1)%nat with a by lia.
      replace (S a + 3 - 1)%nat with (a + 1 * 3)%nat by lia.
      rewrite Nat.div_add by lia. lia.
Qed.

Lemma group_positions (ds : list ascii) (k i : nat) :
  forallb is_digit ds = true -> (k <= 3)%nat ->
  (i < length (group_thousands ds k))%nat ->
  nth i (map (fun c => if Ascii.eqb c "," then " "%char else c) (group_thousands ds k))
      "0"%char = " "%char <->
  ((i + k) mod 4 = 3)%nat.
Proof.
  revert k i. induction ds as [| d t IH]; intros k i Hds Hk Hi; cbn [group_thousands] in *.
  - cbn in Hi. lia.
  - cbn [forallb] in Hds. apply andb_prop in Hds as [Hd Ht].
    pose proof (digit_neq d "," Hd eq_refl) as Hcomma.
    assert (Hdsp : d <> " "%char).
    { intros ->. discriminate Hd. }
    destruct k as [| [| [| [| k]]]]; try lia; cbn [map length] in *.
    + destruct i as [| i]; cbn [nth].
      * rewrite Hcomma. split; [congruence | intros Hm; cbn in Hm; lia].
      * rewrite (IH 1%nat i Ht) by lia.
        replace (S i + 0)%nat with (i + 1)%nat by lia. reflexivity.
    + destruct i as [| i]; cbn [nth].
      * rewrite Hcomma. split; [congruence | intros Hm; cbn in Hm; lia].
      * rewrite (IH 2%nat i Ht) by lia.
        replace (S i + 1)%nat with (i + 2)%nat by lia. reflexivity.
    + destruct i as [| i]; cbn [nth].
      * rewrite Hcomma. split; [congruence | intros Hm; cbn in Hm; lia].
      * rewrite (IH 3%nat i Ht) by lia.
        replace (S i + 2)%nat with (i + 3)%nat by lia. reflexivity.
    + destruct i as [| [| i]]; cbn [nth].
      * split; reflexivity.
      * rewrite Hcomma. split; [congruence | intros Hm; cbn in Hm; lia].
      * rewrite (IH 1%nat i Ht) by lia.
        replace (S (S i) + 3)%nat with (i + 1 + 1 * 4)%nat by lia.
        rewrite Nat.Div0.mod_add. reflexivity.
Qed.

(** [format_currency] on an integer amount shows the grouped decimal
    digits of the amount. *)
Lemma round_half_even_exact (n d : Z) :
  0 < d <= 53 -> round_half_even (n * 2 ^ (53 - d)) (d - 53) = n.
Proof.
  intros Hd. unfold round_half_even.
  destruct (Z.leb_spec 0 (d - 53)) as [Hge | Hlt].
  - replace d with 53 by lia. cbn. lia.
  - replace (- (d - 53)) with (53 - d) by lia.
    assert (Hp : 0 < 2 ^ (53 - d)) by (apply Z.pow_pos_nonneg; lia).
    rewrite Z.mod_mul, Z.div_mul by lia.
    replace (2 * 0 ?= 2 ^ (53 - d)) with Lt by (symmetry; apply Z.compare_lt_iff; lia).
    reflexivity.
Qed.

Lemma format_comma_0f_int (n : Z) :
  0 <= n < 2 ^ 53 ->
  format_comma_0f (Z2F n) =
    string_of_list_ascii (rev (group_thousands (rev (decimal_digits n)) 0)).
Proof.
  intros Hn. destruct (Z.eq_dec n 0) as [-> | Hnz]; [vm_compute; reflexivity|].
  destruct (Z2F_exact n ltac:(lia)) as (m & Hz & Hm).
  unfold format_comma_0f. rewrite Hz, Hm.
  pose proof (Zdigits2_bounds n ltac:(lia)) as HD.
  assert (H0 : 0 < Zdigits2 n) by (destruct n; cbn; lia).
  assert (HD53 : Zdigits2 n <= 53).
  { destruct (Z_le_gt_dec (Zdigits2 n) 53); [assumption|].
    assert (2 ^ 53 <= 2 ^ (Zdigits2 n - 1)) by (apply Z.pow_le_mono_r; lia). lia. }
  rewrite round_half_even_exact by lia. reflexivity.
Qed.

(** The text [format_currency] shows for an integer amount, without the
    currency. *)
Lemma shown_amount (n : Z) :
  0 <= n < 2 ^ 53 ->
  exists g : list ascii,
    g = group_thousands (rev (decimal_digits n)) 0 /\
    format_currency (Z2F n) =
      (string_of_list_ascii
         (rev (map (fun c => if Ascii.eqb c "," then " "%char else c) g)) ++ " RUB")%string.
Proof.
  intros Hn. eexists. split; [reflexivity|].
  unfold format_currency, replace_char. rewrite (format_comma_0f_int n Hn).
  rewrite list_ascii_of_string_of_list_ascii, map_rev. reflexivity.
Qed.

(** That text starts and ends with a digit, so [strip] leaves it as it
    is, and cleaning it gives the decimal digits of the amount. *)
Lemma shown_amount_ends (n : Z) (g : list ascii) :
  g = group_thousands (rev (decimal_digits n)) 0 ->
  exists (first last : ascii) (middle middle' : list ascii),
    g = first :: middle /\ g = (middle' ++ [last])%list /\
    is_digit first = true /\ is_digit last = true.
Proof.
  intros ->. destruct (decimal_digits_spec n) as [Hds Hne].
  assert (Hrev : forallb is_digit (rev (decimal_digits n)) = true).
  { rewrite forallb_forall in *. intros c Hc. apply Hds, in_rev, Hc. }
  assert (Hne' : rev (decimal_digits n) <> []).
  { intros E. apply (f_equal (@rev ascii)) in E. rewrite rev_involutive in E. auto. }
  destruct (group_last _ 0%nat Hne' Hrev) as (pre & c & Hg & Hc).
  destruct (rev (decimal_digits n)) as [| d t] eqn:E; [congruence|].
  cbn [forallb] in Hrev. apply andb_prop in Hrev as [Hd _].
  exists d, c, (group_thousands t 1), pre. auto.
Qed.

Lemma shown_amount_cleaned (n : Z) (g : list ascii) :
  g = group_thousands (rev (decimal_digits n)) 0 ->
  cleaned (string_of_list_ascii
             (rev (map (fun c => if Ascii.eqb c "," then " "%char else c) g))) =
    string_of_list_ascii (decimal_digits n).
Proof.
  intros Hg. destruct (shown_amount_ends n g Hg) as (d & c & mid & pre & Hhead & Hlast & Hd & Hc).
  destruct (decimal_digits_spec n) as [Hds Hne].
  unfold cleaned, strip, replace_char, remove_char.
  rewrite !list_ascii_of_string_of_list_ascii.
  set (r1 := fun c : ascii => if Ascii.eqb c "," then " "%char else c).
  assert (Hr1 : forall a, is_digit a = true -> r1 a = a).
  { intros a Ha. unfold r1. rewrite (digit_neq a "," Ha eq_refl). reflexivity. }
  assert (Hstrip : rstrip (lstrip (rev (map r1 g))) = rev (map r1 g)).
  { assert (Hl : lstrip (rev (map r1 g)) = rev (map r1 g)).
    { rewrite Hlast at 1. rewrite map_app, rev_app_distr. cbn [map rev app].
      rewrite lstrip_head by (rewrite Hr1 by exact Hc; apply digit_not_space, Hc).
      rewrite Hlast, map_app, rev_app_distr. reflexivity. }
    rewrite Hl. unfold rstrip. rewrite rev_involutive.
    rewrite Hhead at 1. cbn [map].
    rewrite lstrip_head by (rewrite Hr1 by exact Hd; apply digit_not_space, Hd).
    rewrite Hhead. reflexivity. }
  rewrite Hstrip. f_equal.
  rewrite map_rev, List.filter_rev. unfold r1. rewrite Hg, ungroup.
  - apply rev_involutive.
  - rewrite forallb_forall in *. intros a Ha. apply Hds, in_rev, Ha.
Qed.

(** Dropping the spaces alone gives the digits back as well. *)
Lemma ungroup_spaces (ds : list ascii) (k : nat) :
  forallb is_digit ds = true ->
  List.filter (fun c => negb (Ascii.eqb c " "))
    (map (fun c => if Ascii.eqb c "," then " "%char else c) (group_thousands ds k)) = ds.
Proof.
  revert k. induction ds as [| d t IH]; intros k Hds; cbn [group_thousands]; [reflexivity|].
  cbn [forallb] in Hds. apply andb_prop in Hds as [Hd Ht].
  pose proof (digit_neq d "," Hd eq_refl) as Hcomma.
  pose proof (digit_neq d " " Hd eq_refl) as Hspace.
  destruct k as [| [| [| [| k]]]]; cbn [map List.filter]; cbn beta;
    rewrite ?Hcomma, ?Hspace; cbn [negb Ascii.eqb Bool.eqb];
    rewrite ?Hcomma, ?Hspace; cbn [negb];
    rewrite IH by exact Ht; reflexivity.
Qed.

Lemma length_chars (s : string) : String.length s = length (chars s).
Proof. induction s as [| c s IH]; cbn; congruence. Qed.

End FormatFacts.
Import FormatFacts.

(** *** Magnitudes of products and quotients *)

Module MagnitudeFacts.

(** Bit lengths *)
Lemma Zdigits2_mono (a b : Z) : 0 < a <= b -> Zdigits2 a <= Zdigits2 b.
Proof.
  intros Hab.
  pose proof (Zdigits2_bounds a ltac:(lia)) as [Ha _].
  pose proof (Zdigits2_bounds b ltac:(lia)) as [_ Hb].
  destruct (Z_le_gt_dec (Zdigits2 a) (Zdigits2 b)) as [|Hgt]; [assumption|].
  assert (0 < Zdigits2 b) by (destruct b; cbn; lia).
  assert (2 ^ Zdigits2 b <= 2 ^ (Zdigits2 a - 1)) by (apply Z.pow_le_mono_r; lia). lia.
Qed.

Lemma Zdigits2_pos (a : Z) : 0 < a -> 0 < Zdigits2 a.
Proof. destruct a; cbn; lia. Qed.

Lemma Zdigits2_div_pow2 (m n : Z) :
  0 < m -> 0 <= n < Zdigits2 m ->
  0 < m / 2 ^ n /\ Zdigits2 (m / 2 ^ n) = Zdigits2 m - n.
Proof.
  intros Hm Hn.
  pose proof (Zdigits2_bounds m Hm) as [Hlo Hhi].
  set (d := Zdigits2 m) in *.
  assert (Hpn : 0 < 2 ^ n) by (apply Z.pow_pos_nonneg; lia).
  assert (Hq : 2 ^ (d - n - 1) <= m / 2 ^ n < 2 ^ (d - n)).
  { split.
    - apply Z.div_le_lower_bound; [lia|].
      rewrite <- Z.pow_add_r by lia. replace (n + (d - n - 1)) with (d - 1) by lia. exact Hlo.
    - apply Z.div_lt_upper_bound; [lia|].
      rewrite <- Z.pow_add_r by lia. replace (n + (d - n)) with d by lia. exact Hhi. }
  assert (0 < 2 ^ (d - n - 1)) by (apply Z.pow_pos_nonneg; lia).
  split; [lia|]. apply Zdigits2_unique; [lia | exact Hq].
Qed.

(** One shift of the rounding keeps a positive mantissa positive and the
    magnitude unchanged. *)
Lemma shr_fexp_magnitude (m e : Z) (l : location) :
  0 < m -> emin < Zdigits2 m + e ->
  0 < shr_m (fst (shr_fexp prec emax m e l)) /\
  Zdigits2 (shr_m (fst (shr_fexp prec emax m e l))) + snd (shr_fexp prec emax m e l) =
    Zdigits2 m + e.
Proof.
  intros Hm Hmag. unfold shr_fexp.
  set (n := fexp prec emax (Zdigits2 m + e) - e).
  assert (Hn : n < Zdigits2 m).
  { unfold n, fexp, SpecFloat.emin, prec, emax. lia. }
  destruct (Z_le_gt_dec n 0) as [Hle | Hgt].
  - assert (Hshr : shr (shr_record_of_loc m l) e n = (shr_record_of_loc m l, e)).
    { destruct n; try lia; reflexivity. }
    rewrite Hshr. cbn [fst snd]. rewrite shr_record_of_loc_m. auto.
  - pose proof (shr_m_div (shr_record_of_loc m l) e n) as Hs.
    rewrite shr_record_of_loc_m in Hs. destruct (Hs ltac:(lia) ltac:(lia)) as [-> ->].
    destruct (Zdigits2_div_pow2 m n Hm ltac:(lia)) as [Hq ->]. split; [exact Hq | lia].
Qed.

(** Rounding a positive mantissa whose value is at least the smallest
    positive float gives a positive float of at least the same magnitude,
    or an infinity. *)
Lemma binary_round_aux_magnitude (mx ex : Z) (lx : location) :
  0 < mx -> emin < Zdigits2 mx + ex ->
  at_least_pow2 (Zdigits2 mx + ex) (binary_round_aux prec emax false mx ex lx).
Proof.
  intros Hm Hmag. unfold binary_round_aux.
  destruct (shr_fexp_magnitude mx ex lx Hm Hmag) as [H1 H1'].
  destruct (shr_fexp prec emax mx ex lx) as [mrs' e'] eqn:E1. cbn [fst snd] in H1, H1'.
  set (r := round_nearest_even (shr_m mrs') (loc_of_shr_record mrs')).
  assert (Hr : shr_m mrs' <= r).
  { unfold r. destruct (round_nearest_even_cases (shr_m mrs') (loc_of_shr_record mrs')); lia. }
  pose proof (Zdigits2_mono (shr_m mrs') r ltac:(lia)) as Hd.
  destruct (shr_fexp_magnitude r e' loc_Exact ltac:(lia) ltac:(lia)) as [H2 H2'].
  destruct (shr_fexp prec emax r e' loc_Exact) as [mrs'' e''] eqn:E2. cbn [fst snd] in H2, H2'.
  destruct (shr_m mrs'') as [| m'' | m''] eqn:Em; try lia.
  destruct (e'' <=? emax - prec); [right | left; reflexivity].
  exists m'', e''. split; [reflexivity | lia].
Qed.

(** A number of some magnitude is positive. *)
Lemma at_least_pow2_positive (k : Z) (x : float) :
  at_least_pow2 k (Prim2SF x) -> (0 <? x)%float = true.
Proof.
  rewrite FloatAxioms.ltb_spec, Prim2SF_zero.
  intros [-> | (m & e & -> & _)]; reflexivity.
Qed.

Lemma at_least_pow2_weaken (k k' : Z) (x : spec_float) :
  k' <= k -> at_least_pow2 k x -> at_least_pow2 k' x.
Proof.
  intros Hk [-> | (m & e & -> & Hm)]; [left; reflexivity | right].
  exists m, e. split; [reflexivity | lia].
Qed.

(** The magnitude of a product is at least the sum of the magnitudes
    less one, unless the product underflows. *)
Lemma Zdigits2_mul (a b : positive) :
  Zdigits2 (Zpos a) + Zdigits2 (Zpos b) - 1 <= Zdigits2 (Zpos (a * b)).
Proof.
  pose proof (Zdigits2_bounds (Zpos a) ltac:(lia)) as [Ha _].
  pose proof (Zdigits2_bounds (Zpos b) ltac:(lia)) as [Hb _].
  pose proof (Zdigits2_bounds (Zpos (a * b)) ltac:(lia)) as [_ Hab].
  pose proof (Zdigits2_pos (Zpos a) ltac:(lia)).
  pose proof (Zdigits2_pos (Zpos b) ltac:(lia)).
  set (da := Zdigits2 (Zpos a)) in *. set (db := Zdigits2 (Zpos b)) in *.
  set (dab := Zdigits2 (Zpos (a * b))) in *.
  destruct (Z_le_gt_dec (da + db - 1) dab) as [|Hgt]; [assumption|]. exfalso.
  assert (Hp : 2 ^ (da - 1) * 2 ^ (db - 1) <= Zpos a * Zpos b).
  { apply Z.mul_le_mono_nonneg; try lia; apply Z.pow_nonneg; lia. }
  rewrite <- Z.pow_add_r in Hp by lia.
  assert (0 <= dab).
  { destruct (Z_lt_le_dec dab 0); [|lia]. rewrite Z.pow_neg_r in Hab by lia. lia. }
  assert (2 ^ dab <= 2 ^ (da - 1 + (db - 1))) by (apply Z.pow_le_mono_r; lia).
  rewrite Pos2Z.inj_mul in Hab. lia.
Qed.

Lemma SFmul_magnitude (x y : spec_float) (a b : Z) :
  at_least_pow2 a x -> at_least_pow2 b y -> emin < a + b - 1 ->
  at_least_pow2 (a + b - 1) (SFmul prec emax x y).
Proof.
  intros [-> | (mx & ex & -> & Hx)] [-> | (my & ey & -> & Hy)] Hab;
    try (left; reflexivity).
  cbn [SFmul xorb].
  pose proof (Zdigits2_mul mx my) as Hd.
  apply (at_least_pow2_weaken (Zdigits2 (Zpos (mx * my)) + (ex + ey))); [lia|].
  apply binary_round_aux_magnitude; lia.
Qed.

Lemma mul_magnitude (x y : float) (a b : Z) :
  at_least_pow2 a (Prim2SF x) -> at_least_pow2 b (Prim2SF y) -> emin < a + b - 1 ->
  at_least_pow2 (a + b - 1) (Prim2SF (x * y)).
Proof. intros Hx Hy Hab. rewrite FloatAxioms.mul_spec. apply SFmul_magnitude; assumption. Qed.

(** The magnitude of a quotient is at least the difference of the
    magnitudes, unless the quotient underflows. *)
Lemma SFdiv_magnitude (x : spec_float) (my : positive) (ey a b : Z) :
  at_least_pow2 a x -> Zdigits2 (Zpos my) + ey <= b -> emin < a - b ->
  at_least_pow2 (a - b) (SFdiv prec emax x (S754_finite false my ey)).
Proof.
  intros [-> | (mx & ex & -> & Hx)] Hy Hab; [left; reflexivity|].
  cbn [SFdiv xorb]. unfold SFdiv_core_binary.
  set (d1 := Zdigits2 (Zpos mx)) in *. set (d2 := Zdigits2 (Zpos my)) in *.
  pose proof (Zdigits2_bounds (Zpos mx) ltac:(lia)) as [Hx1 Hx2]. fold d1 in Hx1, Hx2.
  pose proof (Zdigits2_bounds (Zpos my) ltac:(lia)) as [Hy1 Hy2]. fold d2 in Hy1, Hy2.
  pose proof (Zdigits2_pos (Zpos mx) ltac:(lia)) as Hd1. fold d1 in Hd1.
  pose proof (Zdigits2_pos (Zpos my) ltac:(lia)) as Hd2. fold d2 in Hd2.
  set (e' := Z.min (fexp prec emax (d1 + ex - (d2 + ey))) (ex - ey)).
  set (s := ex - ey - e').
  assert (Hs : d2 - d1 < s /\ 0 <= s).
  { unfold s, e', fexp, SpecFloat.emin, prec, emax. lia. }
  assert (Hm' : match s with
                | 0 => Zpos mx
                | Zpos _ => Z.shiftl (Zpos mx) s
                | Zneg _ => 0
                end = Zpos mx * 2 ^ s).
  { destruct s as [| p | p] eqn:Es; try lia.
    apply Z.shiftl_mul_pow2. lia. }
  rewrite Hm', div_eucl_div_mod.
  set (q := Zpos mx * 2 ^ s / Zpos my).
  assert (Hq : 2 ^ (d1 + s - d2 - 1) <= q).
  { unfold q. apply Z.div_le_lower_bound; [lia|].
    transitivity (2 ^ d2 * 2 ^ (d1 + s - d2 - 1)).
    - apply Z.mul_le_mono_nonneg_r; [apply Z.pow_nonneg; lia | lia].
    - rewrite <- Z.pow_add_r by lia. replace (d2 + (d1 + s - d2 - 1)) with (d1 - 1 + s) by lia.
      rewrite Z.pow_add_r by lia. apply Z.mul_le_mono_nonneg_r; [apply Z.pow_nonneg; lia | lia]. }
  assert (Hq0 : 0 < 2 ^ (d1 + s - d2 - 1)) by (apply Z.pow_pos_nonneg; lia).
  assert (Hdq : d1 + s - d2 <= Zdigits2 q).
  { pose proof (Zdigits2_bounds q ltac:(lia)) as [_ Hhi].
    destruct (Z_le_gt_dec (d1 + s - d2) (Zdigits2 q)) as [|Hgt]; [assumption|]. exfalso.
    pose proof (Zdigits2_pos q ltac:(lia)).
    assert (2 ^ Zdigits2 q <= 2 ^ (d1 + s - d2 - 1)) by (apply Z.pow_le_mono_r; lia). lia. }
  apply (at_least_pow2_weaken (Zdigits2 q + e')); [unfold s in *; lia|].
  apply binary_round_aux_magnitude; [lia | unfold s in *; lia].
Qed.

(** Subtracting one from a finite number above one gives a finite
    positive number. *)
Lemma sub_one_finite (g : float) (m : positive) (e : Z) :
  Prim2SF g = S754_finite false m e ->
  2 ^ 52 <= Zpos m < 2 ^ 53 ->
  (-52 < e \/ (e = -52 /\ 2 ^ 52 < Zpos m)) ->
  exists (m' : positive) (e' : Z), Prim2SF (g - 1) = S754_finite false m' e'.
Proof.
  intros Hg Hm He.
  pose proof (sub_one_nonzero g m e Hg Hm He) as Hnz.
  pose proof (Prim2SF_valid g) as Hv. rewrite Hg in Hv.
  destruct (valid_finite_normal false m e Hv ltac:(lia)) as [_ He971].
  revert Hnz.
  rewrite FloatAxioms.eqb_spec, FloatAxioms.sub_spec, Hg, Prim2SF_one, Prim2SF_zero.
  unfold one_SF. cbn [SF64sub SFsub cond_Zopp].
  replace (Z.min e (-52)) with (-52) by lia.
  pose proof (shl_align_spec m e (-52)) as H1.
  destruct (shl_align m e (-52)) as [a ea].
  assert (Ha : Zpos a = Zpos m * 2 ^ (e + 52)).
  { destruct H1 as [H1 H2]. destruct He as [He | [He Hm']].
    - destruct (H1 He) as [_ ->]. replace (e - -52) with (e + 52) by lia. reflexivity.
    - destruct (H2 ltac:(lia)) as [_ ->]. subst e. cbn. lia. }
  change (shl_align 4503599627370496 (-52) (-52)) with (4503599627370496%positive, -52).
  cbn [fst].
  assert (Hk : 0 <= e + 52) by lia.
  assert (Hpk : 0 < 2 ^ (e + 52)) by (apply Z.pow_pos_nonneg; lia).
  assert (Hgt : 2 ^ 52 < Zpos a).
  { destruct He as [He | [He Hm']].
    - assert (2 <= 2 ^ (e + 52)) by (change 2 with (2 ^ 1) at 1; apply Z.pow_le_mono_r; lia).
      nia.
    - subst e. cbn in Ha. lia. }
  destruct (Zpos a - 4503599627370496) as [| p | p] eqn:Ed; try (cbn in *; lia).
  cbn [binary_normalize]. intros _.
  assert (HP : Zpos p < Zpos m * 2 ^ (e + 52)) by lia.
  pose proof (Zdigits2_bounds (Zpos p) ltac:(lia)) as [HD1 HD2].
  pose proof (Zdigits2_pos (Zpos p) ltac:(lia)) as HD0.
  set (D := Zdigits2 (Zpos p)) in *.
  assert (HDhi : D <= 53 + (e + 52)).
  { destruct (Z_le_gt_dec D (53 + (e + 52))) as [|Hbig]; [assumption|]. exfalso.
    assert (2 ^ (53 + (e + 52)) <= 2 ^ (D - 1)) by (apply Z.pow_le_mono_r; lia).
    rewrite Z.pow_add_r in H by lia. nia. }
  unfold binary_round.
  change (Zpos (digits2_pos p)) with (Zdigits2 (Zpos p)). fold D.
  rewrite fexp_normal by lia.
  pose proof (shl_align_spec p (-52) (D + -52 - 53)) as Hs.
  destruct (shl_align p (-52) (D + -52 - 53)) as [mz ez]. destruct Hs as [Hs1 Hs2].
  destruct (Z_lt_le_dec (D + -52 - 53) (-52)) as [Hlt | Hge].
  - destruct (Hs1 Hlt) as [-> Hmz].
    assert (Hdz : Zdigits2 (Zpos mz) = 53).
    { apply Zdigits2_unique; [lia|]. rewrite Hmz.
      replace (-52 - (D + -52 - 53)) with (53 - D) by lia.
      replace (2 ^ (53 - 1)) with (2 ^ (D - 1) * 2 ^ (53 - D))
        by (rewrite <- Z.pow_add_r by lia; f_equal; lia).
      replace (2 ^ 53) with (2 ^ D * 2 ^ (53 - D))
        by (rewrite <- Z.pow_add_r by lia; f_equal; lia).
      assert (0 < 2 ^ (53 - D)) by (apply Z.pow_pos_nonneg; lia). nia. }
    rewrite binary_round_aux_exact by (auto; lia). eauto.
  - destruct (Hs2 Hge) as [-> ->].
    destruct (binary_round_aux_normal false (Zpos p) (-52) loc_Exact)
      as (m' & e' & Hr & Hm' & Hcase); fold D; [lia | lia | lia |].
    fold D in Hcase. rewrite Hr.
    assert (He' : e' <= 971).
    { destruct Hcase as [[-> _] | (-> & _ & Hcarry)]; [lia|].
      destruct (Z.eq_dec D (53 + (e + 52))) as [HD | HD]; [|lia]. exfalso.
      replace (D - 53) with (e + 52) in Hcarry by lia.
      assert (Zpos p / 2 ^ (e + 52) < Zpos m) by (apply Z.div_lt_upper_bound; lia).
      lia. }
    replace (e' <=? 971) with true by (symmetry; apply Z.leb_le; exact He'). eauto.
Qed.

(** The magnitude of a finite float is at most 1024, and that of a normal
    number is 53 plus its exponent. *)
Lemma valid_magnitude (s : bool) (m : positive) (e : Z) :
  valid_binary (S754_finite s m e) = true -> Zdigits2 (Zpos m) + e <= 1024.
Proof.
  cbn [SpecFloat.valid_binary]. unfold bounded, canonical_mantissa.
  intros Hv. apply andb_prop in Hv as [Hc Hb].
  apply Z.eqb_eq in Hc. apply Z.leb_le in Hb.
  change (Zpos (digits2_pos m)) with (Zdigits2 (Zpos m)) in Hc.
  unfold fexp, SpecFloat.emin, prec, emax in *. lia.
Qed.

Lemma normal_magnitude (m : positive) (e : Z) :
  2 ^ 52 <= Zpos m < 2 ^ 53 -> Zdigits2 (Zpos m) + e = 53 + e.
Proof. intros Hm. f_equal. apply Zdigits2_unique; cbn in *; lia. Qed.

(** A float that is at least one. *)
Lemma at_least_one (p : float) :
  (1 <=? p)%float = true -> at_least_pow2 1 (Prim2SF p).
Proof.
  rewrite FloatAxioms.leb_spec, Prim2SF_one. unfold one_SF.
  pose proof (Prim2SF_valid p) as Hv.
  destruct (Prim2SF p) as [s | s | | s m e]; unfold SFleb, SFcompare; try discriminate.
  - destruct s; [discriminate|]. intros _. left. reflexivity.
  - destruct s; [discriminate|].
    destruct (-52 ?= e) eqn:C; try discriminate; intros _.
    + apply Z.compare_eq in C. subst e.
      destruct (valid_finite_normal false m (-52) Hv ltac:(lia)) as [Hm _].
      right. exists m, (-52). split; [reflexivity|]. rewrite normal_magnitude by exact Hm. lia.
    + rewrite Z.compare_lt_iff in C.
      destruct (valid_finite_normal false m e Hv ltac:(lia)) as [Hm _].
      right. exists m, e. split; [reflexivity|]. rewrite normal_magnitude by exact Hm. lia.
Qed.

(** The monthly rate of a rate the bot admits. *)
Lemma monthly_rate_magnitude (rate : float) :
  (MIN_INTEREST_RATE <=? rate)%float = true ->
  (rate <=? MAX_INTEREST_RATE)%float = true ->
  at_least_pow2 (-14) (Prim2SF (rate / 12 / 100)).
Proof.
  intros Hlo Hhi.
  assert (Hmin : Prim2SF MIN_INTEREST_RATE = S754_finite false 7205759403792794 (-56))
    by (vm_compute; reflexivity).
  assert (Hmax : Prim2SF MAX_INTEREST_RATE = S754_finite false 8444249301319680 (-48))
    by (vm_compute; reflexivity).
  assert (H12 : Prim2SF 12 = S754_finite false 6755399441055744 (-49))
    by (vm_compute; reflexivity).
  assert (H100 : Prim2SF 100 = S754_finite false 7036874417766400 (-46))
    by (vm_compute; reflexivity).
  destruct (between_normal rate _ _ _ _ _ _ Hmin Hmax ltac:(lia) Hlo Hhi)
    as (m & e & Hr & Hm & He & _).
  destruct (div_normal rate 12 m _ e _ Hr H12 Hm ltac:(lia) ltac:(lia) ltac:(lia))
    as (ma & ea & Ha & Hma & Hea).
  destruct (div_normal (rate / 12) 100 ma _ ea _ Ha H100 Hma ltac:(lia) ltac:(lia) ltac:(lia))
    as (mb & eb & Hb & Hmb & Heb).
  right. exists mb, eb. split; [exact Hb|]. rewrite normal_magnitude by exact Hmb. lia.
Qed.

(** The number of months, as a float. *)
Lemma months_magnitude (n : Z) :
  12 <= n <= 360 -> at_least_pow2 4 (Prim2SF (Z2F n)).
Proof.
  intros Hn. destruct (Z2F_exact n ltac:(lia)) as (m & Hz & Hm).
  pose proof (Zdigits2_mono 8 n ltac:(lia)) as Hd. change (Zdigits2 8) with 4 in Hd.
  pose proof (Zdigits2_bounds n ltac:(lia)) as [Hlo Hhi].
  assert (Hd9 : Zdigits2 n <= 9).
  { destruct (Z_le_gt_dec (Zdigits2 n) 9); [assumption|].
    assert (2 ^ 9 <= 2 ^ (Zdigits2 n - 1)) by (apply Z.pow_le_mono_r; lia). lia. }
  right. exists m, (Zdigits2 n - 53). split; [exact Hz|].
  assert (Hm53 : Zdigits2 (Zpos m) = 53).
  { apply Zdigits2_unique; [lia|]. rewrite Hm.
    set (d := Zdigits2 n) in *.
    replace (2 ^ (53 - 1)) with (2 ^ (d - 1) * 2 ^ (53 - d))
      by (rewrite <- Z.pow_add_r by lia; f_equal; lia).
    replace (2 ^ 53) with (2 ^ d * 2 ^ (53 - d))
      by (rewrite <- Z.pow_add_r by lia; f_equal; lia).
    assert (0 < 2 ^ (53 - d)) by (apply Z.pow_pos_nonneg; lia). nia. }
  lia.
Qed.

End MagnitudeFacts.
Import MagnitudeFacts.

(** *** Accepted answers *)

Module ConversationFacts.

(** Updating a stored session is storing the updated session. *)
Lemma alter_present (f : session -> session) (chat_id : Z) (ss : gmap Z session) (s : session) :
  ss !! chat_id = Some s -> alter f chat_id ss = <[chat_id := f s]> ss.
Proof.
  intros Hs. apply map_eq. intros i. destruct (decide (i = chat_id)) as [-> | Hne].
  - rewrite lookup_alter_eq, lookup_insert_eq, Hs. reflexivity.
  - rewrite lookup_alter_ne, lookup_insert_ne by auto. reflexivity.
Qed.

(** What the first three handlers do with a text they accept. *)
Lemma handle_loan_amount_accepts (chat_id : Z) (text : string) (ss : gmap Z session)
    (s : session) (a : float) :
  ss !! chat_id = Some s ->
  parse_number text = Return (Some a) -> (a <=? 0)%float = false ->
  handle_loan_amount chat_id text ss =
    (<[chat_id := set_loan_amount a s]> ss,
     Return (loan_amount_accepted a, Goto DOWN_PAYMENT)).
Proof.
  intros Hs Hp Ha. unfold handle_loan_amount. run_action. rewrite Hp, Ha, Hs.
  cbn [fst snd]. rewrite (alter_present _ _ _ _ Hs). reflexivity.
Qed.

Lemma handle_down_payment_accepts (chat_id : Z) (text : string) (ss : gmap Z session)
    (s : session) (d l : float) :
  ss !! chat_id = Some s -> loan_amount s = Some l ->
  parse_number text = Return (Some d) ->
  (d <? 0)%float = false -> (l <=? d)%float = false ->
  handle_down_payment chat_id text ss =
    (<[chat_id := set_down_payment d s]> ss,
     Return (down_payment_accepted d, Goto LOAN_TERM)).
Proof.
  intros Hs Hl Hp Hd Hld. unfold handle_down_payment. run_action. rewrite Hp, Hs.
  cbn [fst snd]. rewrite Hl, Hd, Hld. rewrite (alter_present _ _ _ _ Hs). reflexivity.
Qed.

Lemma handle_loan_term_accepts (chat_id : Z) (text : string) (ss : gmap Z session)
    (s : session) (y : float) (n : Z) :
  ss !! chat_id = Some s ->
  parse_number text = Return (Some y) ->
  ((Z2F MIN_LOAN_TERM_YEARS <=? y)%float && (y <=? Z2F MAX_LOAN_TERM_YEARS)%float) = true ->
  int_of_float y = Return n ->
  handle_loan_term chat_id text ss =
    (<[chat_id := set_loan_term n s]> ss,
     Return (loan_term_accepted n, Goto INTEREST_RATE)).
Proof.
  intros Hs Hp Hy Hn. unfold handle_loan_term. run_action. rewrite Hp, Hy. cbn [negb].
  rewrite Hs, Hn. cbn [fst snd]. rewrite (alter_present _ _ _ _ Hs). reflexivity.
Qed.

(** An update that is not its [/start] leaves a chat without session and
    conversation as it is. *)
Lemma absent_chat_step `{Libm} (b : bot) (chat_id c : Z) (u : update) :
  sessions b !! chat_id = None -> conversations b !! chat_id = None ->
  match u with
  | Command name => bool_decide (c = chat_id) && String.eqb name "start"
  | Message _ => false
  end = false ->
  sessions (after (process_update b c u)) !! chat_id = None /\
  conversations (after (process_update b c u)) !! chat_id = None.
Proof.
  intros Hs Hc Hstart.
  destruct (decide (c = chat_id)) as [-> | Hne].
  - assert (Hsel : conv_handler (conversations b !! chat_id) u = None).
    { rewrite Hc. destruct u as [name | text]; [|reflexivity].
      rewrite bool_decide_eq_true_2 in Hstart by reflexivity.
      cbn in Hstart. cbn. rewrite Hstart. reflexivity. }
    unfold process_update. rewrite Hsel. cbn [after]. auto.
  - destruct (process_update_local b c u) as [Hframe _].
    destruct (Hframe chat_id Hne) as [-> ->]. auto.
Qed.

Section WithLibm.
Context `{Libm} (Hsane : libm_sane).

(** One accepted answer at each step, in terms of the bot. *)
Lemma answer_loan_amount (b : bot) (chat_id : Z) (text : string) (s : session) (a : float) :
  conversations b !! chat_id = Some LOAN_AMOUNT -> sessions b !! chat_id = Some s ->
  parse_number text = Return (Some a) -> (a <=? 0)%float = false ->
  after (process_update b chat_id (Message text)) =
    {| sessions := <[chat_id := set_loan_amount a s]> (sessions b);
       conversations := <[chat_id := DOWN_PAYMENT]> (conversations b) |}.
Proof.
  intros Hc Hs Hp Ha. unfold process_update. rewrite Hc. cbn [conv_handler].
  rewrite (handle_loan_amount_accepts chat_id text _ s a Hs Hp Ha). reflexivity.
Qed.

Lemma answer_down_payment (b : bot) (chat_id : Z) (text : string) (s : session) (d l : float) :
  conversations b !! chat_id = Some DOWN_PAYMENT -> sessions b !! chat_id = Some s ->
  loan_amount s = Some l ->
  parse_number text = Return (Some d) ->
  (d <? 0)%float = false -> (l <=? d)%float = false ->
  after (process_update b chat_id (Message text)) =
    {| sessions := <[chat_id := set_down_payment d s]> (sessions b);
       conversations := <[chat_id := LOAN_TERM]> (conversations b) |}.
Proof.
  intros Hc Hs Hl Hp Hd Hld. unfold process_update. rewrite Hc. cbn [conv_handler].
  rewrite (handle_down_payment_accepts chat_id text _ s d l Hs Hl Hp Hd Hld). reflexivity.
Qed.

Lemma answer_loan_term (b : bot) (chat_id : Z) (text : string) (s : session) (y : float)
    (n : Z) :
  conversations b !! chat_id = Some LOAN_TERM -> sessions b !! chat_id = Some s ->
  parse_number text = Return (Some y) ->
  ((Z2F MIN_LOAN_TERM_YEARS <=? y)%float && (y <=? Z2F MAX_LOAN_TERM_YEARS)%float) = true ->
  int_of_float y = Return n ->
  after (process_update b chat_id (Message text)) =
    {| sessions := <[chat_id := set_loan_term n s]> (sessions b);
       conversations := <[chat_id := INTEREST_RATE]> (conversations b) |}.
Proof.
  intros Hc Hs Hp Hy Hn. unfold process_update. rewrite Hc. cbn [conv_handler].
  rewrite (handle_loan_term_accepts chat_id text _ s y n Hs Hp Hy Hn). reflexivity.
Qed.

Lemma answer_interest_rate (b : bot) (chat_id : Z) (text : string) (a d r : float) (y : Z) :
  conversations b !! chat_id = Some INTEREST_RATE ->
  sessions b !! chat_id =
    Some (set_loan_term y (set_down_payment d (set_loan_amount a empty_session))) ->
  MIN_LOAN_TERM_YEARS <= y <= MAX_LOAN_TERM_YEARS ->
  parse_number text = Return (Some r) ->
  ((MIN_INTEREST_RATE <=? r)%float && (r <=? MAX_INTEREST_RATE)%float) = true ->
  after (process_update b chat_id (Message text)) =
    {| sessions := delete chat_id (sessions b);
       conversations := delete chat_id (conversations b) |}.
Proof.
  intros Hc Hs Hy Hp Hr. unfold process_update. rewrite Hc. cbn [conv_handler].
  destruct (handle_interest_rate_accepts Hsane chat_id text _ a d r y Hs Hy Hp Hr)
    as (result & _ & ->).
  reflexivity.
Qed.

End WithLibm.

End ConversationFacts.
Import ConversationFacts.

(** *** Steps of the application *)

Module StepFacts.

#[local] Open Scope string_scope.








(** The fields before a step are those at the positions below its own. *)
Lemma fields_before_positions (st : conv_state) (s : session) :
  fields_before st s = true <->
  forall i : nat, (i < position st)%nat -> field_is_set i s = true.
Proof.
  unfold fields_before, all_set. destruct st; cbn [position]; split.
  - intros _ i Hi. lia.
  - reflexivity.
  - intros Hs [|i] Hi; [exact Hs | lia].
  - intros Hs. apply (Hs 0%nat). lia.
  - intros Hs [|[|i]] Hi; try lia; apply andb_prop in Hs as [H0 H1]; assumption.
  - intros Hs. apply andb_true_intro. split; [apply (Hs 0%nat) | apply (Hs 1%nat)]; lia.
  - intros Hs [|[|[|i]]] Hi; try lia;
      apply andb_prop in Hs as [Hs H2]; apply andb_prop in Hs as [H0 H1]; assumption.
  - intros Hs. apply andb_true_intro. split; [apply andb_true_intro; split|];
      [apply (Hs 0%nat) | apply (Hs 1%nat) | apply (Hs 2%nat)]; lia.
Qed.

Section Steps.
Context `{Libm} (Hsane : libm_sane).







End Steps.

End StepFacts.
Import StepFacts.

(** *** Cleaning a text *)

Module CleaningFacts.

(** Stripping commutes with a replacement of characters that keeps white
    space white space and the rest the rest. *)
Lemma lstrip_map (f : ascii -> ascii) (l : list ascii) :
  (forall c, is_space (f c) = is_space c) -> lstrip (map f l) = map f (lstrip l).
Proof.
  intros Hf. induction l as [| c l IH]; cbn [map lstrip]; [reflexivity|].
  rewrite Hf. destruct (is_space c); [exact IH | reflexivity].
Qed.

Lemma strip_map (f : ascii -> ascii) (l : list ascii) :
  (forall c, is_space (f c) = is_space c) ->
  rstrip (lstrip (map f l)) = map f (rstrip (lstrip l)).
Proof.
  intros Hf. unfold rstrip.
  rewrite lstrip_map, <- map_rev, lstrip_map, map_rev by exact Hf. reflexivity.
Qed.

(** Stripping commutes with the removal of spaces. *)
Lemma lstrip_filter (l : list ascii) :
  lstrip (List.filter (fun c => negb (Ascii.eqb c " ")) l) =
    List.filter (fun c => negb (Ascii.eqb c " ")) (lstrip l).
Proof.
  induction l as [| c l IH]; cbn [List.filter lstrip]; [reflexivity|].
  destruct (Ascii.eqb c " ") eqn:Hc; cbn [negb].
  - apply Ascii.eqb_eq in Hc. subst c. exact IH.
  - cbn [lstrip]. destruct (is_space c); [exact IH|].
    cbn [List.filter]. rewrite Hc. reflexivity.
Qed.

Lemma strip_filter (l : list ascii) :
  rstrip (lstrip (List.filter (fun c => negb (Ascii.eqb c " ")) l)) =
    List.filter (fun c => negb (Ascii.eqb c " ")) (rstrip (lstrip l)).
Proof.
  unfold rstrip.
  rewrite lstrip_filter, <- List.filter_rev, lstrip_filter, List.filter_rev. reflexivity.
Qed.

Lemma comma_to_point_space (c : ascii) :
  is_space (if Ascii.eqb c "," then "."%char else c) = is_space c.
Proof.
  destruct (Ascii.eqb c ",") eqn:Hc; [|reflexivity].
  apply Ascii.eqb_eq in Hc. subst c. reflexivity.
Qed.

Lemma comma_to_point_twice (l : list ascii) :
  map (fun c => if Ascii.eqb c "," then "."%char else c)
    (map (fun c => if Ascii.eqb c "," then "."%char else c) l) =
  map (fun c => if Ascii.eqb c "," then "."%char else c) l.
Proof.
  rewrite map_map. apply map_ext. intros c.
  destruct (Ascii.eqb c ",") eqn:Hc; [reflexivity | rewrite Hc; reflexivity].
Qed.

Lemma comma_to_point_filter (l : list ascii) :
  map (fun c => if Ascii.eqb c "," then "."%char else c)
    (List.filter (fun c => negb (Ascii.eqb c " ")) l) =
  List.filter (fun c => negb (Ascii.eqb c " "))
    (map (fun c => if Ascii.eqb c "," then "."%char else c) l).
Proof.
  induction l as [| c l IH]; cbn [map List.filter]; [reflexivity|].
  destruct (Ascii.eqb c ",") eqn:Hc.
  - apply Ascii.eqb_eq in Hc. subst c. cbn [Ascii.eqb Bool.eqb negb map]. rewrite IH. reflexivity.
  - destruct (Ascii.eqb c " ") eqn:Hs; cbn [negb map]; rewrite ?Hc, IH; reflexivity.
Qed.

Lemma filter_twice (l : list ascii) :
  List.filter (fun c => negb (Ascii.eqb c " "))
    (List.filter (fun c => negb (Ascii.eqb c " ")) l) =
  List.filter (fun c => negb (Ascii.eqb c " ")) l.
Proof.
  induction l as [| c l IH]; cbn [List.filter]; [reflexivity|].
  destruct (negb (Ascii.eqb c " ")) eqn:Hc; cbn [List.filter]; rewrite ?Hc, IH; reflexivity.
Qed.

Lemma cleaned_comma (text : string) : cleaned (replace_char "," "." text) = cleaned text.
Proof.
  unfold cleaned, strip, replace_char, remove_char.
  rewrite !list_ascii_of_string_of_list_ascii.
  rewrite strip_map by exact comma_to_point_space.
  rewrite comma_to_point_twice. reflexivity.
Qed.

Lemma cleaned_spaces (text : string) : cleaned (remove_char " " text) = cleaned text.
Proof.
  unfold cleaned, strip, replace_char, remove_char.
  rewrite !list_ascii_of_string_of_list_ascii.
  rewrite strip_filter, comma_to_point_filter, filter_twice. reflexivity.
Qed.

End CleaningFacts.
Import CleaningFacts.

#[local] Open Scope string_scope.

(** *** Formatting amounts *)

(** X1: for every integer amount from 0 to below [2 ^ 53], [format_currency]
    shows a text followed by [" RUB"], and [parse_number] reads that text
    back as the same amount: what the bot displays it also accepts. *)
Theorem displayed_amounts_parse_back (n : Z) :
  0 <= n < 2 ^ 53 ->
  exists shown : string,
    format_currency (Z2F n) = (shown ++ " RUB")%string /\
    parse_number shown = Return (Some (Z2F n)).
Proof.
  intros Hn. destruct (shown_amount n Hn) as (g & Hg & Hshown).
  eexists. split; [exact Hshown|].
  unfold parse_number.
  change (remove_char " " (replace_char "," "." (strip ?s))) with (cleaned s).
  rewrite (shown_amount_cleaned n g Hg).
  destruct (decimal_digits_spec n) as [Hds Hne].
  rewrite (float_of_str_digits _ Hds Hne), digits_value_decimal by lia. reflexivity.
Qed.

(** The amount 5,000,000. *)
Lemma displayed_amounts_parse_back_witness :
  exists shown : string,
    format_currency (Z2F 5000000) = (shown ++ " RUB")%string /\
    parse_number shown = Return (Some (Z2F 5000000)).
Proof. apply (displayed_amounts_parse_back 5000000). lia. Defined.

(** X2: for every integer amount from 0 to below [2 ^ 53], the text
    [format_currency] shows before [" RUB"] is the decimal text of the
    amount with single spaces inserted; counted from the right, its
    characters at the positions 3, 7, 11, ... are the spaces, and there is
    no space at its left end (its length is that of the digits plus one
    for every complete group of three digits that has a digit before
    it). *)
Theorem thousands_are_separated (n : Z) :
  0 <= n < 2 ^ 53 ->
  exists shown : string,
    format_currency (Z2F n) = (shown ++ " RUB")%string /\
    remove_char " " shown = str_of_int n /\
    String.length shown =
      (String.length (str_of_int n) + (String.length (str_of_int n) - 1) / 3)%nat /\
    forall i : nat,
      (i < String.length shown)%nat ->
      nth i (rev (chars shown)) "0"%char = " "%char <-> (i mod 4 = 3)%nat.
Proof.
  intros Hn. destruct (shown_amount n Hn) as (g & Hg & Hshown).
  eexists. split; [exact Hshown|].
  destruct (decimal_digits_spec n) as [Hds Hne].
  assert (Hrev : forallb is_digit (rev (decimal_digits n)) = true).
  { rewrite forallb_forall in *. intros c Hc. apply Hds, in_rev, Hc. }
  assert (Hstr : str_of_int n = string_of_list_ascii (decimal_digits n)).
  { rewrite <- (str_of_int_digits n) by lia. symmetry. apply string_of_list_ascii_of_string. }
  assert (Hlen : String.length (str_of_int n) = length (decimal_digits n)).
  { rewrite length_chars, str_of_int_digits by lia. reflexivity. }
  split; [|split].
  - unfold remove_char. rewrite list_ascii_of_string_of_list_ascii, Hstr. f_equal.
    rewrite List.filter_rev, Hg, ungroup_spaces by exact Hrev. apply rev_involutive.
  - rewrite length_chars, list_ascii_of_string_of_list_ascii, List.length_rev, List.length_map.
    rewrite Hg, group_length, List.length_rev, Hlen by lia.
    rewrite Nat.add_0_r. reflexivity.
  - intros i Hi.
    rewrite length_chars, list_ascii_of_string_of_list_ascii, List.length_rev, List.length_map
      in Hi.
    rewrite list_ascii_of_string_of_list_ascii, rev_involutive, Hg.
    rewrite Hg in Hi.
    rewrite (group_positions _ 0 i Hrev) by (lia || exact Hi).
    rewrite Nat.add_0_r. reflexivity.
Qed.

(** The amount 1,234,567: seven digits and two spaces. *)
Lemma thousands_are_separated_witness :
  exists shown : string,
    format_currency (Z2F 1234567) = (shown ++ " RUB")%string /\
    remove_char " " shown = "1234567"%string /\
    String.length shown = 9%nat.
Proof.
  destruct (thousands_are_separated 1234567) as (shown & Hshown & Hdigits & Hlen & _); [lia|].
  exists shown. split; [exact Hshown|]. split; [exact Hdigits | exact Hlen].
Defined.

(** *** Parsing

    X17: [parse_number] reads a comma as a decimal point and ignores
    spaces wherever they are: replacing the commas of a text by points, or
    removing its spaces, does not change what it returns. *)
Theorem separators_are_normalised (text : string) :
  parse_number (replace_char "," "." text) = parse_number text /\
  parse_number (remove_char " " text) = parse_number text.
Proof.
  unfold parse_number.
  change (remove_char " " (replace_char "," "." (strip ?s))) with (cleaned s).
  rewrite cleaned_comma, cleaned_spaces. split; reflexivity.
Qed.

(** *** The calculator at the edges *)

(** X3: with a term of 0 years the calculator raises [ZeroDivisionError]
    for every loan amount, down payment and rate: at rate 0 it divides the
    principal by 0 months, and otherwise the growth factor to the power 0
    is 1, which makes the denominator of the annuity formula 0. *)
Theorem zero_years_divides_by_zero `{Libm} (loan_amount down_payment rate : float) :
  calculate_monthly_payment loan_amount down_payment 0 rate = Raise ZeroDivisionError.
Proof.
  unfold calculate_monthly_payment. cbn [Z.mul].
  destruct (rate =? 0)%float.
  - reflexivity.
  - unfold float_pow. cbn [float_of_int bind].
    change (float_of_int 0) with (Return 0%float). cbn [bind].
    change (0 =? 0)%float with true. cbn [bind]. reflexivity.
Qed.

(** X4: for every loan amount and down payment, a term of
    [MIN_LOAN_TERM_YEARS] to [MAX_LOAN_TERM_YEARS] years and a rate from
    [MIN_INTEREST_RATE] to [MAX_INTEREST_RATE], the calculator returns (it
    raises neither [ZeroDivisionError] nor [OverflowError]), and the
    record it returns holds the principal [loan_amount - down_payment],
    the annuity payment, its product with the number of months, that
    product less the principal, and [years * 12] months. *)
Theorem calculator_returns_in_the_configured_range `{Libm}
    (loan_amount down_payment rate : float) (years : Z) :
  libm_sane ->
  MIN_LOAN_TERM_YEARS <= years <= MAX_LOAN_TERM_YEARS ->
  (MIN_INTEREST_RATE <=? rate)%float = true ->
  (rate <=? MAX_INTEREST_RATE)%float = true ->
  let monthly_rate := (rate / 12 / 100)%float in
  let growth := libm_pow (1 + monthly_rate) (Z2F (years * 12)) in
  let p := (loan_amount - down_payment)%float in
  let mp := (p * (monthly_rate * growth) / (growth - 1))%float in
  calculate_monthly_payment loan_amount down_payment years rate =
    Return {| principal := p;
              monthly_payment := mp;
              total_payment := (mp * Z2F (years * 12))%float;
              total_interest := (mp * Z2F (years * 12) - p)%float;
              months := years * 12 |}.
Proof.
  intros Hsane Hy Hlo Hhi. apply (calculate_returns Hsane); assumption.
Qed.

(** The third test of the repository: 3,000,000 over 20 years at 10%. *)
Lemma calculator_returns_in_the_configured_range_witness :
  exists result : payment,
    @calculate_monthly_payment reference_libm 3000000 0 20 10 = Return result /\
    principal result = 3000000%float /\ months result = 240.
Proof.
  pose proof (@calculator_returns_in_the_configured_range reference_libm 3000000 0 10 20
                reference_libm_sane) as Hcalc.
  cbv zeta in Hcalc. eexists. split.
  - apply Hcalc; [unfold MIN_LOAN_TERM_YEARS, MAX_LOAN_TERM_YEARS; lia | reflexivity | reflexivity].
  - cbn [principal months]. split; [vm_compute; reflexivity | reflexivity].
Defined.

(** X5: for a principal of at least 1, a term of 1 to 30 years and a rate
    in the configured range, the monthly payment and the total payment the
    calculator returns are strictly positive (an overflow to the positive
    infinity included): no rounding step of the formula reaches zero or a
    negative number. *)
Theorem payments_are_positive `{Libm} (loan_amount down_payment rate : float) (years : Z) :
  libm_sane ->
  MIN_LOAN_TERM_YEARS <= years <= MAX_LOAN_TERM_YEARS ->
  (MIN_INTEREST_RATE <=? rate)%float = true ->
  (rate <=? MAX_INTEREST_RATE)%float = true ->
  (1 <=? loan_amount - down_payment)%float = true ->
  exists result : payment,
    calculate_monthly_payment loan_amount down_payment years rate = Return result /\
    (0 <? monthly_payment result)%float = true /\
    (0 <? total_payment result)%float = true.
Proof.
  intros Hsane Hy Hlo Hhi Hp. unfold MIN_LOAN_TERM_YEARS, MAX_LOAN_TERM_YEARS in Hy.
  pose proof (calculate_returns Hsane loan_amount down_payment rate years Hy Hlo Hhi) as Hcalc.
  cbv zeta in Hcalc. eexists. split; [exact Hcalc|].
  cbn [monthly_payment total_payment].
  set (r := (rate / 12 / 100)%float) in *.
  set (g := libm_pow (1 + r) (Z2F (years * 12))).
  set (p := (loan_amount - down_payment)%float) in *.
  destruct (growth_base rate Hlo Hhi) as (mx & Hx & Hmx). fold r in Hx.
  destruct (one_two_ltb _ mx Hx Hmx) as (H1 & H2 & _).
  destruct (Hsane _ (years * 12) H1 H2 ltac:(lia)) as [Hg1 Hg2]. fold g in Hg1, Hg2.
  destruct (above_one_finite g Hg1 Hg2) as (mg & eg & Hg & Hmg & Heg).
  destruct (sub_one_finite g mg eg Hg Hmg Heg) as (md & ed & Hd).
  pose proof (Prim2SF_valid (g - 1)) as Hvd. rewrite Hd in Hvd.
  apply valid_magnitude in Hvd.
  assert (Mg : at_least_pow2 1 (Prim2SF g)).
  { right. exists mg, eg. split; [exact Hg|]. rewrite normal_magnitude by exact Hmg. lia. }
  pose proof (monthly_rate_magnitude rate Hlo Hhi) as Mr. fold r in Mr.
  pose proof (at_least_one p Hp) as Mp.
  pose proof (mul_magnitude r g _ _ Mr Mg ltac:(lia)) as Mrg.
  pose proof (mul_magnitude p (r * g) _ _ Mp Mrg ltac:(lia)) as Mn.
  assert (Mmp : at_least_pow2 (1 + (-14 + 1 - 1) - 1 - 1024)
                  (Prim2SF (p * (r * g) / (g - 1)))).
  { rewrite FloatAxioms.div_spec, Hd. apply SFdiv_magnitude; [exact Mn | exact Hvd | lia]. }
  split.
  - exact (at_least_pow2_positive _ _ Mmp).
  - pose proof (months_magnitude (years * 12) ltac:(lia)) as Mm.
    exact (at_least_pow2_positive _ _ (mul_magnitude _ _ _ _ Mmp Mm ltac:(lia))).
Qed.

(** The standard test of the repository: 5,000,000 with 1,000,000 down,
    over 15 years at 12%. *)
Lemma payments_are_positive_witness :
  exists result : payment,
    @calculate_monthly_payment reference_libm 5000000 1000000 15 12 = Return result /\
    (0 <? monthly_payment result)%float = true /\
    (0 <? total_payment result)%float = true.
Proof.
  apply (@payments_are_positive reference_libm 5000000 1000000 12 15 reference_libm_sane).
  - unfold MIN_LOAN_TERM_YEARS, MAX_LOAN_TERM_YEARS. lia.
  - reflexivity.
  - reflexivity.
  - reflexivity.
Defined.

(** *** The session store *)

(** X6: [get_session] returns the session the store holds for the chat
    afterwards, which is the one it held before if there was one and a
    new all-[None] session otherwise, and calling it again changes
    nothing; [clear_session] leaves no session for the chat, and doing it
    again changes nothing; after [clear_session], [get_session] creates a
    new all-[None] session whatever the chat had stored; and
    [clear_session] undoes [get_session]. *)
Theorem session_store_round_trips (chat_id : Z) (ss : gmap Z session) :
  (exists s : session,
     get_session chat_id ss = (fst (get_session chat_id ss), Return s) /\
     fst (get_session chat_id ss) !! chat_id = Some s /\
     s = default empty_session (ss !! chat_id)) /\
  get_session chat_id (fst (get_session chat_id ss)) = get_session chat_id ss /\
  fst (clear_session chat_id ss) !! chat_id = None /\
  clear_session chat_id (fst (clear_session chat_id ss)) = clear_session chat_id ss /\
  get_session chat_id (fst (clear_session chat_id ss)) =
    (<[chat_id := empty_session]> ss, Return empty_session) /\
  clear_session chat_id (fst (get_session chat_id ss)) = clear_session chat_id ss.
Proof.
  unfold get_session, clear_session. cbn [fst].
  repeat split.
  - destruct (ss !! chat_id) as [s|] eqn:Hs; cbn [fst default].
    + exists s. rewrite Hs. auto.
    + exists empty_session. rewrite lookup_insert_eq. auto.
  - destruct (ss !! chat_id) as [s|] eqn:Hs; cbn [fst].
    + rewrite Hs. reflexivity.
    + rewrite lookup_insert_eq. reflexivity.
  - apply lookup_delete_eq.
  - rewrite delete_delete_eq. reflexivity.
  - rewrite lookup_delete_eq, insert_delete_eq. reflexivity.
  - destruct (ss !! chat_id) as [s|] eqn:Hs; cbn [fst]; [reflexivity|].
    rewrite delete_insert_eq. reflexivity.
Qed.

(** *** Commands *)





(** *** The first three steps *)

(** X10: on a text that parses to a number other than NaN, the
    loan-amount handler stores the number and enters the down-payment step
    exactly when the number is greater than 0, and the down-payment
    handler, the stored loan amount being a number [l] other than NaN,
    stores it and enters the term step exactly when it is at least 0 and
    less than [l]; otherwise they reply with their error message, stay at
    their step and leave the store as it was. A stored field replaces the
    field of that step only. *)
Theorem amounts_are_gated_on_numbers (chat_id : Z) (text : string) (ss : gmap Z session)
    (s : session) (a : float) :
  parse_number text = Return (Some a) -> is_nan a = false ->
  ss !! chat_id = Some s ->
  handle_loan_amount chat_id text ss =
    (if (0 <? a)%float
     then (<[chat_id := set_loan_amount a s]> ss,
           Return (loan_amount_accepted a, Goto DOWN_PAYMENT))
     else (ss, Return (loan_amount_error, Goto LOAN_AMOUNT))) /\
  (forall l : float,
     loan_amount s = Some l -> is_nan l = false ->
     handle_down_payment chat_id text ss =
       (if (0 <=? a)%float && (a <? l)%float
        then (<[chat_id := set_down_payment a s]> ss,
              Return (down_payment_accepted a, Goto LOAN_TERM))
        else (ss, Return (if (a <? 0)%float then down_payment_error
                          else down_payment_too_large a l, Goto DOWN_PAYMENT)))).
Proof.
  intros Hp Ha Hs. split.
  - destruct (amount_guards_on_numbers a a Ha Ha) as [Hpos _].
    destruct (0 <? a)%float eqn:E.
    + apply handle_loan_amount_accepts; [exact Hs | exact Hp |]. apply Hpos. reflexivity.
    + unfold handle_loan_amount. run_action. rewrite Hp.
      destruct (a <=? 0)%float eqn:E'; [reflexivity|].
      destruct Hpos as [Hpos _]. discriminate (Hpos eq_refl).
  - intros l Hl Hnl.
    destruct (amount_guards_on_numbers a l Ha Hnl) as [_ Hdown].
    destruct ((0 <=? a)%float && (a <? l)%float) eqn:E.
    + apply andb_prop in E. apply Hdown in E as [E1 E2].
      apply (handle_down_payment_accepts chat_id text ss s a l); assumption.
    + unfold handle_down_payment. run_action. rewrite Hp, Hs. cbn [fst snd]. rewrite Hl.
      destruct (a <? 0)%float eqn:E1; [reflexivity|].
      destruct (l <=? a)%float eqn:E2; [reflexivity|].
      destruct Hdown as [Hdown _]. destruct (Hdown (conj eq_refl eq_refl)) as [E3 E4].
      rewrite E3, E4 in E. discriminate E.
Qed.

(** A negative loan amount is refused, and a down payment of 0 against a
    loan amount of 5,000,000 is accepted. *)
Lemma amounts_are_gated_on_numbers_witness :
  handle_loan_amount 7 "-5" {[7 := empty_session]} =
    ({[7 := empty_session]}, Return (loan_amount_error, Goto LOAN_AMOUNT)) /\
  handle_down_payment 7 "0" {[7 := set_loan_amount 5000000 empty_session]} =
    (<[7 := set_down_payment 0 (set_loan_amount 5000000 empty_session)]>
       {[7 := set_loan_amount 5000000 empty_session]},
     Return (down_payment_accepted 0, Goto LOAN_TERM)).
Proof.
  split.
  - destruct (amounts_are_gated_on_numbers 7 "-5" {[7 := empty_session]} empty_session (-5))
      as [Hamount _];
      [vm_compute; reflexivity | reflexivity | apply lookup_singleton_eq |].
    exact Hamount.
  - destruct (amounts_are_gated_on_numbers 7 "0" {[7 := set_loan_amount 5000000 empty_session]}
                (set_loan_amount 5000000 empty_session) 0)
      as [_ Hdown];
      [vm_compute; reflexivity | reflexivity | apply lookup_singleton_eq |].
    exact (Hdown 5000000%float eq_refl eq_refl).
Defined.

(** X11: at the loan-term step the handler re-prompts exactly when the
    text is not a number from [MIN_LOAN_TERM_YEARS] to
    [MAX_LOAN_TERM_YEARS] (1 to 30); a re-prompt sends the range error and
    leaves the store as it was. Every number in that range is finite, so
    unlike the two amount handlers this one refuses [nan] and [inf]; it
    also refuses [0,99] and [30.5]. *)
Theorem term_range_decides_acceptance (chat_id : Z) (text : string) (ss : gmap Z session) :
  (exists years : option float,
     parse_number text = Return years /\
     reprompts LOAN_TERM (snd (handle_loan_term chat_id text ss)) =
       match years with
       | Some y =>
           negb ((Z2F MIN_LOAN_TERM_YEARS <=? y)%float && (y <=? Z2F MAX_LOAN_TERM_YEARS)%float)
       | None => true
       end /\
     (reprompts LOAN_TERM (snd (handle_loan_term chat_id text ss)) = true ->
      handle_loan_term chat_id text ss = (ss, Return (loan_term_error, Goto LOAN_TERM)))) /\
  (forall y : float,
     ((Z2F MIN_LOAN_TERM_YEARS <=? y)%float && (y <=? Z2F MAX_LOAN_TERM_YEARS)%float) = true ->
     is_finite y = true) /\
  handle_loan_term chat_id "nan" ss = (ss, Return (loan_term_error, Goto LOAN_TERM)) /\
  handle_loan_term chat_id "inf" ss = (ss, Return (loan_term_error, Goto LOAN_TERM)) /\
  handle_loan_term chat_id "0,99" ss = (ss, Return (loan_term_error, Goto LOAN_TERM)) /\
  handle_loan_term chat_id "30.5" ss = (ss, Return (loan_term_error, Goto LOAN_TERM)).
Proof.
  split; [|split].
  - destruct (parse_number_returns text) as [years Hp]. exists years.
    split; [exact Hp|].
    unfold handle_loan_term. run_action. rewrite Hp.
    destruct years as [y|]; [|split; reflexivity].
    destruct ((Z2F MIN_LOAN_TERM_YEARS <=? y)%float && (y <=? Z2F MAX_LOAN_TERM_YEARS)%float)
      eqn:Hy; cbn [negb]; [|split; reflexivity].
    apply andb_prop in Hy as [Hlo Hhi].
    destruct (int_of_float_years y Hlo Hhi) as (n & Hn & _). rewrite Hn.
    destruct (ss !! chat_id); cbn [fst snd]; (split; [reflexivity | discriminate]).
  - intros y Hy. apply andb_prop in Hy as [Hlo Hhi].
    assert (H1 : Prim2SF (Z2F MIN_LOAN_TERM_YEARS) = S754_finite false 4503599627370496 (-52))
      by (vm_compute; reflexivity).
    assert (H30 : Prim2SF (Z2F MAX_LOAN_TERM_YEARS) = S754_finite false 8444249301319680 (-48))
      by (vm_compute; reflexivity).
    destruct (between_normal y _ _ _ _ _ _ H1 H30 ltac:(lia) Hlo Hhi) as (m & e & Hy & _).
    destruct (finite_pos_props y m e Hy) as (Hnan & Hinf & _).
    unfold is_finite. rewrite Hnan, Hinf. reflexivity.
  - repeat (split; [unfold handle_loan_term; run_action;
                    match goal with
                    | |- context [parse_number ?t] =>
                        let v := eval vm_compute in (parse_number t) in
                        replace (parse_number t) with v by (vm_compute; reflexivity)
                    end;
                    match goal with
                    | |- context [negb ?c] =>
                        replace (negb c) with true by (vm_compute; reflexivity)
                    end; reflexivity|]).
    unfold handle_loan_term; run_action.
    replace (parse_number "30.5") with (Return (Some 30.5%float)) by (vm_compute; reflexivity).
    replace (negb _) with true by (vm_compute; reflexivity). reflexivity.
Qed.

(** X12: a term the handler accepts need not be a whole number: the
    handler stores its integer part [n] ([int(years)], truncation), which
    lies from 1 to 30 and satisfies [n <= years < n + 1]; it replies with
    the acknowledgement that shows [n], and enters the rate step. *)
Theorem loan_term_is_truncated (chat_id : Z) (text : string) (ss : gmap Z session)
    (y : float) :
  parse_number text = Return (Some y) ->
  (Z2F MIN_LOAN_TERM_YEARS <=? y)%float = true ->
  (y <=? Z2F MAX_LOAN_TERM_YEARS)%float = true ->
  exists n : Z,
    MIN_LOAN_TERM_YEARS <= n <= MAX_LOAN_TERM_YEARS /\
    (Z2F n <=? y)%float = true /\ (y <? Z2F (n + 1))%float = true /\
    handle_loan_term chat_id text ss =
      (alter (set_loan_term n) chat_id (fst (get_session chat_id ss)),
       Return (loan_term_accepted n, Goto INTEREST_RATE)).
Proof.
  intros Hp Hlo Hhi.
  destruct (years_truncation y Hlo Hhi) as (n & Hn & Hrange & Hle & Hlt).
  exists n. split; [exact Hrange|]. split; [exact Hle|]. split; [exact Hlt|].
  unfold handle_loan_term. run_action. rewrite Hp, Hlo, Hhi. cbn [negb andb].
  destruct (ss !! chat_id); cbn [fst snd]; rewrite Hn; reflexivity.
Qed.

(** A term of 15,9 years is stored as 15. *)
Lemma loan_term_is_truncated_witness :
  snd (handle_loan_term 7 "15,9" {[7 := empty_session]}) =
    Return (loan_term_accepted 15, Goto INTEREST_RATE).
Proof.
  destruct (loan_term_is_truncated 7 "15,9" {[7 := empty_session]} 15.9)
    as (n & Hrange & Hle & Hlt & ->);
    [vm_compute; reflexivity | vm_compute; reflexivity | vm_compute; reflexivity |].
  cbn [snd]. unfold MIN_LOAN_TERM_YEARS, MAX_LOAN_TERM_YEARS in Hrange.
  assert (Hall : forallb (fun k => negb ((Z2F k <=? 15.9)%float && (15.9 <? Z2F (k + 1))%float)
                                  || (k =? 15)%Z)
                   (map Z.of_nat (seq 1 30)) = true) by (vm_compute; reflexivity).
  rewrite forallb_forall in Hall.
  assert (Hin : In n (map Z.of_nat (seq 1 30))).
  { rewrite <- (Z2Nat.id n) by lia. apply in_map, in_seq. lia. }
  specialize (Hall n Hin). rewrite Hle, Hlt in Hall. cbn [andb negb orb] in Hall.
  apply Z.eqb_eq in Hall as Hn.
  rewrite Hn. reflexivity.
Defined.

(** *** Conversations *)

(** X13: a text message moves a conversation forward by one step at most:
    after it the conversation is at the same step or at the next one, and
    it has ended only if it was at the rate step. No text skips a step or
    goes back. *)
Theorem text_moves_one_step_at_most `{Libm} (b : bot) (chat_id : Z) (text : string)
    (st : conv_state) :
  conversations b !! chat_id = Some st ->
  match conversations (after (process_update b chat_id (Message text))) !! chat_id with
  | Some st' => position st' = position st \/ position st' = S (position st)
  | None => st = INTEREST_RATE
  end.
Proof.
  intros Hc. unfold process_update. rewrite Hc.
  destruct (parse_number_returns text) as [v Hp].
  destruct st; cbn [conv_handler].
  - unfold handle_loan_amount. run_action. rewrite Hp.
    destruct v as [a|]; [destruct (a <=? 0)%float|]; cbn [after conversations];
      try (destruct (sessions b !! chat_id); cbn [fst snd after conversations]);
      rewrite lookup_insert_eq; cbn; auto.
  - unfold handle_down_payment. run_action. rewrite Hp.
    destruct (sessions b !! chat_id) as [s|]; cbn [fst snd];
      cbn [loan_amount empty_session];
      (destruct v as [a|]; [destruct (a <? 0)%float|]);
      try (destruct (loan_amount s) as [l|]; [destruct (l <=? a)%float|]);
      cbn [after conversations]; rewrite ?lookup_insert_eq, ?Hc; cbn; auto.
  - unfold handle_loan_term. run_action. rewrite Hp.
    destruct v as [y|]; [destruct (negb _)|]; cbn [after conversations];
      try (destruct (sessions b !! chat_id); cbn [fst snd];
           destruct (int_of_float y); cbn [fst snd after conversations]);
      rewrite ?lookup_insert_eq, ?Hc; cbn; auto.
  - unfold handle_interest_rate. run_action. rewrite Hp.
    destruct v as [r|]; [destruct (negb _)|]; cbn [after conversations];
      try (destruct (sessions b !! chat_id) as [s|]; cbn [fst snd];
           cbn [loan_amount down_payment loan_term empty_session];
           try (destruct (loan_amount s), (down_payment s), (loan_term s));
           cbn [fst snd after conversations];
           try (destruct (calculate_monthly_payment _ _ _ r); cbn [fst snd after conversations]));
      rewrite ?lookup_insert_eq, ?lookup_delete_eq, ?Hc; cbn; auto.
Qed.

(** A rate of 99 at the rate prompt of the scenario: the conversation
    stays at the rate step. *)
Lemma text_moves_one_step_at_most_witness :
  conversations (after (@process_update reference_libm scenario_bot 7 (Message "99"))) !! 7 =
    Some INTEREST_RATE.
Proof.
  pose proof (@text_moves_one_step_at_most reference_libm scenario_bot 7 "99" INTEREST_RATE
                (proj2 scenario_bot_state)) as Hstep.
  destruct (conversations _ !! 7) as [st'|] eqn:E.
  - destruct st'; cbn in Hstep; try (exfalso; lia). reflexivity.
  - exfalso. revert E. vm_compute. discriminate.
Defined.

(** X14: whatever updates the bot has processed since it started, of
    whatever chats, a chat that has not sent [/start] among them has no
    session and is in no conversation: nothing but [/start] creates a
    session. *)
Theorem no_session_without_start `{Libm} (chat_id : Z) (updates : list (Z * update)) :
  sends_start chat_id updates = false ->
  sessions (run initial updates) !! chat_id = None /\
  conversations (run initial updates) !! chat_id = None.
Proof.
  assert (Hgen : forall b : bot,
            sessions b !! chat_id = None -> conversations b !! chat_id = None ->
            sends_start chat_id updates = false ->
            sessions (run b updates) !! chat_id = None /\
            conversations (run b updates) !! chat_id = None).
  { induction updates as [| [c u] rest IH]; intros b Hs Hc Hstart; cbn [run]; [auto|].
    unfold sends_start in Hstart. cbn [existsb fst snd] in Hstart.
    apply orb_false_elim in Hstart as [Hu Hrest].
    destruct (absent_chat_step b chat_id c u Hs Hc Hu) as [Hs' Hc'].
    apply IH; assumption. }
  intros Hstart. apply Hgen; [apply lookup_empty | apply lookup_empty | exact Hstart].
Qed.

(** Chat 1 sends numbers and [/cancel] while chat 2 starts a conversation:
    chat 1 has no session. *)
Lemma no_session_without_start_witness :
  sessions (@run reference_libm initial
              [(1, Message "5000000"); (2, Command "start"); (1, Command "cancel");
               (1, Message "12"); (2, Message "5000000")]) !! 1 = None.
Proof.
  apply (@no_session_without_start reference_libm 1). reflexivity.
Defined.

(** X15: the exceptions that escape the handlers. In every state the
    application reaches, by whatever updates of whatever users and chats,
    a handler raises nothing but [AttributeError] and [TypeError]:
    [AttributeError] only on an edited message, for which
    [update.message] is [None]; [TypeError] only on a new text message of
    a user at the down-payment step or at the rate step whose chat has a
    session without the loan amount, the down payment or the term (or no
    session). [ZeroDivisionError], [OverflowError] and [ValueError] never
    escape. A new text message that raises nothing gets a reply. *)
Theorem only_two_exceptions_escape `{Libm} (w : application) (u : incoming) :
  libm_sane -> served w ->
  match raised (dispatch w u) with
  | None =>
      edited u = false ->
      forall text : string, content u = Message text ->
      exists answer : string, sent (dispatch w u) = Some answer
  | Some AttributeError => edited u = true
  | Some TypeError =>
      edited u = false /\
      (exists text : string, content u = Message text) /\
      (states w !! (chat u, user u) = Some DOWN_PAYMENT \/
       states w !! (chat u, user u) = Some INTEREST_RATE) /\
      all_set (default empty_session (store w !! chat u)) = false
  | Some _ => False
  end.
Proof.
  intros Hsane Hw. pose proof (served_terms_in_range Hsane w Hw) as Hterms.
  unfold dispatch.
  destruct (conv_handler_update (states w !! (chat u, user u)) u) as [handler|] eqn:Hsel.
  - destruct (conv_handler_update_raises Hsane _ u handler (store w) Hsel Hterms) as [_ Hr].
    destruct (handler (store w)) as [ss' [[text next] | e]]; cbn [snd raised sent] in *.
    + eauto.
    + exact Hr.
  - destruct (other_handlers (content u)) as [text|] eqn:Ho.
    + unfold reply_update, message_attribute. destruct (edited u); cbn; eauto.
    + cbn [raised sent]. intros _ text Hc. rewrite Hc in Ho. discriminate Ho.
Qed.

(** The edit of [/start] at the rate prompt of the scenario raises
    [AttributeError], and the rate 12 sent after it raises [TypeError]. *)
Lemma only_two_exceptions_escape_witness :
  edited edited_start = true /\
  (edited (message_from 7 7 (Message "12")) = false /\
   (exists text : string, content (message_from 7 7 (Message "12")) = Message text) /\
   (states (@serve reference_libm started (scenario_updates ++ [edited_start])) !! (7, 7) =
      Some DOWN_PAYMENT \/
    states (@serve reference_libm started (scenario_updates ++ [edited_start])) !! (7, 7) =
      Some INTEREST_RATE) /\
   all_set (default empty_session
              (store (@serve reference_libm started (scenario_updates ++ [edited_start])) !! 7)) =
     false).
Proof.
  split.
  - assert (Hserved : @served reference_libm scenario_application)
      by (exists scenario_updates; reflexivity).
    pose proof (@only_two_exceptions_escape reference_libm scenario_application edited_start
                  reference_libm_sane Hserved) as Hraised.
    assert (Herr : raised (@dispatch reference_libm scenario_application edited_start) =
                   Some AttributeError) by (vm_compute; reflexivity).
    rewrite Herr in Hraised. exact Hraised.
  - assert (Hserved : @served reference_libm
                        (@serve reference_libm started (scenario_updates ++ [edited_start])))
      by (eexists; reflexivity).
    pose proof (@only_two_exceptions_escape reference_libm _ (message_from 7 7 (Message "12"))
                  reference_libm_sane Hserved) as Hraised.
    assert (Herr : raised (@dispatch reference_libm
                             (@serve reference_libm started (scenario_updates ++ [edited_start]))
                             (message_from 7 7 (Message "12"))) =
                   Some TypeError) by (vm_compute; reflexivity).
    rewrite Herr in Hraised. exact Hraised.
Defined.

(** X16: a complete conversation leaves no trace. From any state of the
    bot, [/start] followed by four texts that pass the guards of the four
    steps ends with the report of the calculator on the four values (the
    term truncated to an integer), and afterwards the sessions and the
    conversations are what they were before with the entries of the chat
    removed: none of the collected values stays in memory. *)
Theorem conversation_leaves_no_trace `{Libm} (b : bot) (chat_id : Z)
    (amount down term rate : string) (a d y r : float) :
  libm_sane ->
  parse_number amount = Return (Some a) -> (a <=? 0)%float = false ->
  parse_number down = Return (Some d) ->
  (d <? 0)%float = false -> (a <=? d)%float = false ->
  parse_number term = Return (Some y) ->
  ((Z2F MIN_LOAN_TERM_YEARS <=? y)%float && (y <=? Z2F MAX_LOAN_TERM_YEARS)%float) = true ->
  parse_number rate = Return (Some r) ->
  ((MIN_INTEREST_RATE <=? r)%float && (r <=? MAX_INTEREST_RATE)%float) = true ->
  exists (n : Z) (result : payment),
    int_of_float y = Return n /\
    calculate_monthly_payment a d n r = Return result /\
    reply (process_update
             (run b [(chat_id, Command "start"); (chat_id, Message amount);
                     (chat_id, Message down); (chat_id, Message term)])
             chat_id (Message rate)) =
      Some (results_message a d n r result) /\
    run b (conversation chat_id amount down term rate) =
      {| sessions := delete chat_id (sessions b);
         conversations := delete chat_id (conversations b) |}.
Proof.
  intros Hsane Hpa Ha Hpd Hd Had Hpy Hy Hpr Hr.
  apply andb_prop in Hy as Hy'. destruct Hy' as [Hylo Hyhi].
  destruct (int_of_float_years y Hylo Hyhi) as (n & Hn & Hrange).
  set (s3 := set_loan_term n (set_down_payment d (set_loan_amount a empty_session))).
  assert (Hrun4 : run b [(chat_id, Command "start"); (chat_id, Message amount);
                         (chat_id, Message down); (chat_id, Message term)] =
                  {| sessions := <[chat_id := s3]> (sessions b);
                     conversations := <[chat_id := INTEREST_RATE]> (conversations b) |}).
  { cbn [run].
    assert (Hstart : process_update b chat_id (Command "start") =
              {| after := {| sessions := <[chat_id := empty_session]> (sessions b);
                             conversations := <[chat_id := LOAN_AMOUNT]> (conversations b) |};
                 reply := Some welcome_message; error := None |}).
    { unfold process_update.
      assert (Hsel : conv_handler (conversations b !! chat_id) (Command "start") = Some start)
        by (destruct (conversations b !! chat_id) as [[]|]; reflexivity).
      rewrite Hsel. unfold start. run_action. rewrite lookup_delete_eq. cbn [fst snd].
      rewrite insert_delete_eq. reflexivity. }
    rewrite Hstart. cbn [after].
    unfold process_update at 3. cbn [conversations sessions].
    rewrite lookup_insert_eq. cbn [conv_handler].
    rewrite (handle_loan_amount_accepts chat_id amount _ empty_session a
               (lookup_insert_eq _ _ _) Hpa Ha).
    cbn [after]. rewrite !insert_insert_eq.
    unfold process_update at 2. cbn [conversations sessions].
    rewrite lookup_insert_eq. cbn [conv_handler].
    rewrite (handle_down_payment_accepts chat_id down _ (set_loan_amount a empty_session) d a
               (lookup_insert_eq _ _ _) eq_refl Hpd Hd Had).
    cbn [after]. rewrite !insert_insert_eq.
    unfold process_update. cbn [conversations sessions].
    rewrite lookup_insert_eq. cbn [conv_handler].
    rewrite (handle_loan_term_accepts chat_id term _
               (set_down_payment d (set_loan_amount a empty_session)) y n
               (lookup_insert_eq _ _ _) Hpy Hy Hn).
    cbn [after]. rewrite !insert_insert_eq. reflexivity. }
  destruct (handle_interest_rate_accepts Hsane chat_id rate (<[chat_id := s3]> (sessions b))
              a d r n (lookup_insert_eq _ _ _) Hrange Hpr Hr) as (result & Hcalc & Hlast).
  assert (Hturn : process_update
                    {| sessions := <[chat_id := s3]> (sessions b);
                       conversations := <[chat_id := INTEREST_RATE]> (conversations b) |}
                    chat_id (Message rate) =
                  {| after := {| sessions := delete chat_id (sessions b);
                                 conversations := delete chat_id (conversations b) |};
                     reply := Some (results_message a d n r result);
                     error := None |}).
  { unfold process_update. cbn [conversations sessions].
    rewrite lookup_insert_eq. cbn [conv_handler]. rewrite Hlast.
    rewrite !delete_insert_eq. reflexivity. }
  exists n, result. split; [exact Hn|]. split; [exact Hcalc|]. split.
  - rewrite Hrun4, Hturn. reflexivity.
  - change (conversation chat_id amount down term rate)
      with ([(chat_id, Command "start"); (chat_id, Message amount);
             (chat_id, Message down); (chat_id, Message term)] ++ [(chat_id, Message rate)])%list.
    assert (Happ : forall (l1 l2 : list (Z * update)) (b0 : bot),
              run b0 (l1 ++ l2) = run (run b0 l1) l2).
    { induction l1 as [| [c u] l1 IH]; intros l2 b0; cbn [run app]; [reflexivity | apply IH]. }
    rewrite Happ, Hrun4. cbn [run]. rewrite Hturn. reflexivity.
Qed.

(** Chat 7 of the scenario starts again at its rate prompt and completes a
    conversation: its entries are gone. *)
Lemma conversation_leaves_no_trace_witness :
  @run reference_libm scenario_bot (conversation 7 "5 000 000" "1000000" "15" "12,5") =
    {| sessions := delete 7 (sessions scenario_bot);
       conversations := delete 7 (conversations scenario_bot) |}.
Proof.
  destruct (@conversation_leaves_no_trace reference_libm scenario_bot 7
              "5 000 000" "1000000" "15" "12,5" 5000000 1000000 15 12.5 reference_libm_sane)
    as (n & result & _ & _ & _ & Hrun); [vm_compute; reflexivity .. | exact Hrun].
Defined.


